(** * tradepro-scanner: the Supertrend indicator engine

    A shallow embedding of [src/lib/indicators.ts] (true range, ATR,
    Supertrend, latest-signal helper, price conversion and OHLC validation)
    and of the timeframe orchestrator [calculateSupertrendForTimeframes] of
    the market-data route, followed by the properties of the specification.

    Numbers.  A TypeScript [number] is an IEEE-754 binary64 value; it is
    modelled by Rocq's primitive [float], whose operations are the same
    binary64 operations (round to nearest, ties to even), NaN and the
    infinities included.  Counts and indices ([length], [atrPeriod], loop
    counters) are integer valued and are modelled by [Z], zero and negative
    periods included; where the source uses such a count in floating-point
    arithmetic it is converted with [Z2F].

    Control.  An exception is a value of [outcome]; reading an array outside
    its bounds gives [undefined] ([None]), which raises a [TypeError] when a
    property of it is read and converts to NaN when it is used as a number.
    Loops are recursive functions on their number of iterations. *)

From Stdlib Require Import ZArith List Bool Lia String.
From Stdlib Require Import Floats.
Import ListNotations.

Set Warnings "-inexact-float".
Local Open Scope Z_scope.

(** ** JavaScript numbers *)

Module JS.

(** The binary64 value of an integer (exact below 2^53 in magnitude). *)
Definition Z2F (z : Z) : float :=
  SF2Prim (binary_normalize prec emax z 0 false).

(** [a > b] and [a >= b] are [b < a] and [b <= a]; all four comparisons
    are false as soon as one operand is NaN. *)
Definition ltb (a b : float) : bool := PrimFloat.ltb a b.
Definition leb (a b : float) : bool := PrimFloat.leb a b.
Definition gtb (a b : float) : bool := PrimFloat.ltb b a.
Definition geb (a b : float) : bool := PrimFloat.leb b a.

(** [Math.abs]. *)
Definition Math_abs (a : float) : float := PrimFloat.abs a.

(** [Math.max] of two numbers: NaN if either is NaN, and [+0] is larger
    than [-0]. *)
Definition Math_max2 (a b : float) : float :=
  if is_nan a || is_nan b then nan
  else if PrimFloat.ltb a b then b
  else if PrimFloat.ltb b a then a
  else if get_sign a then b else a.

(** [Math.max(a, b, c)]: the arguments are folded from the left. *)
Definition Math_max3 (a b c : float) : float := Math_max2 (Math_max2 a b) c.

(** [l[i]]: [undefined] (here [None]) outside [0 .. length - 1]. *)
Definition index {A : Type} (l : list A) (i : Z) : option A :=
  if i <? 0 then None else nth_error l (Z.to_nat i).

(** [l.length]. *)
Definition length {A : Type} (l : list A) : Z := Z.of_nat (List.length l).

(** The number an arithmetic operator reads in [l[i]]: [undefined]
    converts to NaN. *)
Definition toNumber (x : option float) : float :=
  match x with Some v => v | None => nan end.

End JS.

Declare Scope js_scope.
Delimit Scope js_scope with js.
Infix "<" := JS.ltb : js_scope.
Infix "<=" := JS.leb : js_scope.
Infix ">" := JS.gtb : js_scope.
Infix ">=" := JS.geb : js_scope.
Infix "+" := PrimFloat.add : js_scope.
Infix "-" := PrimFloat.sub : js_scope.
Infix "*" := PrimFloat.mul : js_scope.
Infix "/" := PrimFloat.div : js_scope.

(** ** Exceptions *)

(** The two [Error]s thrown by the library carry the required and the actual
    number of periods in their message; reading a property of [undefined]
    raises a [TypeError]. *)
Inductive exn : Type :=
| InsufficientATR (need got : Z)
| InsufficientSupertrend (need got : Z)
| TypeError.

Inductive outcome (A : Type) : Type :=
| Return (a : A)
| Throw (e : exn).
Arguments Return {A} a.
Arguments Throw {A} e.

Definition bind {A B : Type} (m : outcome A) (k : A -> outcome B) : outcome B :=
  match m with
  | Return a => k a
  | Throw e => Throw e
  end.

Notation "'let*' x ':=' m 'in' k" := (bind m (fun x => k))
  (at level 10, x name, m at level 100, k at level 200).

(** Reading a property of [l[i]]: a [TypeError] when [l[i]] is [undefined]. *)
Definition deref {A : Type} (x : option A) : outcome A :=
  match x with
  | Some a => Return a
  | None => Throw TypeError
  end.

Definition insufficient (e : exn) : bool :=
  match e with
  | InsufficientATR _ _ | InsufficientSupertrend _ _ => true
  | TypeError => false
  end.

(** ** Data model *)

Record OHLCData : Type := mkOHLC {
  open : float;
  high : float;
  low : float;
  close : float;
  volume : float;
  time : string
}.

Inductive Direction : Type := up | down.
Inductive Signal : Type := buy | sell | hold.

Record SupertrendResult : Type := mkResult {
  value : float;
  direction : Direction;
  signal : Signal;
  atr : float;
  basicUpperBand : float;
  basicLowerBand : float
}.

Record SupertrendConfig : Type := mkConfig {
  atrPeriod : Z;
  factor : float
}.

Definition Direction_eqb (a b : Direction) : bool :=
  match a, b with
  | up, up | down, down => true
  | _, _ => false
  end.

(** ** True range and ATR *)

Definition calculateTrueRange (current : OHLCData) (previous : option OHLCData) : float :=
  match previous with
  | None => (high current - low current)%js
  | Some previous =>
      let tr1 := (high current - low current)%js in
      let tr2 := JS.Math_abs (high current - close previous)%js in
      let tr3 := JS.Math_abs (low current - close previous)%js in
      JS.Math_max3 tr1 tr2 tr3
  end.

(** The first loop of [calculateATR]: bar [i] is paired with bar [i - 1],
    bar 0 with [undefined]. *)
Fixpoint trueRangesFrom (previous : option OHLCData) (ohlcData : list OHLCData) : list float :=
  match ohlcData with
  | [] => []
  | current :: rest =>
      calculateTrueRange current previous :: trueRangesFrom (Some current) rest
  end.

Definition trueRanges (ohlcData : list OHLCData) : list float :=
  trueRangesFrom None ohlcData.

(** The second loop: [sum += trueRanges[i]] for [i = 0 .. period - 1]. *)
Fixpoint sumLoop (n : nat) (i : Z) (trs : list float) (sum : float) : float :=
  match n with
  | O => sum
  | S n' => sumLoop n' (i + 1) trs (sum + JS.toNumber (JS.index trs i))%js
  end.

(** The third loop, Wilder's smoothing: [n] iterations from index [i],
    each pushing a value computed from the last value pushed. *)
Fixpoint smoothLoop (n : nat) (i : Z) (period : Z) (trs : list float)
    (previousATR : float) : list float :=
  match n with
  | O => []
  | S n' =>
      let currentTR := JS.toNumber (JS.index trs i) in
      let newATR := (((previousATR * (JS.Z2F period - 1)) + currentTR) / JS.Z2F period)%js in
      newATR :: smoothLoop n' (i + 1) period trs newATR
  end.

Definition calculateATR (ohlcData : list OHLCData) (period : Z) : outcome (list float) :=
  if JS.length ohlcData <? period then
    Throw (InsufficientATR period (JS.length ohlcData))
  else
    let trs := trueRanges ohlcData in
    let sum := sumLoop (Z.to_nat period) 0 trs 0%float in
    let first := (sum / JS.Z2F period)%js in
    Return (first :: smoothLoop (Z.to_nat (JS.length trs - period)) period period trs first).

(** ** Supertrend *)

(** Which arm of the direction decision handled a bar.  The source does not
    record it; it is kept beside the results as a ghost trace. *)
Inductive Branch : Type :=
| FirstBar | StayUp | FlipDown | StayDown | FlipUp | Fallback.

(** The chain of [if]/[else if] conditions of the direction decision. *)
Definition directionBranch (previousDirection : Direction)
    (currentClose finalLowerBand finalUpperBand : float) : Branch :=
  if Direction_eqb previousDirection up && (currentClose > finalLowerBand)%js then StayUp
  else if Direction_eqb previousDirection up && (currentClose <= finalLowerBand)%js then FlipDown
  else if Direction_eqb previousDirection down && (currentClose < finalUpperBand)%js then StayDown
  else if Direction_eqb previousDirection down && (currentClose >= finalUpperBand)%js then FlipUp
  else Fallback.

(** The ratchet of the two bands against the previous result. *)
Definition finalUpper (basicUpper previousUpper previousClose : float) : float :=
  if (basicUpper < previousUpper)%js || (previousClose > previousUpper)%js
  then basicUpper else previousUpper.

Definition finalLower (basicLower previousLower previousClose : float) : float :=
  if (basicLower > previousLower)%js || (previousClose < previousLower)%js
  then basicLower else previousLower.

(** Direction, value and signal assigned in each arm. *)
Definition decide (branch : Branch) (currentClose hl2 finalLowerBand finalUpperBand : float)
    : float * Direction * Signal :=
  match branch with
  | FirstBar =>
      let direction := if (currentClose <= finalLowerBand)%js then down else up in
      ((if Direction_eqb direction up then finalLowerBand else finalUpperBand), direction, hold)
  | StayUp => (finalLowerBand, up, hold)
  | FlipDown => (finalUpperBand, down, sell)
  | StayDown => (finalUpperBand, down, hold)
  | FlipUp => (finalLowerBand, up, buy)
  | Fallback =>
      let direction := if (currentClose > hl2)%js then up else down in
      ((if Direction_eqb direction up then finalLowerBand else finalUpperBand), direction, hold)
  end.

(** One iteration of the main loop: the result pushed for bar [i], given the
    results pushed so far, and the arm that produced it. *)
Definition supertrendBar (ohlcData : list OHLCData) (atrValues : list float)
    (config : SupertrendConfig) (i : Z) (results : list SupertrendResult)
    : outcome (SupertrendResult * Branch) :=
  let atrPeriod := atrPeriod config in
  let factor := factor config in
  let atrIndex := i - (atrPeriod - 1) in
  let currentATR := JS.toNumber (JS.index atrValues atrIndex) in
  let* current := deref (JS.index ohlcData i) in
  let hl2 := ((high current + low current) / 2)%js in
  let basicUpper := (hl2 + (factor * currentATR))%js in
  let basicLower := (hl2 - (factor * currentATR))%js in
  let* bands :=
    if atrPeriod - 1 <? i then
      let* previousBar := deref (JS.index ohlcData (i - 1)) in
      let* previousResult := deref (JS.index results (JS.length results - 1)) in
      let previousClose := close previousBar in
      Return (finalUpper basicUpper (previousResult.(basicUpperBand)) previousClose,
              finalLower basicLower (previousResult.(basicLowerBand)) previousClose)
    else Return (basicUpper, basicLower) in
  let finalUpperBand := fst bands in
  let finalLowerBand := snd bands in
  let* branch :=
    if i =? atrPeriod - 1 then Return FirstBar
    else
      let* previousResult := deref (JS.index results (JS.length results - 1)) in
      Return (directionBranch (previousResult.(direction)) (close current)
                finalLowerBand finalUpperBand) in
  let '(supertrendValue, direction, signal) :=
    decide branch (close current) hl2 finalLowerBand finalUpperBand in
  Return ({| value := supertrendValue;
             direction := direction;
             signal := signal;
             atr := currentATR;
             basicUpperBand := finalUpperBand;
             basicLowerBand := finalLowerBand |}, branch).

(** The main loop, [n] iterations from bar [i]; [trace] is the ghost list of
    arms taken, one per result. *)
Fixpoint supertrendLoop (n : nat) (ohlcData : list OHLCData) (atrValues : list float)
    (config : SupertrendConfig) (i : Z) (results : list SupertrendResult)
    (trace : list Branch) : outcome (list SupertrendResult * list Branch) :=
  match n with
  | O => Return (results, trace)
  | S n' =>
      let* step := supertrendBar ohlcData atrValues config i results in
      supertrendLoop n' ohlcData atrValues config (i + 1)
        (results ++ [fst step]) (trace ++ [snd step])
  end.

Definition calculateSupertrendTraced (ohlcData : list OHLCData) (config : SupertrendConfig)
    : outcome (list SupertrendResult * list Branch) :=
  let atrPeriod := atrPeriod config in
  if JS.length ohlcData <? atrPeriod + 1 then
    Throw (InsufficientSupertrend (atrPeriod + 1) (JS.length ohlcData))
  else
    let* atrValues := calculateATR ohlcData atrPeriod in
    supertrendLoop (Z.to_nat (JS.length ohlcData - (atrPeriod - 1)))
      ohlcData atrValues config (atrPeriod - 1) [] [].

Definition calculateSupertrend (ohlcData : list OHLCData) (config : SupertrendConfig)
    : outcome (list SupertrendResult) :=
  let* traced := calculateSupertrendTraced ohlcData config in
  Return (fst traced).

Definition defaultConfig : SupertrendConfig :=
  {| atrPeriod := 10; factor := 3.0%float |}.

(** A missing [config] argument takes the default value of the parameter of
    [calculateSupertrend]. *)
Definition orDefault (config : option SupertrendConfig) : SupertrendConfig :=
  match config with
  | Some c => c
  | None => defaultConfig
  end.

(** [getLatestSupertrendSignal]: [config] is optional, and every exception
    is caught and turned into [null]. *)
Definition getLatestSupertrendSignal (ohlcData : list OHLCData)
    (config : option SupertrendConfig) : option SupertrendResult :=
  match calculateSupertrend ohlcData (orDefault config) with
  | Return results =>
      if 0 <? JS.length results then JS.index results (JS.length results - 1) else None
  | Throw _ => None
  end.

(** [try { body } catch (error) { handler(error) }]. *)
Definition tryCatch {A : Type} (body : outcome A) (handler : exn -> outcome A) : outcome A :=
  match body with
  | Return a => Return a
  | Throw e => handler e
  end.

(** A call of [getLatestSupertrendSignal] with its [try] and [catch] written
    out: the handler logs the exception and returns [null]. *)
Definition getLatestSupertrendSignalCall (ohlcData : list OHLCData)
    (config : option SupertrendConfig) : outcome (option SupertrendResult) :=
  tryCatch
    (let* results := calculateSupertrend ohlcData (orDefault config) in
     Return (if 0 <? JS.length results then JS.index results (JS.length results - 1)
             else None))
    (fun _ => Return None).

(** [convertPricesToOHLC]: the date of a bar is [dates[index]] when present
    and non-empty, otherwise derived from the clock ([today index]). *)
Fixpoint convertFrom (today : Z -> string) (index : Z) (prices : list float)
    (dates : option (list string)) : list OHLCData :=
  match prices with
  | [] => []
  | price :: rest =>
      {| open := price;
         high := (price * 1.01)%js;
         low := (price * 0.99)%js;
         close := price;
         volume := 1000000%float;
         time := match dates with
                 | Some ds =>
                     match JS.index ds index with
                     | Some d => if String.eqb d EmptyString then today index else d
                     | None => today index
                     end
                 | None => today index
                 end |} :: convertFrom today (index + 1) rest dates
  end.

Definition convertPricesToOHLC (today : Z -> string) (prices : list float)
    (dates : option (list string)) : list OHLCData :=
  convertFrom today 0 prices dates.

Definition validCandle (candle : OHLCData) : bool :=
  (high candle >= low candle)%js &&
  (high candle >= open candle)%js &&
  (high candle >= close candle)%js &&
  (low candle <= open candle)%js &&
  (low candle <= close candle)%js &&
  (volume candle >= 0)%js.

Definition validateOHLCData (ohlcData : list OHLCData) : bool :=
  forallb validCandle ohlcData.

(** ** The timeframe orchestrator *)

Inductive Timeframe : Type :=
| TF_45M | TF_2H | TF_4H | TF_1D | TF_3D | TF_1W.

Definition Timeframe_eqb (a b : Timeframe) : bool :=
  match a, b with
  | TF_45M, TF_45M | TF_2H, TF_2H | TF_4H, TF_4H
  | TF_1D, TF_1D | TF_3D, TF_3D | TF_1W, TF_1W => true
  | _, _ => false
  end.

(** The table [configs] and its keys in insertion order. *)
Definition configs (timeframe : Timeframe) : SupertrendConfig :=
  match timeframe with
  | TF_45M => {| atrPeriod := 7; factor := 2.0%float |}
  | TF_2H => {| atrPeriod := 8; factor := 2.5%float |}
  | TF_4H => {| atrPeriod := 10; factor := 2.8%float |}
  | TF_1D => {| atrPeriod := 12; factor := 3.0%float |}
  | TF_3D => {| atrPeriod := 14; factor := 3.5%float |}
  | TF_1W => {| atrPeriod := 15; factor := 4.0%float |}
  end.

Definition timeframes : list Timeframe :=
  [TF_45M; TF_2H; TF_4H; TF_1D; TF_3D; TF_1W].

(** The [switch] choosing how many of the latest bars a timeframe uses. *)
Definition dataLength (timeframe : Timeframe) (ohlcData : list OHLCData) : Z :=
  match timeframe with
  | TF_45M => Z.min 20 (JS.length ohlcData)
  | TF_2H => Z.min 25 (JS.length ohlcData)
  | TF_4H => Z.min 30 (JS.length ohlcData)
  | TF_1D => Z.min 40 (JS.length ohlcData)
  | TF_3D => Z.min 50 (JS.length ohlcData)
  | TF_1W => JS.length ohlcData
  end.

(** [l.slice(start)]: a negative [start] counts from the end. *)
Definition slice {A : Type} (l : list A) (start : Z) : list A :=
  let k := if start <? 0 then Z.max (JS.length l + start) 0
           else Z.min start (JS.length l) in
  skipn (Z.to_nat k) l.

(** The object [result], one nullable entry per timeframe. *)
Definition TimeframeResults : Type := Timeframe -> option SupertrendResult.

Definition noResults : TimeframeResults := fun _ => None.

Definition setResult (result : TimeframeResults) (timeframe : Timeframe)
    (r : option SupertrendResult) : TimeframeResults :=
  fun t => if Timeframe_eqb t timeframe then r else result t.

(** The body of the [forEach] over the keys of [configs]. *)
Definition timeframeStep (ohlcData : list OHLCData) (result : TimeframeResults)
    (timeframe : Timeframe) : TimeframeResults :=
  let config := configs timeframe in
  let timeframeData := slice ohlcData (- dataLength timeframe ohlcData) in
  if JS.length timeframeData >=? atrPeriod config + 1 then
    setResult result timeframe (getLatestSupertrendSignal timeframeData (Some config))
  else result.

Definition calculateSupertrendForTimeframes (ohlcData : list OHLCData) : TimeframeResults :=
  if JS.length ohlcData <? 15 then noResults
  else fold_left (timeframeStep ohlcData) timeframes noResults.


(** ** Vocabulary of the specification *)

(** [hl2] and the two basic bands of a bar, given its ATR value. *)
Definition hl2Of (bar : OHLCData) : float :=
  ((high bar + low bar) / 2)%js.

Definition basicUpperOf (config : SupertrendConfig) (bar : OHLCData) (a : float) : float :=
  (hl2Of bar + (factor config * a))%js.

Definition basicLowerOf (config : SupertrendConfig) (bar : OHLCData) (a : float) : float :=
  (hl2Of bar - (factor config * a))%js.

(** What the loop pushes for the first eligible bar. *)
Definition FirstView (config : SupertrendConfig) (current : OHLCData)
    (r : SupertrendResult) (b : Branch) : Prop :=
  b = FirstBar /\
  basicUpperBand r = basicUpperOf config current (atr r) /\
  basicLowerBand r = basicLowerOf config current (atr r) /\
  (value r, direction r, signal r) =
    decide FirstBar (close current) (hl2Of current) (basicLowerBand r) (basicUpperBand r).

(** What the loop pushes for a later bar, from the previous bar and the
    previous result. *)
Definition LaterView (config : SupertrendConfig) (current previousBar : OHLCData)
    (previousResult r : SupertrendResult) (b : Branch) : Prop :=
  b = directionBranch (direction previousResult) (close current)
        (basicLowerBand r) (basicUpperBand r) /\
  basicUpperBand r =
    finalUpper (basicUpperOf config current (atr r))
      (basicUpperBand previousResult) (close previousBar) /\
  basicLowerBand r =
    finalLower (basicLowerOf config current (atr r))
      (basicLowerBand previousResult) (close previousBar) /\
  (value r, direction r, signal r) =
    decide b (close current) (hl2Of current) (basicLowerBand r) (basicUpperBand r).

(** The true range of bar [i] in the words of the specification: [high - low]
    for bar 0, and for a later bar the largest of [high - low],
    [|high - previousClose|] and [|low - previousClose|]. *)
Definition specTrueRange (ohlcData : list OHLCData) (i : nat) : option float :=
  match i with
  | O =>
      match nth_error ohlcData 0 with
      | Some bar => Some (high bar - low bar)%js
      | None => None
      end
  | S j =>
      match nth_error ohlcData (S j), nth_error ohlcData j with
      | Some bar, Some previous =>
          Some (JS.Math_max3 (high bar - low bar)%js
                  (JS.Math_abs (high bar - close previous)%js)
                  (JS.Math_abs (low bar - close previous)%js))
      | _, _ => None
      end
  end.

(** The arithmetic mean of a list of numbers, summed from the left. *)
Definition mean (l : list float) : float :=
  (fold_left PrimFloat.add l 0%float / JS.Z2F (JS.length l))%js.

(** Wilder's recurrence. *)
Definition wilder (period : Z) (previousATR trueRange : float) : float :=
  (((previousATR * (JS.Z2F period - 1)) + trueRange) / JS.Z2F period)%js.

(** The four conditions of the direction decision, in source order. *)
Definition fourCases (previousDirection : Direction)
    (currentClose finalLowerBand finalUpperBand : float) : list bool :=
  [ Direction_eqb previousDirection up && (currentClose > finalLowerBand)%js;
    Direction_eqb previousDirection up && (currentClose <= finalLowerBand)%js;
    Direction_eqb previousDirection down && (currentClose < finalUpperBand)%js;
    Direction_eqb previousDirection down && (currentClose >= finalUpperBand)%js ].

(** How many of a list of conditions hold. *)
Definition holding (conditions : list bool) : nat :=
  count_occ bool_dec conditions true.

(** The band a bar's close is compared with: the lower band after an [up]
    bar, the upper band after a [down] bar. *)
Definition comparedBand (previousDirection : Direction) (r : SupertrendResult) : float :=
  match previousDirection with
  | up => basicLowerBand r
  | down => basicUpperBand r
  end.

(** The signal that reports a change to a direction. *)
Definition flipSignal (d : Direction) : Signal :=
  match d with
  | up => buy
  | down => sell
  end.

(** The window length of a timeframe in the table of the specification;
    the weekly timeframe uses the whole sequence. *)
Definition windowLength (timeframe : Timeframe) : option Z :=
  match timeframe with
  | TF_45M => Some 20
  | TF_2H => Some 25
  | TF_4H => Some 30
  | TF_1D => Some 40
  | TF_3D => Some 50
  | TF_1W => None
  end.

(** The last [n] bars of a sequence. *)
Definition lastBars (n : Z) (ohlcData : list OHLCData) : list OHLCData :=
  skipn (Z.to_nat (JS.length ohlcData - n)) ohlcData.

(** The windowed slice of a timeframe: the last [min(windowLength, length)]
    bars of the master sequence. *)
Definition window (timeframe : Timeframe) (ohlcData : list OHLCData) : list OHLCData :=
  match windowLength timeframe with
  | Some w => lastBars (Z.min w (JS.length ohlcData)) ohlcData
  | None => ohlcData
  end.

(** The entry a timeframe is left with by its pass of the [forEach] body,
    [old] being the entry before. *)
Definition entry (ohlcData : list OHLCData) (timeframe : Timeframe)
    (old : option SupertrendResult) : option SupertrendResult :=
  let timeframeData := slice ohlcData (- dataLength timeframe ohlcData) in
  if JS.length timeframeData >=? atrPeriod (configs timeframe) + 1
  then getLatestSupertrendSignal timeframeData (Some (configs timeframe))
  else old.

(** Vocabulary for the rounding of binary64 products: the exponent function
    of the format, the right shift that brings a mantissa to it, and the
    number built from a shifted mantissa. *)
Definition fexp64 (e : Z) : Z := Z.max (e - 53) (-1074).

Definition shifted (a e : Z) : Z * Z :=
  let s := fexp64 (Zdigits2 a + e) - e in
  (if 0 <? s then a / 2 ^ s else a, e + Z.max s 0).

Definition rounded (sx : bool) (m2 e2 : Z) : spec_float :=
  match m2 with
  | Z0 => S754_zero sx
  | Zpos p => if e2 <=? emax - prec then S754_finite sx p e2 else S754_infinity sx
  | Zneg _ => S754_nan
  end.


(** ** Sample inputs *)

Module Sample.

(** A bar that opens and closes at the same price. *)
Definition bar (l h c : float) : OHLCData :=
  {| open := c; high := h; low := l; close := c;
     volume := 1000000%float; time := EmptyString |}.

(** One ordinary bar. *)
Definition single : list OHLCData := [bar 9 11 10].

(** Eight identical bars: enough for the 45-minute timeframe, which needs
    [7 + 1]. *)
Definition eight : list OHLCData := repeat (bar 9 11 10) 8.

(** Twenty identical bars. *)
Definition twenty : list OHLCData := repeat (bar 9 11 10) 20.

(** Some non-negative prices, zero and infinity included. *)
Definition prices : list float := [0; 100; 1.5; 0.1; infinity]%float.

(** Three quiet bars. *)
Definition quiet : list OHLCData := [bar 9 11 10; bar 9 11 10; bar 10 12 11].

(** A quiet bar followed by a bar whose close is not a number. *)
Definition withNaN : list OHLCData := [bar 9 11 10; bar 9 11 nan].

(** Nine flat bars at 100, a wide bar closing on its low, a much wider bar
    closing on its low, and a narrow bar. *)
Definition spike : list OHLCData :=
  repeat (bar 100 100 100) 9 ++ [bar 100 200 100; bar 200 1000 200; bar 200 210 205].

(** The same shape falling: flat at 1100, then three bars closing on
    their highs. *)
Definition plunge : list OHLCData :=
  repeat (bar 1100 1100 1100) 9 ++
  [bar 1000 1100 1100; bar 200 1000 1000; bar 990 1000 995].

(** Three well-formed bars of finite but very large prices: the sum of the
    first two true ranges overflows. *)
Definition huge : list OHLCData :=
  [bar 0 1.7e308 0; bar 1e308 1.7e308 1.2e308; bar 1e308 1.7e308 1.2e308].

(** A sequence whose first bar has its high below its low. *)
Definition inverted : list OHLCData := [bar 20 5 10; bar 9 11 10].

Definition period1 : SupertrendConfig := {| atrPeriod := 1; factor := 1 |}.
Definition period0 : SupertrendConfig := {| atrPeriod := 0; factor := 3 |}.
Definition period2 : SupertrendConfig := {| atrPeriod := 2; factor := 1 |}.

End Sample.

(** * The market-data route and the dashboard

    The pure helpers of the market-data route around the orchestrator
    ([analyzeTrend], [analyzeTrendFromPercentage], [extractOHLCData],
    [extractHistoricalPrices]) and the display helper of the dashboard
    ([getSupertrendDisplay]), which consumes the engine's results. *)

From Stdlib Require Import Sorted Permutation.

(** ** More of the JavaScript library *)

(** [Math.min] of two numbers: NaN if either is NaN, and [-0] is smaller
    than [+0]. *)
Definition Math_min2 (a b : float) : float :=
  if is_nan a || is_nan b then nan
  else if PrimFloat.ltb a b then a
  else if PrimFloat.ltb b a then b
  else if get_sign a then a else b.

(** [Math.sqrt]: the correctly rounded square root. *)
Definition Math_sqrt (a : float) : float := PrimFloat.sqrt a.

(** [Math.round]: NaN, the infinities, the zeros and the integers are
    returned as they are (a number whose exponent is not negative is an
    integer); any other number [n * 2^e] is rounded to [floor (x + 1/2)],
    computed exactly on integers, ties going towards [+infinity]; a result
    of zero keeps the sign of the argument. *)
Definition Math_round (x : float) : float :=
  match Prim2SF x with
  | S754_finite s m e =>
      if 0 <=? e then x
      else
        let n := if s then Z.neg m else Z.pos m in
        let q := (2 * n + 2 ^ (- e)) / 2 ^ (1 - e) in
        if q =? 0 then (if s then neg_zero else zero) else JS.Z2F q
  | _ => x
  end.

(** [l.slice(start, end)]: negative positions count from the end. *)
Definition slice2 {A : Type} (l : list A) (start stop : Z) : list A :=
  let from := if start <? 0 then Z.max (JS.length l + start) 0
              else Z.min start (JS.length l) in
  let to := if stop <? 0 then Z.max (JS.length l + stop) 0
            else Z.min stop (JS.length l) in
  firstn (Z.to_nat (to - from)) (skipn (Z.to_nat from) l).

(** [l.reduce((a, b) => a + b, 0)]. *)
Definition sum (l : list float) : float := fold_left PrimFloat.add l 0%float.

(** [l.map((x, i) => f x i)], the index starting at [i]. *)
Fixpoint mapi {A B : Type} (f : A -> Z -> B) (i : Z) (l : list A) : list B :=
  match l with
  | [] => []
  | x :: rest => f x i :: mapi f (i + 1) rest
  end.

(** A string of ASCII characters: the top bit of every byte is clear.  Such a
    string has one UTF-16 code unit for each byte, of the same value; the
    dates of the provider, [YYYY-MM-DD], are of this kind. *)
Definition isASCIIChar (c : Ascii.ascii) : bool :=
  match c with
  | Ascii.Ascii _ _ _ _ _ _ _ top => negb top
  end.

Fixpoint isASCII (s : string) : bool :=
  match s with
  | EmptyString => true
  | String c rest => isASCIIChar c && isASCII rest
  end.

(** The default [sort] orders strings by their UTF-16 code units.  The model
    orders them by their bytes: on ASCII strings this is the same order, on
    other strings it can differ, so what is stated about the order itself is
    stated for ASCII keys. *)
Fixpoint insert (s : string) (l : list string) : list string :=
  match l with
  | [] => [s]
  | x :: rest => if String.leb s x then s :: l else x :: insert s rest
  end.

Definition sort (l : list string) : list string := fold_right insert [] l.

(** An object with string keys: its own properties, one entry per key. *)
Fixpoint lookup {V : Type} (key : string) (o : list (string * V)) : option V :=
  match o with
  | [] => None
  | (k, v) :: rest => if String.eqb key k then Some v else lookup key rest
  end.

Definition keys {V : Type} (o : list (string * V)) : list string := map fst o.

(** The property names every object literal inherits from
    [Object.prototype]; each of them is a function or an object, hence
    truthy, and has no property [strong] or [weak]. *)
Definition inherited (key : string) : bool :=
  existsb (String.eqb key)
    ["constructor"; "__defineGetter__"; "__defineSetter__"; "hasOwnProperty";
     "__lookupGetter__"; "__lookupSetter__"; "isPrototypeOf"; "propertyIsEnumerable";
     "toString"; "valueOf"; "__proto__"; "toLocaleString"]%string.

(** What the route takes from its host: the date [n] days before now (the
    first ten characters of the ISO timestamp), the outcome of
    [Math.floor(Math.random() * 30) + 1], the approximation [Math.pow], and
    the two number parsers. *)
Record Host : Type := mkHost {
  dateDaysAgo : Z -> string;
  randomDaysBack : Z;
  Math_pow : float -> float -> float;
  parseFloat : string -> float;
  parseInt : string -> float
}.

(** ** Trend analysis *)

Inductive Trend : Type := sideways | uptrend | downtrend.

Record TrendData : Type := mkTrendData {
  trend : Trend;
  confidence : float;
  startDate : string
}.

Record Threshold : Type := mkThreshold {
  strong : float;
  weak : float
}.

(** The threshold read through an inherited property name: both of its
    fields are [undefined], which compares and negates as NaN. *)
Definition noThreshold : Threshold := {| strong := nan; weak := nan |}.

(** [thresholds[timeframe] || thresholds["1D"]] in [analyzeTrend]. *)
Definition trendThreshold (timeframe : string) : Threshold :=
  if String.eqb timeframe "1H" then {| strong := 1; weak := 0.3 |}
  else if String.eqb timeframe "1D" then {| strong := 2; weak := 0.8 |}
  else if String.eqb timeframe "1W" then {| strong := 5; weak := 2 |}
  else if String.eqb timeframe "1M" then {| strong := 10; weak := 5 |}
  else if inherited timeframe then noThreshold
  else {| strong := 2; weak := 0.8 |}.

(** [thresholds[timeframe] || thresholds["24h"]] in
    [analyzeTrendFromPercentage]. *)
Definition percentageThreshold (timeframe : string) : Threshold :=
  if String.eqb timeframe "1h" then {| strong := 2; weak := 0.5 |}
  else if String.eqb timeframe "24h" then {| strong := 5; weak := 1.5 |}
  else if String.eqb timeframe "7d" then {| strong := 10; weak := 3 |}
  else if String.eqb timeframe "30d" then {| strong := 20; weak := 8 |}
  else if inherited timeframe then noThreshold
  else {| strong := 5; weak := 1.5 |}.

(** The metrics of [analyzeTrend].  (The source also computes
    [recentChange], from the middle price, and never uses it.)

    The relative change from the first to the last price, in percent. *)
Definition totalChangeOf (prices : list float) : float :=
  let latestPrice := JS.toNumber (JS.index prices (JS.length prices - 1)) in
  let oldPrice := JS.toNumber (JS.index prices 0) in
  (((latestPrice - oldPrice) / oldPrice) * 100)%js.

(** The relative change from the mean of the first half to the mean of the
    second half, in percent. *)
Definition avgTrendOf (prices : list float) : float :=
  let firstHalf := slice2 prices 0 (JS.length prices / 2) in
  let secondHalf := slice prices (JS.length prices / 2) in
  let firstAvg := (sum firstHalf / JS.Z2F (JS.length firstHalf))%js in
  let secondAvg := (sum secondHalf / JS.Z2F (JS.length secondHalf))%js in
  (((secondAvg - firstAvg) / firstAvg) * 100)%js.

(** The standard deviation of the bar-to-bar returns, in percent. *)
Definition volatilityOf (host : Host) (prices : list float) : float :=
  let returns :=
    mapi (fun price i =>
            ((price - JS.toNumber (JS.index prices i)) / JS.toNumber (JS.index prices i))%js)
      0 (slice prices 1) in
  let avgReturn := (sum returns / JS.Z2F (JS.length returns))%js in
  let variance :=
    (fold_left (fun sum ret => (sum + Math_pow host (ret - avgReturn) 2)%js) returns 0%float
     / JS.Z2F (JS.length returns))%js in
  (Math_sqrt variance * 100)%js.

(** The primary trend determination of [analyzeTrend]. *)
Definition primaryTrend (threshold : Threshold) (totalChange avgTrend : float)
    : Trend * float :=
  if (totalChange > strong threshold)%js && (avgTrend > weak threshold)%js then
    (uptrend,
     Math_min2 95 (60 + JS.Math_abs totalChange * 2
                   + (if (avgTrend > 0)%js then 10 else 0))%js)
  else if (totalChange < - strong threshold)%js && (avgTrend < - weak threshold)%js then
    (downtrend,
     Math_min2 95 (60 + JS.Math_abs totalChange * 2
                   + (if (avgTrend < 0)%js then 10 else 0))%js)
  else if (JS.Math_abs totalChange > weak threshold)%js then
    ((if (totalChange > 0)%js then uptrend else downtrend),
     Math_min2 85 (50 + JS.Math_abs totalChange * 1.5)%js)
  else (sideways, 50%float).

(** The adjustment of the confidence by the volatility. *)
Definition adjustConfidence (volatility confidence : float) : float :=
  if (volatility > 5)%js then JS.Math_max2 40 (confidence - 15)%js
  else if (volatility < 1)%js then Math_min2 95 (confidence + 10)%js
  else confidence.

(** [analyzeTrend] and [analyzeTrendFromPercentage].  Their parameter
    [timeframe] has a default, which applies when a caller omits the
    argument; the model takes the argument. *)
Definition analyzeTrend (host : Host) (historicalData : list float) (timeframe : string)
    : TrendData :=
  if JS.length historicalData <? 3 then
    {| trend := sideways; confidence := 50; startDate := dateDaysAgo host 7 |}
  else
    let prices := historicalData in
    let totalChange := totalChangeOf prices in
    let avgTrend := avgTrendOf prices in
    let volatility := volatilityOf host prices in
    let threshold := trendThreshold timeframe in
    let '(found, primary) := primaryTrend threshold totalChange avgTrend in
    let adjusted := adjustConfidence volatility primary in
    {| trend := found;
       confidence := Math_round adjusted;
       startDate := dateDaysAgo host (randomDaysBack host) |}.

Definition analyzeTrendFromPercentage (host : Host) (percentageChange : float)
    (timeframe : string) : TrendData :=
  let threshold := percentageThreshold timeframe in
  let '(found, primary) :=
    if (percentageChange > strong threshold)%js then
      (uptrend, Math_min2 95 (70 + JS.Math_abs percentageChange * 1.5)%js)
    else if (percentageChange < - strong threshold)%js then
      (downtrend, Math_min2 95 (70 + JS.Math_abs percentageChange * 1.5)%js)
    else if (JS.Math_abs percentageChange > weak threshold)%js then
      ((if (percentageChange > 0)%js then uptrend else downtrend),
       Math_min2 80 (55 + JS.Math_abs percentageChange * 2)%js)
    else
      (sideways, JS.Math_max2 60 (75 - JS.Math_abs percentageChange * 5)%js) in
  {| trend := found;
     confidence := Math_round primary;
     startDate := dateDaysAgo host (randomDaysBack host) |}.

(** The label in one rule: by the total change and the weak threshold. *)
Definition classify (change weakThreshold : float) : Trend :=
  if (change > weakThreshold)%js then uptrend
  else if (change < - weakThreshold)%js then downtrend
  else sideways.

(** What the chain of tests needs from a threshold: its weak level is
    positive and below its strong level, or both levels are [undefined]. *)
Definition usable (threshold : Threshold) : Prop :=
  ((0 < weak threshold)%js = true /\ (weak threshold < strong threshold)%js = true) \/
  (is_nan (weak threshold) = true /\ is_nan (strong threshold) = true).

(** ** Extraction from the provider's daily series *)

(** One day of the series: the properties ["1. open"], ["2. high"],
    ["3. low"], ["4. close"] and ["5. volume"], each a string or missing. *)
Record DayData : Type := mkDay {
  day_open : option string;
  day_high : option string;
  day_low : option string;
  day_close : option string;
  day_volume : option string
}.

(** The series is an object keyed by date. *)
Definition TimeSeries : Type := list (string * DayData).

(** The payload: its property ["Time Series (Daily)"] may be missing. *)
Record Payload : Type := mkPayload {
  timeSeriesDaily : option TimeSeries
}.

(** A parser applied to a property: [undefined] is first converted to the
    string ["undefined"]. *)
Definition parsed (parse : string -> float) (field : option string) : float :=
  parse match field with
        | Some s => s
        | None => "undefined"%string
        end.

(** Reading the entry of [dates[i]]: the key of [undefined] is
    ["undefined"], and a property of a missing entry cannot be read. *)
Definition dayAt (timeSeries : TimeSeries) (date : option string) : outcome DayData :=
  deref (lookup match date with
                | Some d => d
                | None => "undefined"%string
                end timeSeries).

(** The bar pushed for a date and its entry. *)
Definition dayBar (host : Host) (date : string) (dayData : DayData) : OHLCData :=
  {| time := date;
     open := parsed (parseFloat host) (day_open dayData);
     high := parsed (parseFloat host) (day_high dayData);
     low := parsed (parseFloat host) (day_low dayData);
     close := parsed (parseFloat host) (day_close dayData);
     volume := parsed (parseInt host) (day_volume dayData) |}.

(** The loop of [extractOHLCData], [n] iterations from index [i]. *)
Fixpoint extractLoop (host : Host) (n : nat) (i : Z) (dates : list string)
    (timeSeries : TimeSeries) (ohlcData : list OHLCData) : outcome (list OHLCData) :=
  match n with
  | O => Return ohlcData
  | S n' =>
      let date := JS.index dates i in
      let* dayData := dayAt timeSeries date in
      extractLoop host n' (i + 1) dates timeSeries
        (ohlcData ++
         [dayBar host match date with
                      | Some d => d
                      | None => "undefined"%string
                      end dayData])
  end.

(** [extractOHLCData]; [days] is an integer count (its default is 30). *)
Definition extractOHLCData (host : Host) (timeSeriesData : option Payload) (days : Z)
    : outcome (list OHLCData) :=
  match timeSeriesData with
  | None => Return []
  | Some payload =>
      match timeSeriesDaily payload with
      | None => Return []
      | Some timeSeries =>
          let dates := rev (sort (keys timeSeries)) in
          let* ohlcData :=
            extractLoop host (Z.to_nat (Z.min days (JS.length dates))) 0 dates timeSeries [] in
          Return (rev ohlcData)
      end
  end.

(** [dates.map(date => parseFloat(timeSeries[date]["4. close"]))]. *)
Fixpoint closesOf (host : Host) (timeSeries : TimeSeries) (dates : list string)
    : outcome (list float) :=
  match dates with
  | [] => Return []
  | date :: rest =>
      let* dayData := dayAt timeSeries (Some date) in
      let* closes := closesOf host timeSeries rest in
      Return (parsed (parseFloat host) (day_close dayData) :: closes)
  end.

Definition extractHistoricalPrices (host : Host) (timeSeriesData : option Payload) (days : Z)
    : outcome (list float) :=
  match timeSeriesData with
  | None => Return []
  | Some payload =>
      match timeSeriesDaily payload with
      | None => Return []
      | Some timeSeries =>
          let dates := rev (sort (keys timeSeries)) in
          let* prices := closesOf host timeSeries (slice2 dates 0 days) in
          Return (rev prices)
      end
  end.

(** The series a payload carries; none when the payload or its daily
    series is missing. *)
Definition seriesOf (timeSeriesData : option Payload) : TimeSeries :=
  match timeSeriesData with
  | Some payload =>
      match timeSeriesDaily payload with
      | Some timeSeries => timeSeries
      | None => []
      end
  | None => []
  end.

(** [bar] is the bar of [date]: built from the entry of [date] in the
    series. *)
Definition barOf (host : Host) (timeSeries : TimeSeries) (date : string) (bar : OHLCData)
    : Prop :=
  exists dayData, lookup date timeSeries = Some dayData /\ bar = dayBar host date dayData.

(** The orders of dates. *)
Definition notAfter (a b : string) : Prop := String.leb a b = true.
Definition before (a b : string) : Prop := String.ltb a b = true.

(** ** Numbers that are not negative *)

(** NaN, the zeros, [+infinity] and the positive numbers. *)
Definition SFnotNegative (s : spec_float) : bool :=
  match s with
  | S754_nan => true
  | S754_zero _ => true
  | S754_infinity sx => negb sx
  | S754_finite sx _ _ => negb sx
  end.

(** A number is not negative when it is NaN or at least zero. *)
Definition notNegative (x : float) : Prop :=
  is_nan x = true \/ (0 <= x)%js = true.

(** ** The dashboard's display of a Supertrend result *)

Record SupertrendDisplay : Type := mkDisplay {
  icon : string;
  label : string;
  colorScheme : string;
  shownSignal : Signal;
  shownValue : float;
  shownAtr : float
}.

(** The chain of tests on the signal and then on the direction; its last
    arm, which keeps the gray ["Hold"], needs a direction that is neither
    [up] nor [down]. *)
Definition getSupertrendDisplay (supertrendData : option SupertrendResult)
    : SupertrendDisplay :=
  match supertrendData with
  | None =>
      {| icon := "—"; label := "No Data"; colorScheme := "gray";
         shownSignal := hold; shownValue := 0; shownAtr := 0 |}
  | Some supertrendData =>
      let '(colorScheme', icon', label') :=
        match signal supertrendData, direction supertrendData with
        | buy, _ => ("green", "🚀", "BUY")
        | sell, _ => ("red", "📉", "SELL")
        | hold, up => ("green", "📈", "Bullish")
        | hold, down => ("red", "📉", "Bearish")
        end%string in
      {| icon := icon'; label := label'; colorScheme := colorScheme';
         shownSignal := signal supertrendData;
         shownValue := (Math_round (value supertrendData * 100) / 100)%js;
         shownAtr := (Math_round (atr supertrendData * 100) / 100)%js |}
  end.

(** The colour that goes with a direction. *)
Definition directionColour (d : Direction) : string :=
  match d with
  | up => "green"
  | down => "red"
  end.

(** ** More sample inputs *)

Module Sample2.

Definition host : Host :=
  {| dateDaysAgo := fun _ => "2024-01-01"%string;
     randomDaysBack := 3;
     Math_pow := fun x _ => (x * x)%float;
     parseFloat := fun s => if String.eqb s "10" then 10%float
                            else if String.eqb s "11" then 11%float
                            else if String.eqb s "12" then 12%float
                            else if String.eqb s "9" then 9%float
                            else nan;
     parseInt := fun s => if String.eqb s "500" then 500%float else nan |}.

Definition day (l h c : string) : DayData :=
  {| day_open := Some c; day_high := Some h; day_low := Some l;
     day_close := Some c; day_volume := Some "500"%string |}.

(** Three days in the order the provider sends them, latest first. *)
Definition series : TimeSeries :=
  [("2024-01-03", day "10" "12" "11"); ("2024-01-02", day "9" "11" "10");
   ("2024-01-01", day "9" "10" "9")]%string.

Definition payload : option Payload := Some {| timeSeriesDaily := Some series |}.

End Sample2.

(** * Lemmas *)

(** ** Comparisons of binary64 numbers

    Derived from the specification of the primitive comparisons
    ([FloatAxioms]): two numbers are ordered unless one of them is NaN. *)

Lemma SFcompare_swap (x y : spec_float) :
  SFcompare y x = option_map CompOpp (SFcompare x y).
Proof.
  destruct x as [sx | sx | | sx mx ex], y as [sy | sy | | sy my ey];
    simpl; try reflexivity;
    try (destruct sx; reflexivity);
    try (destruct sy; reflexivity);
    try (destruct sx, sy; reflexivity).
  destruct sx, sy; simpl; try reflexivity;
    rewrite (Z.compare_antisym ex ey);
    destruct (ex ?= ey) eqn:E; simpl; try reflexivity;
    change (PosDef.Pos.compare_cont Eq mx my) with (Pos.compare_cont Eq mx my);
    rewrite (Pos.compare_cont_antisym mx my Eq); reflexivity.
Qed.

Lemma SFcompare_nan (x y : float) :
  SFcompare (Prim2SF x) (Prim2SF y) = None <-> is_nan x = true \/ is_nan y = true.
Proof.
  assert (N : forall z, is_nan z = true <-> Prim2SF z = S754_nan).
  { intro z. unfold is_nan. rewrite eqb_spec. unfold SFeqb.
    destruct (Prim2SF z) as [s | s | | s m e]; simpl.
    - split; discriminate.
    - destruct s; split; discriminate.
    - split; reflexivity.
    - rewrite Z.compare_refl, Pos.compare_cont_refl.
      destruct s; split; discriminate. }
  rewrite !N.
  destruct (Prim2SF x) as [sx | sx | | sx mx ex], (Prim2SF y) as [sy | sy | | sy my ey];
    simpl; split; intro H; try discriminate; auto;
    try (destruct H; discriminate).
Qed.

Lemma ltb_asym (a b : float) : (a < b)%js = true -> (b < a)%js = false.
Proof.
  unfold JS.ltb. rewrite !ltb_spec. unfold SFltb.
  rewrite (SFcompare_swap (Prim2SF a) (Prim2SF b)).
  destruct (SFcompare (Prim2SF a) (Prim2SF b)) as [[ | | ] | ]; simpl; congruence.
Qed.

Lemma ltb_leb (a b : float) : (a < b)%js = true -> (a <= b)%js = true.
Proof.
  unfold JS.ltb, JS.leb. rewrite ltb_spec, leb_spec. unfold SFltb, SFleb.
  destruct (SFcompare (Prim2SF a) (Prim2SF b)) as [[ | | ] | ]; simpl; congruence.
Qed.

Lemma gtb_not_ltb (a b : float) : (a > b)%js = true -> (a < b)%js = false.
Proof. unfold JS.gtb. apply ltb_asym. Qed.

Lemma gtb_leb_total (a b : float) :
  is_nan a = false -> is_nan b = false -> (a > b)%js = negb (a <= b)%js.
Proof.
  intros Ha Hb. unfold JS.gtb, JS.leb. rewrite ltb_spec, leb_spec.
  unfold SFltb, SFleb. rewrite (SFcompare_swap (Prim2SF a) (Prim2SF b)).
  destruct (SFcompare (Prim2SF a) (Prim2SF b)) as [[ | | ] | ] eqn:E; simpl; try reflexivity.
  apply SFcompare_nan in E. destruct E; congruence.
Qed.

Lemma ltb_geb_total (a b : float) :
  is_nan a = false -> is_nan b = false -> (a < b)%js = negb (a >= b)%js.
Proof.
  intros Ha Hb. unfold JS.ltb, JS.geb. rewrite ltb_spec, leb_spec.
  unfold SFltb, SFleb. rewrite (SFcompare_swap (Prim2SF a) (Prim2SF b)).
  destruct (SFcompare (Prim2SF a) (Prim2SF b)) as [[ | | ] | ] eqn:E; simpl; try reflexivity.
  apply SFcompare_nan in E. destruct E; congruence.
Qed.

Lemma leb_refl (a : float) : is_nan a = false -> (a <= a)%js = true.
Proof.
  intro Ha. unfold JS.leb. rewrite leb_spec. unfold SFleb.
  destruct (SFcompare (Prim2SF a) (Prim2SF a)) as [[ | | ] | ] eqn:E; try reflexivity.
  - pose proof (SFcompare_swap (Prim2SF a) (Prim2SF a)) as S.
    rewrite E in S. discriminate.
  - apply SFcompare_nan in E. destruct E; congruence.
Qed.

Lemma gtb_leb_excl (a b : float) : (a > b)%js = true -> (a <= b)%js = false.
Proof.
  unfold JS.gtb, JS.leb. rewrite ltb_spec, leb_spec. unfold SFltb, SFleb.
  rewrite (SFcompare_swap (Prim2SF a) (Prim2SF b)).
  destruct (SFcompare (Prim2SF a) (Prim2SF b)) as [[ | | ] | ]; simpl; congruence.
Qed.

Lemma nan_unordered (a b : float) :
  is_nan a || is_nan b = true -> (a < b)%js = false /\ (a <= b)%js = false.
Proof.
  intro H. apply orb_true_iff in H. apply SFcompare_nan in H.
  unfold JS.ltb, JS.leb. rewrite ltb_spec, leb_spec. unfold SFltb, SFleb.
  now rewrite H.
Qed.

Lemma nan_unordered_gt (a b : float) :
  is_nan a || is_nan b = true -> (a > b)%js = false /\ (a >= b)%js = false.
Proof.
  intro H. rewrite orb_comm in H. apply (nan_unordered b a H).
Qed.

Lemma ordered_or_nan (a b : float) :
  is_nan a || is_nan b = false ->
  (a > b)%js = negb (a <= b)%js /\ (a < b)%js = negb (a >= b)%js.
Proof.
  intro H. apply orb_false_iff in H. destruct H as [Ha Hb].
  split; [apply gtb_leb_total | apply ltb_geb_total]; assumption.
Qed.

Lemma SFleb_trans (a b c : spec_float) :
  SFleb a b = true -> SFleb b c = true -> SFleb a c = true.
Proof.
  unfold SFleb.
  destruct a as [sa | sa | | sa ma ea], b as [sb | sb | | sb mb eb],
           c as [sc | sc | | sc mc ec];
    simpl; try discriminate; try reflexivity;
    try (destruct sa, sb, sc; simpl; try discriminate; reflexivity);
    try (destruct sa, sb; simpl; try discriminate; reflexivity);
    try (destruct sb, sc; simpl; try discriminate; reflexivity);
    try (destruct sa, sc; simpl; try discriminate; reflexivity).
  all: destruct sa, sb, sc; simpl; try discriminate; try reflexivity.
  all: change (Pos.compare_cont Eq ma mb) with (Pos.compare ma mb);
       change (Pos.compare_cont Eq mb mc) with (Pos.compare mb mc);
       change (Pos.compare_cont Eq ma mc) with (Pos.compare ma mc);
       destruct (Z.compare_spec ea eb), (Z.compare_spec eb ec), (Z.compare_spec ea ec);
       try discriminate; try reflexivity; try lia; subst;
       destruct (Pos.compare_spec ma mb), (Pos.compare_spec mb mc), (Pos.compare_spec ma mc);
       simpl; try discriminate; try reflexivity; try lia.
Qed.

Lemma leb_trans (a b c : float) :
  (a <= b)%js = true -> (b <= c)%js = true -> (a <= c)%js = true.
Proof. unfold JS.leb. rewrite !leb_spec. apply SFleb_trans. Qed.

(** ** Lists and indices *)

Lemma index_of_nat {A : Type} (l : list A) (k : nat) :
  JS.index l (Z.of_nat k) = nth_error l k.
Proof.
  unfold JS.index. destruct (Z.ltb_spec (Z.of_nat k) 0) as [H | H]; [lia |].
  now rewrite Nat2Z.id.
Qed.

Lemma index_Some_range {A : Type} (l : list A) (i : Z) (x : A) :
  JS.index l i = Some x -> 0 <= i < JS.length l.
Proof.
  unfold JS.index, JS.length. destruct (Z.ltb_spec i 0) as [H | H]; [discriminate |].
  intro E. assert (Z.to_nat i < List.length l)%nat by (apply nth_error_Some; congruence).
  lia.
Qed.

Lemma index_in_range {A : Type} (l : list A) (i : Z) :
  0 <= i < JS.length l -> exists x, JS.index l i = Some x.
Proof.
  unfold JS.index, JS.length. intro H.
  destruct (Z.ltb_spec i 0) as [H0 | H0]; [lia |].
  destruct (nth_error l (Z.to_nat i)) eqn:E; [eauto |].
  apply nth_error_None in E. lia.
Qed.

Lemma index_last_snoc {A : Type} (l : list A) (x : A) :
  JS.index (l ++ [x]) (JS.length (l ++ [x]) - 1) = Some x.
Proof.
  unfold JS.length. rewrite length_app. simpl.
  replace (Z.of_nat (List.length l + 1) - 1) with (Z.of_nat (List.length l)) by lia.
  rewrite index_of_nat, nth_error_app2 by lia.
  now rewrite Nat.sub_diag.
Qed.

Lemma index_last_firstn {A : Type} (l : list A) (k : nat) :
  (S k <= List.length l)%nat ->
  JS.index (firstn (S k) l) (JS.length (firstn (S k) l) - 1) = nth_error l k.
Proof.
  intro H. unfold JS.length. rewrite length_firstn, Nat.min_l by lia.
  replace (Z.of_nat (S k) - 1) with (Z.of_nat k) by lia.
  rewrite index_of_nat, nth_error_firstn.
  destruct (Nat.ltb_spec k (S k)); [reflexivity | lia].
Qed.

Lemma firstn_snoc_prefix {A : Type} (l out : list A) (x : A) :
  firstn (List.length l + 1) out = l ++ [x] ->
  firstn (List.length l) out = l /\ nth_error out (List.length l) = Some x.
Proof.
  intro H. split.
  - rewrite <- (Nat.min_l (List.length l) (List.length l + 1)) at 1 by lia.
    rewrite <- firstn_firstn, H, firstn_app, firstn_all, Nat.sub_diag. simpl.
    apply app_nil_r.
  - assert (E : nth_error (firstn (List.length l + 1) out) (List.length l)
                 = nth_error out (List.length l)).
    { rewrite nth_error_firstn.
      destruct (Nat.ltb_spec (List.length l) (List.length l + 1)); [reflexivity | lia]. }
    rewrite <- E, H, nth_error_app2, Nat.sub_diag by lia. reflexivity.
Qed.

(** ** The main loop, bar by bar *)

Lemma bind_Return {A B : Type} (m : outcome A) (k : A -> outcome B) (b : B) :
  bind m k = Return b -> exists a, m = Return a /\ k a = Return b.
Proof. destruct m; simpl; [eauto | discriminate]. Qed.

Lemma deref_Return {A : Type} (x : option A) (a : A) :
  deref x = Return a -> x = Some a.
Proof. destruct x; simpl; congruence. Qed.

Section MainLoop.

Variable ohlcData : list OHLCData.
Variable atrValues : list float.
Variable config : SupertrendConfig.

Lemma supertrendBar_first (results : list SupertrendResult)
    (r : SupertrendResult) (b : Branch) :
  supertrendBar ohlcData atrValues config (atrPeriod config - 1) results = Return (r, b) ->
  exists current,
    JS.index ohlcData (atrPeriod config - 1) = Some current /\
    atr r = JS.toNumber (JS.index atrValues 0) /\
    FirstView config current r b.
Proof.
  unfold supertrendBar. intro H.
  apply bind_Return in H. destruct H as (current & Hc & H). apply deref_Return in Hc.
  rewrite Z.ltb_irrefl, Z.eqb_refl, Z.sub_diag in H. simpl in H.
  injection H as <- <-. exists current.
  repeat split; try assumption; reflexivity.
Qed.

Lemma supertrendBar_later (i : Z) (results : list SupertrendResult)
    (r : SupertrendResult) (b : Branch) :
  atrPeriod config - 1 < i ->
  supertrendBar ohlcData atrValues config i results = Return (r, b) ->
  exists current previousBar previousResult,
    JS.index ohlcData i = Some current /\
    JS.index ohlcData (i - 1) = Some previousBar /\
    JS.index results (JS.length results - 1) = Some previousResult /\
    atr r = JS.toNumber (JS.index atrValues (i - (atrPeriod config - 1))) /\
    LaterView config current previousBar previousResult r b.
Proof.
  unfold supertrendBar. intros Hi H.
  apply bind_Return in H. destruct H as (current & Hc & H). apply deref_Return in Hc.
  destruct (Z.ltb_spec (atrPeriod config - 1) i) as [_ | ?]; [| lia].
  destruct (Z.eqb_spec i (atrPeriod config - 1)) as [? | _]; [lia |].
  apply bind_Return in H. destruct H as (bands & Hb & H).
  apply bind_Return in Hb. destruct Hb as (previousBar & Hp & Hb). apply deref_Return in Hp.
  apply bind_Return in Hb. destruct Hb as (previousResult & Hr & Hb). apply deref_Return in Hr.
  injection Hb as <-. rewrite Hr in H. simpl in H.
  destruct (decide _ _ _ _ _) as [[v d] s] eqn:D. simpl in H.
  injection H as <- <-. exists current, previousBar, previousResult.
  repeat split; try assumption; try reflexivity. simpl. now rewrite <- D.
Qed.

Lemma supertrendLoop_inv (n : nat) :
  forall (i : Z) (results : list SupertrendResult) (trace : list Branch)
         (out : list SupertrendResult) (tr : list Branch),
    supertrendLoop n ohlcData atrValues config i results trace = Return (out, tr) ->
    List.length trace = List.length results ->
    List.length out = (List.length results + n)%nat /\
    List.length tr = List.length out /\
    firstn (List.length results) out = results /\
    firstn (List.length trace) tr = trace /\
    forall j, (j < n)%nat ->
      exists r b,
        nth_error out (List.length results + j) = Some r /\
        nth_error tr (List.length results + j) = Some b /\
        supertrendBar ohlcData atrValues config (i + Z.of_nat j)
          (firstn (List.length results + j) out) = Return (r, b).
Proof.
  induction n as [| n IH]; intros i results trace out tr H L.
  - simpl in H. injection H as <- <-. rewrite Nat.add_0_r, !firstn_all.
    repeat split; auto. intros j Hj. lia.
  - simpl in H. apply bind_Return in H. destruct H as ([r0 b0] & Hs & H). simpl in H.
    apply IH in H; [| rewrite !length_app; simpl; lia].
    rewrite !length_app in H. simpl in H.
    destruct H as (Ho & Ht & Hf & Hg & Hj).
    apply firstn_snoc_prefix in Hf. destruct Hf as [Hf Hn].
    apply firstn_snoc_prefix in Hg. destruct Hg as [Hg Hm].
    repeat split; [lia | assumption | assumption | assumption |].
    intros [| j] Hlt.
    + exists r0, b0. rewrite Nat.add_0_r, Z.add_0_r, Hf.
      rewrite <- L at 2. auto.
    + destruct (Hj j) as (r & b & H1 & H2 & H3); [lia |].
      exists r, b.
      replace (List.length results + S j)%nat with (List.length results + 1 + j)%nat by lia.
      replace (i + Z.of_nat (S j)) with (i + 1 + Z.of_nat j) by lia.
      auto.
Qed.

End MainLoop.

(** ** The ATR sequence *)

Lemma trueRangesFrom_length (ohlcData : list OHLCData) :
  forall previous, List.length (trueRangesFrom previous ohlcData) = List.length ohlcData.
Proof. induction ohlcData as [| c rest IH]; intro p; simpl; auto. Qed.

Lemma smoothLoop_length (n : nat) :
  forall i period trs previousATR,
    List.length (smoothLoop n i period trs previousATR) = n.
Proof. induction n as [| n IH]; intros; simpl; auto. Qed.

Lemma calculateATR_Return (ohlcData : list OHLCData) (period : Z) (atrValues : list float) :
  calculateATR ohlcData period = Return atrValues ->
  period <= JS.length ohlcData /\
  JS.length atrValues = JS.length ohlcData - period + 1.
Proof.
  unfold calculateATR. destruct (Z.ltb_spec (JS.length ohlcData) period) as [H | H];
    [discriminate |].
  intro E. injection E as <-. split; [assumption |].
  unfold JS.length in *. simpl. rewrite smoothLoop_length.
  unfold trueRanges. rewrite trueRangesFrom_length. lia.
Qed.

Lemma calculateATR_total (ohlcData : list OHLCData) (period : Z) :
  period <= JS.length ohlcData ->
  exists atrValues, calculateATR ohlcData period = Return atrValues.
Proof.
  intro H. unfold calculateATR.
  destruct (Z.ltb_spec (JS.length ohlcData) period); [lia | eauto].
Qed.

Lemma trueRangesFrom_nth (ohlcData : list OHLCData) :
  forall previous i,
    nth_error (trueRangesFrom previous ohlcData) i =
    match i with
    | O =>
        match nth_error ohlcData 0 with
        | Some bar => Some (calculateTrueRange bar previous)
        | None => None
        end
    | S j =>
        match nth_error ohlcData (S j), nth_error ohlcData j with
        | Some bar, Some p => Some (calculateTrueRange bar (Some p))
        | _, _ => None
        end
    end.
Proof.
  induction ohlcData as [| c rest IH]; intros previous [| j]; simpl; try reflexivity.
  rewrite IH. destruct j as [| j]; simpl.
  - destruct rest; reflexivity.
  - destruct (nth_error rest (S j)) eqn:E; [reflexivity |].
    destruct (nth_error rest j); reflexivity.
Qed.

Lemma trueRanges_spec (ohlcData : list OHLCData) (i : nat) :
  nth_error (trueRanges ohlcData) i = specTrueRange ohlcData i.
Proof.
  unfold trueRanges. rewrite trueRangesFrom_nth. destruct i; reflexivity.
Qed.

Lemma sumLoop_fold (trs : list float) (n : nat) :
  forall (i : nat) (sum : float),
    (i + n <= List.length trs)%nat ->
    sumLoop n (Z.of_nat i) trs sum = fold_left PrimFloat.add (firstn n (skipn i trs)) sum.
Proof.
  induction n as [| n IH]; intros i sum H; simpl; [reflexivity |].
  rewrite index_of_nat.
  destruct (nth_error trs i) as [x |] eqn:E;
    [| apply nth_error_None in E; lia].
  replace (Z.of_nat i + 1) with (Z.of_nat (S i)) by lia.
  rewrite IH by lia.
  assert (S : skipn i trs = x :: skipn (S i) trs).
  { clear - E. revert i E. induction trs as [| y trs IHt]; intros [| i] E; simpl in *;
      try discriminate.
    - congruence.
    - now apply IHt. }
  rewrite S. reflexivity.
Qed.

Lemma smoothLoop_nth (period : Z) (trs : list float) (n : nat) :
  forall (i : Z) (first : float) (j : nat),
    (j < n)%nat ->
    exists previousATR,
      nth_error (first :: smoothLoop n i period trs first) j = Some previousATR /\
      nth_error (first :: smoothLoop n i period trs first) (S j) =
        Some (wilder period previousATR (JS.toNumber (JS.index trs (i + Z.of_nat j)))).
Proof.
  induction n as [| n IH]; intros i first j Hj; [lia |].
  destruct j as [| j].
  - exists first. rewrite Z.add_0_r. split; reflexivity.
  - destruct (IH (i + 1) (wilder period first (JS.toNumber (JS.index trs i))) j)
      as (p & H1 & H2); [lia |].
    exists p. replace (i + Z.of_nat (S j)) with (i + 1 + Z.of_nat j) by lia.
    split; [exact H1 | exact H2].
Qed.

(** ** The result sequence, bar by bar *)

(** Everything the main loop establishes about a successful run: the
    period is positive, one result and one trace entry per bar from index
    [atrPeriod - 1] on, each carrying the ATR value of the same position,
    the first one built from its bar alone and every later one from its bar,
    the previous bar and the previous result. *)
Lemma traced_view (ohlcData : list OHLCData) (config : SupertrendConfig)
    (results : list SupertrendResult) (trace : list Branch) :
  calculateSupertrendTraced ohlcData config = Return (results, trace) ->
  1 <= atrPeriod config /\
  atrPeriod config + 1 <= JS.length ohlcData /\
  JS.length results = JS.length ohlcData - atrPeriod config + 1 /\
  List.length trace = List.length results /\
  exists atrValues,
    calculateATR ohlcData (atrPeriod config) = Return atrValues /\
    JS.length atrValues = JS.length results /\
    (forall k r, nth_error results k = Some r -> nth_error atrValues k = Some (atr r)) /\
    (exists current r b,
        nth_error results 0 = Some r /\ nth_error trace 0 = Some b /\
        JS.index ohlcData (atrPeriod config - 1) = Some current /\
        FirstView config current r b) /\
    (forall k, (S k < List.length results)%nat ->
      exists current previousBar previousResult r b,
        nth_error results (S k) = Some r /\ nth_error trace (S k) = Some b /\
        nth_error results k = Some previousResult /\
        JS.index ohlcData (atrPeriod config - 1 + Z.of_nat (S k)) = Some current /\
        JS.index ohlcData (atrPeriod config - 1 + Z.of_nat k) = Some previousBar /\
        LaterView config current previousBar previousResult r b).
Proof.
  unfold calculateSupertrendTraced. intro H.
  destruct (Z.ltb_spec (JS.length ohlcData) (atrPeriod config + 1)) as [? | Hlen];
    [discriminate |].
  apply bind_Return in H. destruct H as (atrValues & Ha & H).
  pose proof (calculateATR_Return _ _ _ Ha) as [_ Hal].
  apply supertrendLoop_inv in H; [| reflexivity]. cbn [List.length Nat.add] in H.
  destruct H as (Ho & Ht & _ & _ & Hj).
  assert (Hn : (0 < Z.to_nat (JS.length ohlcData - (atrPeriod config - 1)))%nat) by lia.
  destruct (Hj 0%nat Hn) as (r0 & b0 & Hr0 & Hb0 & Hs0).
  rewrite Z.add_0_r in Hs0. apply supertrendBar_first in Hs0.
  destruct Hs0 as (c0 & Hc0 & Hatr0 & Hv0).
  pose proof (index_Some_range _ _ _ Hc0) as Hp.
  assert (Hlr : JS.length results = JS.length ohlcData - atrPeriod config + 1)
    by (unfold JS.length in *; lia).
  assert (Hatr : forall k r, nth_error results k = Some r ->
                             nth_error atrValues k = Some (atr r)).
  { intros k r Hk.
    assert (Hkn : (k < List.length results)%nat) by (apply nth_error_Some; congruence).
    destruct (index_in_range atrValues (Z.of_nat k)) as (a & Hak);
      [unfold JS.length in *; lia |].
    rewrite index_of_nat in Hak. rewrite Hak. f_equal.
    destruct k as [| k].
    - rewrite Hr0 in Hk. injection Hk as <-. rewrite Hatr0.
      change 0 with (Z.of_nat 0). rewrite index_of_nat, Hak. reflexivity.
    - destruct (Hj (S k)) as (r' & b' & Hr' & _ & Hs'); [lia |].
      rewrite Hk in Hr'. injection Hr' as <-.
      apply supertrendBar_later in Hs'; [| lia].
      destruct Hs' as (_ & _ & _ & _ & _ & _ & Hatr' & _).
      rewrite Hatr'.
      replace (atrPeriod config - 1 + Z.of_nat (S k) - (atrPeriod config - 1))
        with (Z.of_nat (S k)) by lia.
      rewrite index_of_nat, Hak. reflexivity. }
  repeat split; try lia; try assumption.
  exists atrValues. repeat split; try assumption; try lia.
  - exists c0, r0, b0. auto.
  - intros k Hk.
    destruct (Hj (S k)) as (r & b & Hr & Hb & Hs); [lia |].
    apply supertrendBar_later in Hs; [| lia].
    destruct Hs as (cur & pb & pr & Hcur & Hpb & Hpr & _ & Hv).
    rewrite index_last_firstn in Hpr by lia.
    replace (atrPeriod config - 1 + Z.of_nat (S k) - 1)
      with (atrPeriod config - 1 + Z.of_nat k) in Hpb by lia.
    exists cur, pb, pr, r, b. auto 10.
Qed.

Lemma calculateSupertrend_Return (ohlcData : list OHLCData) (config : SupertrendConfig)
    (results : list SupertrendResult) :
  calculateSupertrend ohlcData config = Return results <->
  exists trace, calculateSupertrendTraced ohlcData config = Return (results, trace).
Proof.
  unfold calculateSupertrend. split.
  - intro H. apply bind_Return in H. destruct H as ([rs tr] & H & E).
    simpl in E. injection E as <-. eauto.
  - intros (trace & ->). reflexivity.
Qed.

(** The same, read off a result sequence of [calculateSupertrend]. *)
Lemma results_first (ohlcData : list OHLCData) (config : SupertrendConfig)
    (results : list SupertrendResult) (r : SupertrendResult) :
  calculateSupertrend ohlcData config = Return results ->
  nth_error results 0 = Some r ->
  exists current b,
    JS.index ohlcData (atrPeriod config - 1) = Some current /\
    FirstView config current r b.
Proof.
  unfold calculateSupertrend. intros H Hr.
  destruct (calculateSupertrendTraced ohlcData config) as [[rs trace] |] eqn:E;
    [| discriminate].
  simpl in H. injection H as ->. apply traced_view in E.
  destruct E as (_ & _ & _ & _ & atrValues & _ & _ & _ & Hfirst & _).
  destruct Hfirst as (current & r0 & b & Hr0 & _ & Hc & V).
  assert (r0 = r) by congruence. subst. eauto.
Qed.

Lemma results_step (ohlcData : list OHLCData) (config : SupertrendConfig)
    (results : list SupertrendResult) (k : nat) (previous r : SupertrendResult) :
  calculateSupertrend ohlcData config = Return results ->
  nth_error results k = Some previous ->
  nth_error results (S k) = Some r ->
  exists current previousBar b,
    JS.index ohlcData (atrPeriod config - 1 + Z.of_nat (S k)) = Some current /\
    JS.index ohlcData (atrPeriod config - 1 + Z.of_nat k) = Some previousBar /\
    LaterView config current previousBar previous r b.
Proof.
  unfold calculateSupertrend. intros H Hp Hr.
  destruct (calculateSupertrendTraced ohlcData config) as [[rs trace] |] eqn:E;
    [| discriminate].
  simpl in H. injection H as ->. apply traced_view in E.
  destruct E as (_ & _ & _ & _ & atrValues & _ & _ & _ & _ & Hlater).
  assert (Hk : (S k < List.length results)%nat) by (apply nth_error_Some; congruence).
  destruct (Hlater k Hk) as (current & pb & pr & r' & b & Hr' & _ & Hpr & Hc & Hpb & V).
  assert (pr = previous) by congruence. assert (r' = r) by congruence. subst.
  exists current, pb, b. auto.
Qed.

(** ** Which runs return and which throw *)

Ltac split_decide :=
  repeat match goal with
         | |- context [decide ?b ?c ?h ?l ?u] =>
             destruct (decide b c h l u) as [[? ?] ?]
         end.

Section Outcomes.

Variable ohlcData : list OHLCData.
Variable atrValues : list float.
Variable config : SupertrendConfig.

Lemma supertrendBar_total (i : Z) (results : list SupertrendResult) :
  0 <= i < JS.length ohlcData ->
  atrPeriod config - 1 <= i ->
  (atrPeriod config - 1 < i -> 1 <= i /\ results <> []) ->
  exists step, supertrendBar ohlcData atrValues config i results = Return step.
Proof.
  intros Hi Hfrom Hprev. unfold supertrendBar.
  destruct (index_in_range ohlcData i Hi) as (current & ->). simpl.
  destruct (Z.ltb_spec (atrPeriod config - 1) i) as [Hlt | Hge].
  - destruct (Hprev Hlt) as [H1 Hne].
    destruct (index_in_range ohlcData (i - 1)) as (pb & ->); [lia |].
    destruct (index_in_range results (JS.length results - 1)) as (pr & ->).
    { unfold JS.length. destruct results; [congruence | cbn [List.length]; lia]. }
    simpl. destruct (Z.eqb_spec i (atrPeriod config - 1)); [lia |]. simpl.
    split_decide. eauto.
  - simpl. destruct (Z.eqb_spec i (atrPeriod config - 1)) as [_ | Hne]; [| lia].
    simpl. eauto.
Qed.

Lemma supertrendLoop_total (n : nat) :
  forall (i : Z) (results : list SupertrendResult) (trace : list Branch),
    0 <= atrPeriod config - 1 <= i ->
    i + Z.of_nat n <= JS.length ohlcData ->
    (atrPeriod config - 1 < i -> results <> []) ->
    exists out, supertrendLoop n ohlcData atrValues config i results trace = Return out.
Proof.
  induction n as [| n IH]; intros i results trace Hp Hn Hne; simpl; [eauto |].
  destruct (supertrendBar_total i results) as (step & ->).
  - lia.
  - lia.
  - intro Hlt. split; [lia | auto].
  - simpl. apply IH; [lia | lia |]. intros _. now destruct results.
Qed.

Lemma supertrendBar_Throw (i : Z) (results : list SupertrendResult) (e : exn) :
  supertrendBar ohlcData atrValues config i results = Throw e -> e = TypeError.
Proof.
  unfold supertrendBar.
  destruct (JS.index ohlcData i) as [current |]; simpl; [| congruence].
  destruct (atrPeriod config - 1 <? i).
  - destruct (JS.index ohlcData (i - 1)); simpl; [| congruence].
    destruct (JS.index results (JS.length results - 1)); simpl; [| congruence].
    destruct (i =? atrPeriod config - 1); simpl; split_decide; discriminate.
  - simpl. destruct (i =? atrPeriod config - 1); simpl.
    + discriminate.
    + destruct (JS.index results (JS.length results - 1)); simpl; [| congruence].
      split_decide. discriminate.
Qed.

Lemma supertrendLoop_Throw (n : nat) :
  forall (i : Z) (results : list SupertrendResult) (trace : list Branch) (e : exn),
    supertrendLoop n ohlcData atrValues config i results trace = Throw e -> e = TypeError.
Proof.
  induction n as [| n IH]; intros i results trace e; simpl; [discriminate |].
  destruct (supertrendBar ohlcData atrValues config i results) as [step | e'] eqn:E; simpl.
  - apply IH.
  - intro H. injection H as <-. eapply supertrendBar_Throw; eassumption.
Qed.

End Outcomes.

(** The three possible outcomes of [calculateSupertrend], by the length of
    the input and the sign of the period. *)
Lemma calculateSupertrendTraced_cases (ohlcData : list OHLCData) (config : SupertrendConfig) :
  (JS.length ohlcData < atrPeriod config + 1 /\
   calculateSupertrendTraced ohlcData config =
     Throw (InsufficientSupertrend (atrPeriod config + 1) (JS.length ohlcData))) \/
  (atrPeriod config + 1 <= JS.length ohlcData /\ atrPeriod config <= 0 /\
   calculateSupertrendTraced ohlcData config = Throw TypeError) \/
  (atrPeriod config + 1 <= JS.length ohlcData /\ 1 <= atrPeriod config /\
   exists out, calculateSupertrendTraced ohlcData config = Return out).
Proof.
  unfold calculateSupertrendTraced.
  destruct (Z.ltb_spec (JS.length ohlcData) (atrPeriod config + 1)) as [Hlt | Hge];
    [left; auto | right].
  destruct (calculateATR_total ohlcData (atrPeriod config)) as (atrValues & ->); [lia |].
  simpl. destruct (Z.le_gt_cases (atrPeriod config) 0) as [Hp | Hp].
  - left. repeat split; try assumption.
    destruct (Z.to_nat (JS.length ohlcData - (atrPeriod config - 1))) as [| n] eqn:En; [lia |].
    assert (E : JS.index ohlcData (atrPeriod config - 1) = None).
    { unfold JS.index. destruct (Z.ltb_spec (atrPeriod config - 1) 0); [reflexivity | lia]. }
    simpl. unfold supertrendBar. rewrite E. reflexivity.
  - right. repeat split; try lia.
    apply supertrendLoop_total; [lia | lia | lia].
Qed.

(** The outcome of [calculateSupertrend] in each of the three cases. *)
Lemma calculateSupertrend_outcomes (ohlcData : list OHLCData) (config : SupertrendConfig) :
  (JS.length ohlcData < atrPeriod config + 1 ->
   calculateSupertrend ohlcData config =
     Throw (InsufficientSupertrend (atrPeriod config + 1) (JS.length ohlcData))) /\
  (atrPeriod config + 1 <= JS.length ohlcData -> 1 <= atrPeriod config ->
   exists results,
     calculateSupertrend ohlcData config = Return results /\
     JS.length results = JS.length ohlcData - atrPeriod config + 1) /\
  (atrPeriod config + 1 <= JS.length ohlcData -> atrPeriod config <= 0 ->
   calculateSupertrend ohlcData config = Throw TypeError).
Proof.
  unfold calculateSupertrend.
  destruct (calculateSupertrendTraced_cases ohlcData config)
    as [[Hlt E] | [(Hge & Hp & E) | (Hge & Hp & [results trace] & E)]].
  - rewrite E. simpl. repeat split; try (intros; lia); auto.
  - rewrite E. simpl. repeat split; try (intros; lia); auto.
  - pose proof (traced_view _ _ _ _ E) as (_ & _ & Hl & _).
    rewrite E. simpl. repeat split; try (intros; lia).
    intros _ _. exists results. auto.
Qed.

(** The outcome of [getLatestSupertrendSignal] in the same cases. *)
Lemma getLatest_outcomes (ohlcData : list OHLCData) (config : option SupertrendConfig) :
  (forall e, calculateSupertrend ohlcData (orDefault config) = Throw e ->
             getLatestSupertrendSignal ohlcData config = None) /\
  (JS.length ohlcData < atrPeriod (orDefault config) + 1 ->
   getLatestSupertrendSignal ohlcData config = None) /\
  (atrPeriod (orDefault config) + 1 <= JS.length ohlcData ->
   1 <= atrPeriod (orDefault config) ->
   exists results r,
     calculateSupertrend ohlcData (orDefault config) = Return results /\
     results <> [] /\
     JS.index results (JS.length results - 1) = Some r /\
     getLatestSupertrendSignal ohlcData config = Some r).
Proof.
  pose proof (calculateSupertrend_outcomes ohlcData (orDefault config))
    as (Hshort & Hlong & _).
  unfold getLatestSupertrendSignal. repeat split.
  - intros e ->. reflexivity.
  - intro H. rewrite (Hshort H). reflexivity.
  - intros Hge Hp. destruct (Hlong Hge Hp) as (results & E & Hl).
    destruct (index_in_range results (JS.length results - 1)) as (r & Hr); [lia |].
    exists results, r. rewrite E.
    destruct (Z.ltb_spec 0 (JS.length results)); [| lia].
    repeat split; auto. intros ->. unfold JS.length in *. cbn [List.length] in *. lia.
Qed.

(** ** The ratchet and the direction decision *)

(** The ratchet between two consecutive results: unless the earlier close
    is already below the earlier lower band, the lower band is kept or
    raised; unless the earlier close is already above the earlier upper
    band, the upper band is kept or lowered. *)
Lemma ratchet_step (config : SupertrendConfig) (current previousBar : OHLCData)
    (previous r : SupertrendResult) (b : Branch) :
  LaterView config current previousBar previous r b ->
  ((close previousBar < basicLowerBand previous)%js = false ->
   basicLowerBand r = basicLowerBand previous \/
   (basicLowerBand previous < basicLowerBand r)%js = true) /\
  ((close previousBar > basicUpperBand previous)%js = false ->
   basicUpperBand r = basicUpperBand previous \/
   (basicUpperBand r < basicUpperBand previous)%js = true).
Proof.
  intros (_ & Hu & Hl & _). rewrite Hu, Hl. unfold finalUpper, finalLower. split; intros ->.
  - rewrite orb_false_r.
    destruct (basicLowerOf config current (atr r) > basicLowerBand previous)%js eqn:E; auto.
  - rewrite orb_false_r.
    destruct (basicUpperOf config current (atr r) < basicUpperBand previous)%js eqn:E; auto.
Qed.

(** Kept or raised is [<=], and kept or lowered is [>=], unless the band is
    NaN. *)
Lemma kept_or_raised_leb (a b : float) :
  is_nan a = false -> b = a \/ (a < b)%js = true -> (a <= b)%js = true.
Proof.
  intros N [-> | H]; [now apply leb_refl | now apply ltb_leb].
Qed.

Lemma kept_or_lowered_geb (a b : float) :
  is_nan a = false -> b = a \/ (b < a)%js = true -> (a >= b)%js = true.
Proof.
  unfold JS.geb. intros N [-> | H]; [now apply leb_refl | now apply ltb_leb].
Qed.

(** A bar that continues the direction of the bar before it closes on the
    trend's side of the band concerned. *)
Lemma continuing_close (config : SupertrendConfig) (current previousBar : OHLCData)
    (previous r : SupertrendResult) (b : Branch) :
  LaterView config current previousBar previous r b ->
  (direction previous = up -> direction r = up ->
   (close current < basicLowerBand r)%js = false) /\
  (direction previous = down -> direction r = down ->
   (close current > basicUpperBand r)%js = false).
Proof.
  intros (Hb & _ & _ & Hd). unfold directionBranch in Hb. split; intros Hp Hr.
  - rewrite Hp in Hb. simpl in Hb.
    destruct (close current > basicLowerBand r)%js eqn:G.
    + now apply gtb_not_ltb.
    + destruct (close current <= basicLowerBand r)%js eqn:L.
      * subst b. simpl in Hd. congruence.
      * destruct (close current < basicLowerBand r)%js eqn:E; [| reflexivity].
        apply ltb_leb in E. congruence.
  - rewrite Hp in Hb. simpl in Hb.
    destruct (close current < basicUpperBand r)%js eqn:G.
    + unfold JS.gtb. now apply ltb_asym.
    + destruct (close current >= basicUpperBand r)%js eqn:L.
      * subst b. simpl in Hd. congruence.
      * unfold JS.gtb, JS.geb in *.
        destruct (PrimFloat.ltb (basicUpperBand r) (close current)) eqn:E; [| reflexivity].
        apply ltb_leb in E. unfold JS.leb in E. congruence.
Qed.

(** A first eligible bar whose direction is [up] closes above its lower band. *)
Lemma first_up_close (config : SupertrendConfig) (current : OHLCData)
    (r : SupertrendResult) (b : Branch) :
  FirstView config current r b -> direction r = up ->
  (close current < basicLowerBand r)%js = false.
Proof.
  intros (_ & _ & _ & Hd) Hr. simpl in Hd.
  destruct (close current <= basicLowerBand r)%js eqn:L.
  - simpl in Hd. congruence.
  - destruct (close current < basicLowerBand r)%js eqn:E; [| reflexivity].
    apply ltb_leb in E. congruence.
Qed.

Lemma holding_fourCases (previousDirection : Direction) (c fl fu : float) :
  holding (fourCases previousDirection c fl fu) =
  match directionBranch previousDirection c fl fu with
  | Fallback => 0%nat
  | _ => 1%nat
  end.
Proof.
  unfold holding, fourCases, directionBranch.
  destruct previousDirection; simpl.
  - destruct (c > fl)%js eqn:G.
    + rewrite (gtb_leb_excl _ _ G). reflexivity.
    + destruct (c <= fl)%js; reflexivity.
  - destruct (c < fu)%js eqn:G.
    + assert (E : (c >= fu)%js = false) by (apply (gtb_leb_excl fu c); exact G).
      rewrite E. reflexivity.
    + destruct (c >= fu)%js; reflexivity.
Qed.

Lemma fallback_iff_nan (previous r : SupertrendResult) (c : float) :
  directionBranch (direction previous) c (basicLowerBand r) (basicUpperBand r) = Fallback <->
  is_nan c || is_nan (comparedBand (direction previous) r) = true.
Proof.
  unfold directionBranch, comparedBand. destruct (direction previous); simpl.
  - destruct (is_nan c || is_nan (basicLowerBand r)) eqn:N.
    + destruct (nan_unordered _ _ N) as [_ L].
      destruct (nan_unordered_gt _ _ N) as [G _]. rewrite G, L. tauto.
    + destruct (ordered_or_nan _ _ N) as [G _]. rewrite G.
      destruct (c <= basicLowerBand r)%js; simpl; split; discriminate.
  - destruct (is_nan c || is_nan (basicUpperBand r)) eqn:N.
    + destruct (nan_unordered _ _ N) as [L _].
      destruct (nan_unordered_gt _ _ N) as [_ G]. rewrite G, L. tauto.
    + destruct (ordered_or_nan _ _ N) as [_ L]. rewrite L.
      destruct (c >= basicUpperBand r)%js; simpl; split; discriminate.
Qed.

Lemma directionBranch_previous (d : Direction) (c fl fu : float) :
  match directionBranch d c fl fu with
  | StayUp | FlipDown => d = up
  | StayDown | FlipUp => d = down
  | Fallback => True
  | FirstBar => False
  end.
Proof.
  unfold directionBranch. destruct d; simpl.
  - destruct (c > fl)%js; [reflexivity |]. destruct (c <= fl)%js; [reflexivity | exact I].
  - destruct (c < fu)%js; [reflexivity |]. destruct (c >= fu)%js; [reflexivity | exact I].
Qed.

(** ** The orchestrator and the validation *)

Lemma slice_window (timeframe : Timeframe) (ohlcData : list OHLCData) :
  1 <= JS.length ohlcData ->
  slice ohlcData (- dataLength timeframe ohlcData) = window timeframe ohlcData /\
  JS.length (window timeframe ohlcData) = dataLength timeframe ohlcData.
Proof.
  intro H. unfold slice, window, lastBars, JS.length in *.
  assert (D : 1 <= dataLength timeframe ohlcData <= Z.of_nat (List.length ohlcData))
    by (unfold JS.length; destruct timeframe; simpl; unfold JS.length; lia).
  destruct (Z.ltb_spec (- dataLength timeframe ohlcData) 0) as [_ | ?]; [| lia].
  rewrite Z.max_l by lia.
  destruct timeframe; simpl in *; unfold JS.length in *;
    rewrite ?length_skipn;
    try (split; [f_equal; lia | lia]).
  replace (Z.to_nat (Z.of_nat (List.length ohlcData) + - Z.of_nat (List.length ohlcData)))
    with 0%nat by lia.
  split; reflexivity.
Qed.

Lemma Timeframe_eqb_eq (a b : Timeframe) : Timeframe_eqb a b = true <-> a = b.
Proof. destruct a, b; simpl; split; congruence. Qed.

(** What one pass of the [forEach] body leaves in the entry of [t]. *)
Lemma timeframeStep_entry (ohlcData : list OHLCData) (result : TimeframeResults)
    (timeframe t : Timeframe) :
  timeframeStep ohlcData result timeframe t =
  if Timeframe_eqb t timeframe then entry ohlcData t (result t) else result t.
Proof.
  unfold timeframeStep, setResult, entry.
  destruct (Timeframe_eqb t timeframe) eqn:E.
  - apply Timeframe_eqb_eq in E. subst. destruct (_ >=? _); [| reflexivity].
    assert (R : Timeframe_eqb timeframe timeframe = true) by now apply Timeframe_eqb_eq.
    cbv beta. now rewrite R.
  - destruct (_ >=? _); [cbv beta; now rewrite E | reflexivity].
Qed.

Lemma forEach_entry (ohlcData : list OHLCData) (t : Timeframe) :
  fold_left (timeframeStep ohlcData) timeframes noResults t = entry ohlcData t None.
Proof.
  unfold timeframes. cbn [fold_left]. rewrite !timeframeStep_entry.
  destruct t; reflexivity.
Qed.

Lemma validateOHLCData_false (ohlcData : list OHLCData) :
  validateOHLCData ohlcData = false <->
  exists candle, In candle ohlcData /\ validCandle candle = false.
Proof.
  unfold validateOHLCData. induction ohlcData as [| c rest IH]; simpl.
  - split; [discriminate | intros (x & [] & _)].
  - rewrite andb_false_iff, IH. split.
    + intros [H | (x & Hx & Hv)]; [exists c; auto | exists x; auto].
    + intros (x & [<- | Hx] & Hv); [auto | right; eauto].
Qed.

(** ** Rounding of binary64 products

    [binary_round_aux], which rounds the exact product of two mantissas, is
    described by integer arithmetic; from that, multiplying a non-negative
    number by 1.01 does not decrease it and multiplying it by 0.99 does not
    increase it. *)

Lemma shr_1_m (mrs : shr_record) : shr_m (shr_1 mrs) = Z.quot2 (shr_m mrs).
Proof. destruct mrs as [m r s]. destruct m as [| [p | p |] | [p | p |]]; reflexivity. Qed.

Lemma quot2_div (m : Z) : 0 <= m -> Z.quot2 m = m / 2.
Proof. intro H. rewrite Zquot2_quot. now apply Z.quot_div_nonneg. Qed.

Lemma iter_shr_1_m (n : positive) :
  forall mrs, 0 <= shr_m mrs ->
    shr_m (iter_pos shr_1 n mrs) = shr_m mrs / 2 ^ Zpos n.
Proof.
  induction n as [n IH | n IH |]; intros mrs H; simpl iter_pos.
  - assert (P : 0 < 2 ^ Zpos n) by (apply Z.pow_pos_nonneg; lia).
    assert (H1 : 0 <= shr_m (shr_1 mrs)).
    { rewrite shr_1_m, quot2_div by assumption. apply Z.div_pos; lia. }
    assert (H2 : 0 <= shr_m (iter_pos shr_1 n (shr_1 mrs))).
    { rewrite IH by assumption. apply Z.div_pos; assumption. }
    rewrite IH, IH, shr_1_m, quot2_div by assumption.
    rewrite !Z.div_div by lia.
    f_equal. rewrite <- Z.pow_add_r, <- Z.pow_succ_r by lia. f_equal. lia.
  - assert (P : 0 < 2 ^ Zpos n) by (apply Z.pow_pos_nonneg; lia).
    assert (H2 : 0 <= shr_m (iter_pos shr_1 n mrs)).
    { rewrite IH by assumption. apply Z.div_pos; assumption. }
    rewrite IH, IH by assumption.
    rewrite Z.div_div by lia.
    f_equal. rewrite <- Z.pow_add_r by lia. f_equal. lia.
  - rewrite shr_1_m, quot2_div by assumption. reflexivity.
Qed.

Lemma fexp64_eq (e : Z) : fexp prec emax e = fexp64 e.
Proof. reflexivity. Qed.

(** The mantissa and exponent left by one [shr_fexp]. *)
Lemma shr_fexp_m (m e : Z) (l : location) :
  0 <= m ->
  let s := fexp64 (Zdigits2 m + e) - e in
  shr_m (fst (shr_fexp prec emax m e l)) = (if 0 <? s then m / 2 ^ s else m) /\
  snd (shr_fexp prec emax m e l) = e + Z.max s 0.
Proof.
  intros H s. unfold shr_fexp. rewrite fexp64_eq. fold s.
  assert (M : shr_m (shr_record_of_loc m l) = m) by (destruct l as [| []]; reflexivity).
  unfold shr. destruct s as [| p | p] eqn:E; simpl fst; simpl snd.
  - rewrite M. split; [reflexivity | lia].
  - rewrite iter_shr_1_m by (rewrite M; assumption). rewrite M.
    split; [reflexivity | lia].
  - rewrite M. split; [reflexivity | lia].
Qed.

Lemma round_nearest_even_bounds (m : Z) (l : location) :
  m <= round_nearest_even m l <= m + 1.
Proof.
  unfold round_nearest_even. destruct l as [| []]; try lia.
  destruct (Z.even m); lia.
Qed.

(** What [binary_round_aux] returns, in terms of integer arithmetic. *)
Lemma binary_round_aux_spec (sx : bool) (m e : Z) :
  0 <= m ->
  exists r,
    fst (shifted m e) <= r <= fst (shifted m e) + 1 /\
    binary_round_aux prec emax sx m e loc_Exact =
      rounded sx (fst (shifted r (snd (shifted m e))))
        (snd (shifted r (snd (shifted m e)))).
Proof.
  intro H. unfold binary_round_aux, rounded, shifted. cbn [fst snd].
  destruct (shr_fexp_m m e loc_Exact H) as [Hm He].
  destruct (shr_fexp prec emax m e loc_Exact) as [mrs1 e1] eqn:E1. cbn [fst snd] in Hm, He.
  set (r := round_nearest_even (shr_m mrs1) (loc_of_shr_record mrs1)).
  exists r.
  assert (Hr : shr_m mrs1 <= r <= shr_m mrs1 + 1) by apply round_nearest_even_bounds.
  assert (H1 : 0 <= shr_m mrs1).
  { rewrite Hm. destruct (Z.ltb_spec 0 (fexp64 (Zdigits2 m + e) - e)); [| assumption].
    apply Z.div_pos; [assumption |]. apply Z.pow_pos_nonneg; lia. }
  rewrite <- Hm, <- He. split; [assumption |].
  destruct (shr_fexp_m r e1 loc_Exact) as [Hm2 He2]; [lia |].
  destruct (shr_fexp prec emax r e1 loc_Exact) as [mrs2 e2] eqn:E2. cbn [fst snd] in Hm2, He2.
  rewrite <- Hm2, <- He2. reflexivity.
Qed.

Lemma digits2_pos_bounds (p : positive) :
  2 ^ (Zpos (digits2_pos p) - 1) <= Zpos p < 2 ^ Zpos (digits2_pos p).
Proof.
  induction p as [p IH | p IH |]; simpl digits2_pos.
  - rewrite Pos2Z.inj_succ.
    replace (Z.succ (Zpos (digits2_pos p)) - 1) with (Z.succ (Zpos (digits2_pos p) - 1)) by lia.
    rewrite !Z.pow_succ_r by lia. lia.
  - rewrite Pos2Z.inj_succ.
    replace (Z.succ (Zpos (digits2_pos p)) - 1) with (Z.succ (Zpos (digits2_pos p) - 1)) by lia.
    rewrite !Z.pow_succ_r by lia. lia.
  - simpl. lia.
Qed.

Lemma Zdigits2_gt (a k : Z) : 0 <= k -> 2 ^ k <= a -> k < Zdigits2 a.
Proof.
  intros Hk H. destruct a as [| p | p].
  - pose proof (Z.pow_pos_nonneg 2 k). lia.
  - simpl. destruct (digits2_pos_bounds p) as [_ U].
    destruct (Z.lt_ge_cases k (Zpos (digits2_pos p))) as [? | G]; [assumption |].
    pose proof (Z.pow_le_mono_r 2 (Zpos (digits2_pos p)) k). lia.
  - pose proof (Z.pow_pos_nonneg 2 k). lia.
Qed.

Lemma Zdigits2_le (a k : Z) : 0 <= k -> 0 <= a < 2 ^ k -> Zdigits2 a <= k.
Proof.
  intros Hk H. destruct a as [| p | p]; simpl; [lia | | lia].
  destruct (digits2_pos_bounds p) as [L _].
  destruct (Z.le_gt_cases (Zpos (digits2_pos p)) k) as [? | G]; [assumption |].
  pose proof (Z.pow_le_mono_r 2 k (Zpos (digits2_pos p) - 1)). lia.
Qed.

Lemma Zdigits2_lower (a : Z) : 0 < a -> 2 ^ (Zdigits2 a - 1) <= a.
Proof. destruct a as [| p | p]; try lia. intros _. apply digits2_pos_bounds. Qed.

Lemma Zdigits2_upper (a : Z) : 0 <= a -> a < 2 ^ Zdigits2 a.
Proof.
  destruct a as [| p | p]; try lia; intros _; [reflexivity |]. apply digits2_pos_bounds.
Qed.

(** A positive number keeps at least 53 bits, hence stays positive, when
    the shift is the one of a result above the subnormal range. *)
Lemma shifted_positive (a e : Z) :
  0 < a -> -1074 <= e -> 0 < fst (shifted a e).
Proof.
  intros Ha He. unfold shifted. cbn [fst]. set (s := fexp64 (Zdigits2 a + e) - e).
  destruct (Z.ltb_spec 0 s) as [Hs | Hs]; [| assumption].
  assert (E : s = Zdigits2 a - 53) by (unfold s, fexp64 in *; lia).
  pose proof (Zdigits2_lower a Ha) as L.
  assert (P : 0 < 2 ^ s) by (apply Z.pow_pos_nonneg; lia).
  assert (Q : 2 ^ s * 2 ^ 52 <= a).
  { rewrite <- Z.pow_add_r by lia. replace (s + 52) with (Zdigits2 a - 1) by lia. exact L. }
  pose proof (Z.div_le_lower_bound a (2 ^ s) (2 ^ 52) P Q) as R.
  change (2 ^ 52) with 4503599627370496 in R. lia.
Qed.

Lemma finite_leb_rounded (mx : positive) (ex m2 e2 : Z) :
  0 < m2 -> ex < e2 \/ (ex = e2 /\ Zpos mx <= m2) ->
  SFleb (S754_finite false mx ex) (rounded false m2 e2) = true.
Proof.
  intros Hm H. unfold rounded. destruct m2 as [| p | p]; try lia.
  destruct (e2 <=? emax - prec); [| reflexivity].
  unfold SFleb, SFcompare. destruct H as [H | [-> H]].
  - apply Z.compare_lt_iff in H. now rewrite H.
  - rewrite Z.compare_refl.
    change (Pos.compare_cont Eq mx p) with (Pos.compare mx p).
    destruct (Pos.compare_spec mx p); try reflexivity. lia.
Qed.

Lemma rounded_leb_finite (mx : positive) (ex m2 e2 : Z) :
  0 <= m2 -> e2 <= emax - prec -> e2 < ex \/ (e2 = ex /\ m2 <= Zpos mx) ->
  SFleb (rounded false m2 e2) (S754_finite false mx ex) = true.
Proof.
  intros Hm He H. unfold rounded. destruct m2 as [| p | p]; try lia; [reflexivity |].
  destruct (Z.leb_spec e2 (emax - prec)); [| lia].
  unfold SFleb, SFcompare. destruct H as [H | [-> H]].
  - apply Z.compare_lt_iff in H. now rewrite H.
  - rewrite Z.compare_refl.
    change (Pos.compare_cont Eq p mx) with (Pos.compare p mx).
    destruct (Pos.compare_spec p mx); try reflexivity. lia.
Qed.

Lemma bounded_facts (mx : positive) (ex : Z) :
  bounded prec emax mx ex = true ->
  fexp64 (Zpos (digits2_pos mx) + ex) = ex /\ ex <= 971.
Proof.
  unfold bounded, canonical_mantissa. rewrite andb_true_iff, fexp64_eq.
  intros [C B]. apply Z.eqb_eq in C. apply Z.leb_le in B.
  split; [assumption |]. change (emax - prec) with 971 in B. assumption.
Qed.

(** Multiplying a positive number by a constant of the shape [mc * 2^-52]
    with [mc >= 2^52], that is by a constant at least 1, does not decrease
    it. *)
Lemma mul_ge_one (mx mc : positive) (ex : Z) :
  bounded prec emax mx ex = true ->
  4503599627370496 <= Zpos mc ->
  SFleb (S754_finite false mx ex)
    (SFmul prec emax (S754_finite false mx ex) (S754_finite false mc (-52))) = true.
Proof.
  intros B Hc. apply bounded_facts in B. destruct B as [C B].
  cbn [SFmul xorb].
  destruct (binary_round_aux_spec false (Zpos (mx * mc)) (ex + -52)) as (r & Hr & ->);
    [lia |].
  set (M := Zpos (mx * mc)) in *. set (d := Zpos (digits2_pos mx)) in *.
  assert (HM : Zpos mx * 4503599627370496 <= M) by (unfold M; nia).
  destruct (digits2_pos_bounds mx) as [Dlo Dhi]. fold d in Dlo, Dhi.
  assert (HD : d + 51 < Zdigits2 M).
  { apply Zdigits2_gt; [lia |].
    replace (d + 51) with ((d - 1) + 52) by lia. rewrite Z.pow_add_r by lia.
    change (2 ^ 52) with 4503599627370496. nia. }
  unfold shifted in Hr at 1 2. cbn [fst snd] in Hr.
  remember (shifted M (ex + -52)) as sh eqn:Esh.
  unfold shifted in Esh. 
  set (s1 := fexp64 (Zdigits2 M + (ex + -52)) - (ex + -52)) in *.
  assert (Hs1 : 52 <= s1) by (unfold s1, fexp64 in *; lia).
  destruct (Z.ltb_spec 0 s1) as [_ | ?]; [| lia].
  subst sh. cbn [fst snd].
  rewrite Z.max_l by lia.
  set (e1 := ex + -52 + s1) in *.
  assert (He1 : ex <= e1 /\ -1074 <= e1) by (unfold e1, fexp64 in *; lia).
  assert (Hm1 : 0 < M / 2 ^ s1 /\ (e1 = ex -> Zpos mx <= M / 2 ^ s1)).
  { split.
    - pose proof (shifted_positive M (ex + -52)) as SP. unfold shifted in SP.
      cbn [fst] in SP. fold s1 in SP.
      destruct (Z.ltb_spec 0 s1); [| lia]. 
      destruct (Z.eq_dec s1 52) as [E52 | N52].
      + rewrite E52. change (2 ^ 52) with 4503599627370496.
        apply Z.lt_le_trans with (Zpos mx); [lia |].
        apply Z.div_le_lower_bound; lia.
      + (* the exponent rose: the result is in the normal range *)
        assert (E : s1 = Zdigits2 M - 53) by (unfold s1, fexp64 in *; lia).
        assert (HMpos : 0 < M) by (unfold M; lia).
        pose proof (Zdigits2_lower M HMpos) as L.
        assert (P : 0 < 2 ^ s1) by (apply Z.pow_pos_nonneg; lia).
        assert (Q : 2 ^ s1 * 2 ^ 52 <= M).
        { rewrite <- Z.pow_add_r by lia.
          replace (s1 + 52) with (Zdigits2 M - 1) by lia. exact L. }
        pose proof (Z.div_le_lower_bound M (2 ^ s1) (2 ^ 52) P Q) as R.
        change (2 ^ 52) with 4503599627370496 in R. lia.
    - intro E. assert (E52 : s1 = 52) by (unfold e1 in E; lia).
      rewrite E52. change (2 ^ 52) with 4503599627370496.
      apply Z.div_le_lower_bound; lia. }
  destruct Hm1 as [Hpos Hsame].
  assert (Hrpos : 0 < r) by lia.
  pose proof (shifted_positive r e1 Hrpos (proj2 He1)) as H2.
  apply finite_leb_rounded; [assumption |].
  unfold shifted in *. cbn [fst snd] in *.
  set (s2 := fexp64 (Zdigits2 r + e1) - e1) in *.
  destruct (Z.ltb_spec 0 s2) as [Hs2 | Hs2].
  - left. lia.
  - rewrite Z.max_r by lia.
    destruct (Z.eq_dec e1 ex) as [E | N]; [right | left; lia].
    split; [lia |]. specialize (Hsame E). lia.
Qed.

(** Multiplying a positive number by a constant of the shape [mc * 2^-53]
    with [2^52 <= mc < 2^53], that is by a constant in [1/2, 1), does not
    increase it. *)
Lemma mul_le_one (mx mc : positive) (ex : Z) :
  bounded prec emax mx ex = true ->
  4503599627370496 <= Zpos mc < 9007199254740992 ->
  SFleb (SFmul prec emax (S754_finite false mx ex) (S754_finite false mc (-53)))
    (S754_finite false mx ex) = true.
Proof.
  intros B Hc. apply bounded_facts in B. destruct B as [C B].
  cbn [SFmul xorb].
  destruct (binary_round_aux_spec false (Zpos (mx * mc)) (ex + -53)) as (r & Hr & ->);
    [lia |].
  set (M := Zpos (mx * mc)) in *. set (d := Zpos (digits2_pos mx)) in *.
  assert (HM : Zpos mx * 4503599627370496 <= M < Zpos mx * 9007199254740992)
    by (unfold M; nia).
  destruct (digits2_pos_bounds mx) as [Dlo Dhi]. fold d in Dlo, Dhi.
  assert (HD : d + 51 < Zdigits2 M <= d + 53).
  { split.
    - apply Zdigits2_gt; [lia |].
      replace (d + 51) with ((d - 1) + 52) by lia. rewrite Z.pow_add_r by lia.
      change (2 ^ 52) with 4503599627370496. nia.
    - apply Zdigits2_le; [lia |]. rewrite Z.pow_add_r by lia.
      change (2 ^ 53) with 9007199254740992. nia. }
  unfold shifted in Hr at 1 2. cbn [fst snd] in Hr.
  remember (shifted M (ex + -53)) as sh eqn:Esh.
  unfold shifted in Esh.
  set (s1 := fexp64 (Zdigits2 M + (ex + -53)) - (ex + -53)) in *.
  assert (Hs1 : 52 <= s1 <= 53) by (unfold s1, fexp64 in *; lia).
  destruct (Z.ltb_spec 0 s1) as [_ | ?]; [| lia].
  subst sh. cbn [fst snd].
  rewrite Z.max_l by lia.
  set (e1 := ex + -53 + s1) in *.
  assert (Hm1 : 0 <= M / 2 ^ s1)
    by (apply Z.div_pos; [lia | apply Z.pow_pos_nonneg; lia]).
  assert (F : 0 <= fst (shifted r e1) /\
              (snd (shifted r e1) < ex \/
               (snd (shifted r e1) = ex /\ fst (shifted r e1) <= Zpos mx))).
  { unfold shifted. cbn [fst snd].
    set (s2 := fexp64 (Zdigits2 r + e1) - e1).
    destruct (Z.eq_dec s1 53) as [E53 | N53].
    - (* same exponent: the mantissa is at most [mx] *)
      assert (Hlt : M / 2 ^ s1 < Zpos mx).
      { rewrite E53. change (2 ^ 53) with 9007199254740992.
        apply Z.div_lt_upper_bound; lia. }
      assert (Hd : Zdigits2 r <= d) by (apply Zdigits2_le; lia).
      assert (Hs2 : s2 <= 0) by (unfold s2, e1, fexp64 in *; lia).
      destruct (Z.ltb_spec 0 s2); [lia |].
      rewrite Z.max_r by lia. unfold e1. lia.
    - (* one exponent below, unless rounding carried into the next binade *)
      assert (E52 : s1 = 52) by lia.
      assert (E : e1 = ex - 1) by (unfold e1; lia).
      assert (D105 : Zdigits2 M <= 105 /\ d = 53) by (unfold s1, fexp64 in *; lia).
      destruct D105 as [D105 D53].
      pose proof (Zdigits2_upper M) as U.
      pose proof (Z.pow_le_mono_r 2 (Zdigits2 M) 105) as Mono.
      change (2 ^ 105) with (4503599627370496 * 9007199254740992) in Mono.
      rewrite D53 in Dlo. change (2 ^ (53 - 1)) with 4503599627370496 in Dlo.
      assert (Hb : 4503599627370496 <= M / 2 ^ s1 < 9007199254740992).
      { rewrite E52. change (2 ^ 52) with 4503599627370496. split.
        - apply Z.div_le_lower_bound; [lia | nia].
        - apply Z.div_lt_upper_bound; lia. }
      destruct (Z.eq_dec r 9007199254740992) as [Er | Nr].
      + subst r. unfold s2. rewrite E. change (Zdigits2 9007199254740992) with 54.
        unfold fexp64 in *.
        replace (Z.max (54 + (ex - 1) - 53) (-1074) - (ex - 1)) with 1 by lia.
        change (0 <? 1) with true. cbv iota.
        change (9007199254740992 / 2 ^ 1) with 4503599627370496. lia.
      + assert (Hd : Zdigits2 r <= 53).
        { apply Zdigits2_le; [lia |]. change (2 ^ 53) with 9007199254740992. lia. }
        assert (Hs2 : s2 <= 0) by (unfold s2, fexp64 in *; lia).
        destruct (Z.ltb_spec 0 s2); [lia |].
        rewrite Z.max_r by lia. lia. }
  destruct F as [F0 F1].
  apply rounded_leb_finite; [assumption | | assumption].
  change (emax - prec) with 971. lia.
Qed.

Lemma nonnegative_cases (p : float) :
  (p >= 0)%js = true ->
  (exists s, Prim2SF p = S754_zero s) \/
  Prim2SF p = S754_infinity false \/
  exists m e, Prim2SF p = S754_finite false m e /\ bounded prec emax m e = true.
Proof.
  unfold JS.geb. rewrite leb_spec. pose proof (Prim2SF_valid p) as V.
  change (Prim2SF 0) with (S754_zero false).
  destruct (Prim2SF p) as [s | s | | s m e]; unfold SFleb; simpl; intro H.
  - left. eauto.
  - right. left. destruct s; [discriminate | reflexivity].
  - discriminate.
  - right. right. destruct s; [discriminate |]. exists m, e. auto.
Qed.

Lemma times_101 (p : float) : (p >= 0)%js = true -> (p <= p * 1.01)%js = true.
Proof.
  intro H. unfold JS.leb. rewrite leb_spec, mul_spec.
  change (Prim2SF 1.01) with (S754_finite false 4548635623644201 (-52)).
  destruct (nonnegative_cases p H) as [(s & ->) | [-> | (m & e & -> & B)]].
  - destruct s; reflexivity.
  - reflexivity.
  - apply mul_ge_one; [assumption | lia].
Qed.

Lemma times_099 (p : float) : (p >= 0)%js = true -> (p * 0.99 <= p)%js = true.
Proof.
  intro H. unfold JS.leb. rewrite leb_spec, mul_spec.
  change (Prim2SF 0.99) with (S754_finite false 8917127262193582 (-53)).
  destruct (nonnegative_cases p H) as [(s & ->) | [-> | (m & e & -> & B)]].
  - destruct s; reflexivity.
  - reflexivity.
  - apply mul_le_one; [assumption | lia].
Qed.

Lemma converted_candle_valid (price : float) (t : string) :
  (price >= 0)%js = true ->
  validCandle {| open := price; high := (price * 1.01)%js; low := (price * 0.99)%js;
                 close := price; volume := 1000000%float; time := t |} = true.
Proof.
  intro H. pose proof (times_101 price H) as U. pose proof (times_099 price H) as L.
  pose proof (leb_trans _ _ _ L U) as LU.
  unfold validCandle, JS.geb, JS.leb in *. cbn [open high low close volume].
  rewrite U, L, LU. reflexivity.
Qed.

Lemma convertFrom_valid (today : Z -> string) (dates : option (list string))
    (prices : list float) :
  forall index,
    (forall price, In price prices -> (price >= 0)%js = true) ->
    validateOHLCData (convertFrom today index prices dates) = true.
Proof.
  unfold validateOHLCData.
  induction prices as [| price rest IH]; intros index H; [reflexivity |].
  cbn [convertFrom forallb]. rewrite converted_candle_valid by (apply H; now left).
  apply IH. intros q Hq. apply H. now right.
Qed.

Lemma convertFrom_fields (today : Z -> string) (dates : option (list string))
    (prices : list float) :
  forall index,
    map (fun b => (open b, high b, low b, close b, volume b))
      (convertFrom today index prices dates) =
    map (fun price => (price, (price * 1.01)%js, (price * 0.99)%js, price, 1000000%float))
      prices.
Proof.
  induction prices as [| price rest IH]; intro index; [reflexivity |].
  cbn [convertFrom map open high low close volume]. now rewrite IH.
Qed.

(** * The claims *)

(** ** C1: the band ratchet rule *)

(** C1.  In every result sequence returned by [calculateSupertrend], the
    bands stored for the first eligible bar are its basic bands
    [hl2 + factor * atr] and [hl2 - factor * atr]; for every later bar the
    stored upper band is the basic upper band if that is below the previous
    stored upper band or the previous close is above the previous stored
    upper band, and the previous stored upper band otherwise; the stored
    lower band is the basic lower band if that is above the previous stored
    lower band or the previous close is below it, and the previous stored
    lower band otherwise.  The ATR value used is the one at the same position
    of the ATR sequence.  Such a result sequence exists whenever the input has
    at least [atrPeriod + 1] bars and [atrPeriod] is at least 1. *)
Theorem band_ratchet_rule (ohlcData : list OHLCData) (config : SupertrendConfig) :
  (atrPeriod config + 1 <= JS.length ohlcData -> 1 <= atrPeriod config ->
   exists results, calculateSupertrend ohlcData config = Return results) /\
  forall results,
  calculateSupertrend ohlcData config = Return results ->
  exists atrValues,
    calculateATR ohlcData (atrPeriod config) = Return atrValues /\
    (exists current r,
        JS.index ohlcData (atrPeriod config - 1) = Some current /\
        nth_error results 0 = Some r /\
        nth_error atrValues 0 = Some (atr r) /\
        basicUpperBand r = (hl2Of current + (factor config * atr r))%js /\
        basicLowerBand r = (hl2Of current - (factor config * atr r))%js) /\
    (forall k, (S k < List.length results)%nat ->
      exists current previousBar previous r,
        JS.index ohlcData (atrPeriod config - 1 + Z.of_nat (S k)) = Some current /\
        JS.index ohlcData (atrPeriod config - 1 + Z.of_nat k) = Some previousBar /\
        nth_error results k = Some previous /\
        nth_error results (S k) = Some r /\
        nth_error atrValues (S k) = Some (atr r) /\
        let basicUpper := (hl2Of current + (factor config * atr r))%js in
        let basicLower := (hl2Of current - (factor config * atr r))%js in
        basicUpperBand r =
          (if (basicUpper < basicUpperBand previous)%js
              || (close previousBar > basicUpperBand previous)%js
           then basicUpper else basicUpperBand previous) /\
        basicLowerBand r =
          (if (basicLower > basicLowerBand previous)%js
              || (close previousBar < basicLowerBand previous)%js
           then basicLower else basicLowerBand previous)).
Proof.
  split.
  { intros Hlen Hp.
    destruct (proj1 (proj2 (calculateSupertrend_outcomes ohlcData config)) Hlen Hp)
      as (results & E & _).
    eauto. }
  intros results H. apply calculateSupertrend_Return in H. destruct H as (trace & H).
  apply traced_view in H.
  destruct H as (_ & _ & _ & _ & atrValues & Ha & _ & Hatr & Hfirst & Hlater).
  exists atrValues. split; [assumption |]. split.
  - destruct Hfirst as (current & r & b & Hr & _ & Hc & _ & Hu & Hl & _).
    exists current, r. auto using Hatr.
  - intros k Hk.
    destruct (Hlater k Hk) as (cur & pb & pr & r & b & Hr & _ & Hpr & Hc & Hpb & _ & Hu & Hl & _).
    exists cur, pb, pr, r. cbv zeta. auto 10 using Hatr.
Qed.

(** The rule at work on three quiet bars. *)
Lemma band_ratchet_rule_witness :
  exists results atrValues,
    calculateSupertrend Sample.quiet Sample.period1 = Return results /\
    calculateATR Sample.quiet 1 = Return atrValues /\
    List.length results = 3%nat.
Proof.
  eexists.
  assert (E : calculateSupertrend Sample.quiet Sample.period1 = Return _)
    by (vm_compute; reflexivity).
  destruct (proj2 (band_ratchet_rule Sample.quiet Sample.period1) _ E)
    as (atrValues & Ha & _).
  exists atrValues. split; [exact E |]. split; [exact Ha | reflexivity].
Defined.

(** ** C2: monotonicity of the ratchet *)

(** C2, as amended.  Between two consecutive results the stored lower band
    is kept or raised whenever the earlier bar's close is not below its
    stored lower band, and the stored upper band is kept or lowered whenever
    the earlier bar's close is not above its stored upper band.  This is the
    case inside a run, from every bar that continues the direction of the bar
    before it: the lower band never falls from the second bar of an [up] run
    on (nor from a first eligible bar that is [up]), the upper band never
    rises from the second bar of a [down] run on.  Kept or raised is stated
    as: the new band equals the old one or is strictly above it (for the
    upper band: equals it or is strictly below it), which also covers a band
    that is NaN; for a band that is not NaN it gives [<=]. *)
Theorem ratchet_within_runs (ohlcData : list OHLCData) (config : SupertrendConfig)
    (results : list SupertrendResult) :
  calculateSupertrend ohlcData config = Return results ->
  (forall k bar r next,
      JS.index ohlcData (atrPeriod config - 1 + Z.of_nat k) = Some bar ->
      nth_error results k = Some r ->
      nth_error results (S k) = Some next ->
      ((close bar < basicLowerBand r)%js = false ->
       basicLowerBand next = basicLowerBand r \/
       (basicLowerBand r < basicLowerBand next)%js = true) /\
      ((close bar > basicUpperBand r)%js = false ->
       basicUpperBand next = basicUpperBand r \/
       (basicUpperBand next < basicUpperBand r)%js = true)) /\
  (forall k previous r next,
      nth_error results k = Some previous ->
      nth_error results (S k) = Some r ->
      nth_error results (S (S k)) = Some next ->
      (direction previous = up -> direction r = up ->
       basicLowerBand next = basicLowerBand r \/
       (basicLowerBand r < basicLowerBand next)%js = true) /\
      (direction previous = down -> direction r = down ->
       basicUpperBand next = basicUpperBand r \/
       (basicUpperBand next < basicUpperBand r)%js = true)) /\
  (forall r next,
      nth_error results 0 = Some r ->
      nth_error results 1 = Some next ->
      direction r = up ->
      basicLowerBand next = basicLowerBand r \/
      (basicLowerBand r < basicLowerBand next)%js = true).
Proof.
  intro H. split; [| split].
  - intros k bar r next Hbar Hr Hnext.
    destruct (results_step _ _ _ _ _ _ H Hr Hnext) as (cur & pb & b & _ & Hpb & V).
    assert (pb = bar) by congruence. subst.
    exact (ratchet_step _ _ _ _ _ _ V).
  - intros k previous r next Hprevious Hr Hnext.
    destruct (results_step _ _ _ _ _ _ H Hprevious Hr) as (cur & pb & b & Hcur & _ & V).
    destruct (results_step _ _ _ _ _ _ H Hr Hnext) as (cur' & pb' & b' & _ & Hpb' & V').
    assert (pb' = cur) by congruence. subst.
    destruct (ratchet_step _ _ _ _ _ _ V') as [Lower Upper].
    destruct (continuing_close _ _ _ _ _ _ V) as [Up Down].
    split; intros Dp Dr; [apply Lower, Up | apply Upper, Down]; assumption.
  - intros r next Hr Hnext Dr.
    destruct (results_first _ _ _ _ H Hr) as (cur & b & Hcur & V).
    destruct (results_step _ _ _ _ _ _ H Hr Hnext) as (cur' & pb' & b' & _ & Hpb' & V').
    rewrite Z.add_0_r in Hpb'. assert (pb' = cur) by congruence. subst.
    apply (ratchet_step _ _ _ _ _ _ V'). exact (first_up_close _ _ _ _ V Dr).
Qed.

(** On the quiet sample all three bars are [up] and the lower band is kept. *)
Lemma ratchet_within_runs_witness :
  exists results r next,
    calculateSupertrend Sample.quiet Sample.period1 = Return results /\
    nth_error results 1 = Some r /\ nth_error results 2 = Some next /\
    (basicLowerBand next = basicLowerBand r \/
     (basicLowerBand r < basicLowerBand next)%js = true).
Proof.
  eexists. eexists. eexists.
  assert (E : calculateSupertrend Sample.quiet Sample.period1 = Return _)
    by (vm_compute; reflexivity).
  split; [exact E |]. split; [reflexivity |]. split; [reflexivity |].
  refine (proj1 (proj1 (proj2 (ratchet_within_runs Sample.quiet Sample.period1 _ E))
                   0%nat _ _ _ eq_refl eq_refl eq_refl) eq_refl eq_refl).
Defined.

(** The run on [Sample.spike], bar by bar.  The ATR seed is [100 / 10 = 10];
    bar 9 has [hl2 = 150], bands 180 and 120, and closes at 100, below 120:
    [down].  Bar 10 has true range 900, ATR 99, [hl2 = 600] and basic bands
    897 and 303; the upper band stays at 180, the lower band rises to 303,
    and the close 200 is at least 180: [up], [buy].  Bar 11 has true range
    10, ATR 90.1 and [hl2 = 205]; the previous close 200 is below 303, so the
    lower band is the basic one, about -65.3, and the close 205 is above it:
    still [up]. *)
Lemma spike_run :
  exists results,
    calculateSupertrendTraced Sample.spike defaultConfig
    = Return (results, [FirstBar; FlipUp; StayUp]) /\
    map direction results = [down; up; up] /\
    map signal results = [hold; buy; hold] /\
    map atr results = [10; 99; 90.099999999999994]%float /\
    map basicUpperBand results = [180; 180; 475.29999999999995]%float /\
    map basicLowerBand results = [120; 303; -65.299999999999955]%float.
Proof. eexists. split; [vm_compute; reflexivity |]. repeat split. Qed.

(** C2 as stated fails with the default configuration on well-formed bars.
    In [Sample.spike] the second result flips to [up] on a bar that closes
    below its own lower band (303), so the third result, still [up], takes
    the much lower basic band (about -65.3); [Sample.plunge] is the mirror
    image for the upper band in a [down] run. *)
Lemma ratchet_monotone_counterexample :
  ~ (forall ohlcData config results k r next,
       calculateSupertrend ohlcData config = Return results ->
       nth_error results k = Some r -> nth_error results (S k) = Some next ->
       direction r = up -> direction next = up ->
       (basicLowerBand r <= basicLowerBand next)%js = true) /\
  ~ (forall ohlcData config results k r next,
       calculateSupertrend ohlcData config = Return results ->
       nth_error results k = Some r -> nth_error results (S k) = Some next ->
       direction r = down -> direction next = down ->
       (basicUpperBand next <= basicUpperBand r)%js = true).
Proof.
  split; intro H.
  - assert (E : calculateSupertrend Sample.spike defaultConfig = Return _)
      by (vm_compute; reflexivity).
    specialize (H _ _ _ 1%nat _ _ E eq_refl eq_refl eq_refl eq_refl).
    vm_compute in H. discriminate.
  - assert (E : calculateSupertrend Sample.plunge defaultConfig = Return _)
      by (vm_compute; reflexivity).
    specialize (H _ _ _ 1%nat _ _ E eq_refl eq_refl eq_refl eq_refl).
    vm_compute in H. discriminate.
Qed.

(** Both samples satisfy the validity predicate of the library. *)
Lemma spike_and_plunge_valid :
  validateOHLCData Sample.spike = true /\ validateOHLCData Sample.plunge = true.
Proof. split; vm_compute; reflexivity. Qed.

(** ** C3: length of the result and failure on short input *)

(** C3.  The period is an integer of at least 1.  [calculateSupertrend]
    throws an insufficient-data error exactly when the input has fewer than
    [atrPeriod + 1] bars, the error naming the required and the actual
    count, and it throws nothing else.  Otherwise it returns exactly
    [length - atrPeriod + 1] results, one for each bar from index
    [atrPeriod - 1] onward: result [k] belongs to bar [atrPeriod - 1 + k]
    and carries ATR value [k]. *)
Theorem supertrend_length_and_failure (ohlcData : list OHLCData) (config : SupertrendConfig) :
  1 <= atrPeriod config ->
  ((exists e, calculateSupertrend ohlcData config = Throw e /\ insufficient e = true) <->
   JS.length ohlcData < atrPeriod config + 1) /\
  (forall e, calculateSupertrend ohlcData config = Throw e ->
     e = InsufficientSupertrend (atrPeriod config + 1) (JS.length ohlcData) /\
     JS.length ohlcData < atrPeriod config + 1) /\
  (JS.length ohlcData < atrPeriod config + 1 ->
   calculateSupertrend ohlcData config =
     Throw (InsufficientSupertrend (atrPeriod config + 1) (JS.length ohlcData))) /\
  (atrPeriod config + 1 <= JS.length ohlcData ->
   exists results atrValues,
     calculateSupertrend ohlcData config = Return results /\
     JS.length results = JS.length ohlcData - atrPeriod config + 1 /\
     calculateATR ohlcData (atrPeriod config) = Return atrValues /\
     forall k, (k < List.length results)%nat ->
       exists bar r,
         JS.index ohlcData (atrPeriod config - 1 + Z.of_nat k) = Some bar /\
         nth_error results k = Some r /\
         nth_error atrValues k = Some (atr r)).
Proof.
  intro Hp.
  pose proof (calculateSupertrend_outcomes ohlcData config) as (Hshort & Hlong & _).
  assert (Hthrow : forall e, calculateSupertrend ohlcData config = Throw e ->
            e = InsufficientSupertrend (atrPeriod config + 1) (JS.length ohlcData) /\
            JS.length ohlcData < atrPeriod config + 1).
  { intros e He.
    destruct (Z.lt_ge_cases (JS.length ohlcData) (atrPeriod config + 1)) as [Hlt | Hge].
    - rewrite (Hshort Hlt) in He. injection He as <-. auto.
    - destruct (Hlong Hge Hp) as (results & E & _). congruence. }
  split; [split | split; [exact Hthrow | split; [exact Hshort |]]].
  - intros (e & He & _). exact (proj2 (Hthrow e He)).
  - intro H. eexists. split; [exact (Hshort H) | reflexivity].
  - intro Hge. destruct (Hlong Hge Hp) as (results & E & Hl).
    pose proof E as T. apply calculateSupertrend_Return in T. destruct T as (trace & T).
    apply traced_view in T.
    destruct T as (_ & _ & _ & _ & atrValues & Ha & _ & Hatr & _).
    exists results, atrValues. repeat (split; [assumption |]).
    intros k Hk.
    destruct (nth_error results k) as [r |] eqn:Hr; [| apply nth_error_None in Hr; lia].
    destruct (index_in_range ohlcData (atrPeriod config - 1 + Z.of_nat k)) as (bar & Hbar).
    { unfold JS.length in *. lia. }
    exists bar, r. auto.
Qed.

(** With a period of 1, three bars give three results and one bar gives the
    error that asks for two. *)
Lemma supertrend_length_and_failure_witness :
  (exists results,
     calculateSupertrend Sample.quiet Sample.period1 = Return results /\
     JS.length results = 3) /\
  calculateSupertrend Sample.single Sample.period1 = Throw (InsufficientSupertrend 2 1).
Proof.
  split.
  - destruct (supertrend_length_and_failure Sample.quiet Sample.period1)
      as (_ & _ & _ & Hlong); [simpl; lia |].
    destruct Hlong as (results & atrValues & E & Hl & _); [vm_compute; discriminate |].
    exists results. split; [exact E | exact Hl].
  - destruct (supertrend_length_and_failure Sample.single Sample.period1)
      as (_ & _ & Hshort & _); [simpl; lia |].
    apply Hshort. vm_compute. reflexivity.
Defined.

(** The period itself is not checked by the code: with a period of 0 one bar
    passes the length test and the first iteration reads [ohlcData[-1]]. *)
Lemma period_is_not_checked :
  calculateSupertrend Sample.single Sample.period0 = Throw TypeError.
Proof. vm_compute. reflexivity. Qed.

(** ** C4: the ATR smoother *)

(** C4.  For a period of at least 1 and an input of at least [period] bars,
    [calculateATR] returns [length - period + 1] values; the first is the
    arithmetic mean of the true ranges of bars [0 .. period - 1], and each
    later value [k] is obtained from the value before it and the true range
    of bar [period - 1 + k] by Wilder's recurrence, so value [k] belongs to
    bar [period - 1 + k].  The true ranges are those of the specification.
    On fewer than [period] bars it throws the insufficient-data error that
    names [period] and the actual length. *)
Theorem atr_smoother (ohlcData : list OHLCData) (period : Z) :
  (JS.length ohlcData < period ->
   calculateATR ohlcData period = Throw (InsufficientATR period (JS.length ohlcData))) /\
  (1 <= period -> period <= JS.length ohlcData ->
   exists atrValues trs,
     calculateATR ohlcData period = Return atrValues /\
     JS.length atrValues = JS.length ohlcData - period + 1 /\
     List.length trs = List.length ohlcData /\
     (forall i, nth_error trs i = specTrueRange ohlcData i) /\
     nth_error atrValues 0 = Some (mean (firstn (Z.to_nat period) trs)) /\
     forall k, (S k < List.length atrValues)%nat ->
       exists previousATR trueRange,
         nth_error atrValues k = Some previousATR /\
         specTrueRange ohlcData (Z.to_nat period + k) = Some trueRange /\
         nth_error atrValues (S k) =
           Some (((previousATR * (JS.Z2F period - 1)) + trueRange) / JS.Z2F period)%js).
Proof.
  split.
  - intro H. unfold calculateATR.
    destruct (Z.ltb_spec (JS.length ohlcData) period); [reflexivity | lia].
  - intros Hp Hlen.
    destruct (calculateATR_total ohlcData period Hlen) as (atrValues & E).
    pose proof (calculateATR_Return _ _ _ E) as [_ Hl].
    exists atrValues, (trueRanges ohlcData).
    assert (Lt : List.length (trueRanges ohlcData) = List.length ohlcData)
      by apply trueRangesFrom_length.
    repeat split; try assumption.
    + intro i. apply trueRanges_spec.
    + unfold calculateATR in E.
      destruct (Z.ltb_spec (JS.length ohlcData) period); [lia |].
      injection E as <-. simpl. unfold mean. do 2 f_equal.
      * change 0 with (Z.of_nat 0). rewrite sumLoop_fold; [reflexivity |].
        unfold JS.length in *. lia.
      * unfold JS.length in *.
        rewrite length_firstn, Nat.min_l by lia. f_equal. lia.
    + intros k Hk. unfold calculateATR in E.
      destruct (Z.ltb_spec (JS.length ohlcData) period); [lia |].
      injection E as <-.
      cbn [List.length] in Hk. rewrite smoothLoop_length in Hk.
      destruct (smoothLoop_nth period (trueRanges ohlcData)
                  (Z.to_nat (JS.length (trueRanges ohlcData) - period)) period
                  (sumLoop (Z.to_nat period) 0 (trueRanges ohlcData) 0 / JS.Z2F period)%js
                  k) as (p & H1 & H2); [lia |].
      replace (period + Z.of_nat k) with (Z.of_nat (Z.to_nat period + k)) in H2 by lia.
      rewrite index_of_nat, trueRanges_spec in H2.
      destruct (specTrueRange ohlcData (Z.to_nat period + k)) as [tr |] eqn:S.
      * exists p, tr. repeat split; assumption.
      * rewrite <- trueRanges_spec in S. apply nth_error_None in S.
        unfold JS.length in *. lia.
Qed.

(** The three true ranges of [Sample.quiet] are 2, and so are the two ATR
    values of period 2. *)
Lemma atr_of_quiet :
  trueRanges Sample.quiet = [2; 2; 2]%float /\
  calculateATR Sample.quiet 2 = Return [2; 2]%float /\
  calculateATR Sample.quiet 4 = Throw (InsufficientATR 4 3).
Proof. repeat split; vm_compute; reflexivity. Qed.

(** ** C5: the timeframe orchestrator *)

(** C5, as amended.  On a master sequence of fewer than 15 bars every
    timeframe's result is absent.  On 15 bars or more, each timeframe works
    on the last [min(windowLength, length)] bars (the whole sequence for the
    weekly timeframe); its result is absent when that slice has fewer than
    [atrPeriod + 1] bars and is otherwise present and equal to the last
    element of the Supertrend output over the slice. *)
Theorem orchestrator_policy (ohlcData : list OHLCData) (timeframe : Timeframe) :
  (JS.length ohlcData < 15 ->
   calculateSupertrendForTimeframes ohlcData timeframe = None) /\
  (15 <= JS.length ohlcData ->
   JS.length (window timeframe ohlcData) =
     match windowLength timeframe with
     | Some w => Z.min w (JS.length ohlcData)
     | None => JS.length ohlcData
     end /\
   (JS.length (window timeframe ohlcData) < atrPeriod (configs timeframe) + 1 ->
    calculateSupertrendForTimeframes ohlcData timeframe = None) /\
   (atrPeriod (configs timeframe) + 1 <= JS.length (window timeframe ohlcData) ->
    exists results r,
      calculateSupertrend (window timeframe ohlcData) (configs timeframe) = Return results /\
      JS.index results (JS.length results - 1) = Some r /\
      calculateSupertrendForTimeframes ohlcData timeframe = Some r)).
Proof.
  unfold calculateSupertrendForTimeframes. split; intro H.
  - destruct (Z.ltb_spec (JS.length ohlcData) 15); [reflexivity | lia].
  - destruct (Z.ltb_spec (JS.length ohlcData) 15); [lia |].
    rewrite forEach_entry. unfold entry.
    destruct (slice_window timeframe ohlcData) as [-> L]; [lia |].
    split; [rewrite L; destruct timeframe; reflexivity |].
    split; intro W.
    + destruct (Z.geb_spec (JS.length (window timeframe ohlcData))
                  (atrPeriod (configs timeframe) + 1)); [lia | reflexivity].
    + destruct (Z.geb_spec (JS.length (window timeframe ohlcData))
                  (atrPeriod (configs timeframe) + 1)); [| lia].
      destruct (getLatest_outcomes (window timeframe ohlcData) (Some (configs timeframe)))
        as (_ & _ & G).
      destruct G as (results & r & E & _ & Hr & Hg).
      * exact W.
      * destruct timeframe; simpl; lia.
      * exists results, r. auto.
Qed.

(** On twenty bars every timeframe has a result. *)
Lemma twenty_bars_all_present :
  forallb (fun t => match calculateSupertrendForTimeframes Sample.twenty t with
                    | Some _ => true
                    | None => false
                    end) timeframes = true.
Proof. vm_compute. reflexivity. Qed.

(** C5 as stated fails below 15 bars: eight bars give the 45-minute
    timeframe a slice of [7 + 1] bars, on which the Supertrend has a latest
    result, yet the orchestrator records none. *)
Lemma orchestrator_counterexample :
  ~ (forall ohlcData timeframe,
       atrPeriod (configs timeframe) + 1 <= JS.length (window timeframe ohlcData) ->
       calculateSupertrendForTimeframes ohlcData timeframe <> None).
Proof.
  intro H. apply (H Sample.eight TF_45M).
  - vm_compute. discriminate.
  - reflexivity.
Qed.

(** On the slice itself the latest signal is present. *)
Lemma eight_bars_have_a_signal :
  getLatestSupertrendSignal (window TF_45M Sample.eight) (Some (configs TF_45M)) <> None.
Proof. vm_compute. discriminate. Qed.

(** ** C6: signals and flips *)

(** C6, as amended.  The first eligible bar has signal [hold].  On every
    later bar a signal other than [hold] is given only when the direction
    differs from the previous result's direction, and it is then [buy] when
    the new direction is [up] and [sell] when it is [down]; so a bar that
    keeps the direction has [hold].  Conversely every change of direction is
    signalled, provided the bar's close and the band it is compared with are
    not NaN. *)
Theorem signal_on_flips (ohlcData : list OHLCData) (config : SupertrendConfig)
    (results : list SupertrendResult) :
  calculateSupertrend ohlcData config = Return results ->
  (exists r, nth_error results 0 = Some r /\ signal r = hold) /\
  forall k, (S k < List.length results)%nat ->
    exists current previous r,
      JS.index ohlcData (atrPeriod config - 1 + Z.of_nat (S k)) = Some current /\
      nth_error results k = Some previous /\
      nth_error results (S k) = Some r /\
      (signal r <> hold ->
       direction r <> direction previous /\ signal r = flipSignal (direction r)) /\
      (direction r = direction previous -> signal r = hold) /\
      (is_nan (close current) || is_nan (comparedBand (direction previous) r) = false ->
       direction r <> direction previous -> signal r = flipSignal (direction r)).
Proof.
  intro H. apply calculateSupertrend_Return in H. destruct H as (trace & H).
  apply traced_view in H.
  destruct H as (_ & _ & _ & _ & atrValues & _ & _ & _ & Hfirst & Hlater). split.
  - destruct Hfirst as (c0 & r0 & b0 & Er0 & _ & _ & _ & _ & _ & Hd).
    exists r0. split; [assumption |]. simpl in Hd. congruence.
  - intros k Hk.
    destruct (Hlater k Hk) as (cur & pb & pr & r & b & Hr & _ & Hpr & Hc & _ & V).
    exists cur, pr, r. repeat (split; [assumption |]).
    destruct V as (Eb & _ & _ & Hd).
    pose proof (directionBranch_previous (direction pr) (close cur)
                  (basicLowerBand r) (basicUpperBand r)) as P.
    pose proof (fallback_iff_nan pr r (close cur)) as F.
    rewrite <- Eb in P, F.
    destruct b; simpl in Hd; try contradiction;
      injection Hd as _ Ed Es; rewrite Es; try rewrite P;
      repeat split; intros; try rewrite Ed in *; simpl; try congruence.
    assert (N : is_nan (close cur) || is_nan (comparedBand (direction pr) r) = true)
      by (apply F; reflexivity).
    congruence.
Qed.

Lemma signal_on_flips_witness :
  exists results r,
    calculateSupertrend Sample.spike defaultConfig = Return results /\
    nth_error results 1 = Some r /\ signal r = buy.
Proof.
  eexists.
  assert (E : calculateSupertrend Sample.spike defaultConfig = Return _)
    by (vm_compute; reflexivity).
  destruct (signal_on_flips Sample.spike defaultConfig _ E) as (_ & Hlater).
  destruct (Hlater 0%nat) as (cur & pr & r & Hc & Hpr & Hr & _ & _ & Hflip).
  - cbn [List.length]. lia.
  - exists r. split; [exact E |]. split; [exact Hr |].
    vm_compute in Hc, Hpr, Hr.
    injection Hc as <-. injection Hpr as <-. injection Hr as <-.
    apply Hflip; [vm_compute; reflexivity | discriminate].
Defined.

(** C6 as stated fails when a close is not a number: the second result of
    [Sample.withNaN] changes direction from [up] to [down] through the
    fallback arm, and its signal is [hold]. *)
Lemma signal_counterexample :
  ~ (forall ohlcData config results k previous r,
       calculateSupertrend ohlcData config = Return results ->
       nth_error results k = Some previous -> nth_error results (S k) = Some r ->
       direction r <> direction previous -> signal r <> hold).
Proof.
  intro H.
  assert (E : calculateSupertrend Sample.withNaN Sample.period1 = Return _)
    by (vm_compute; reflexivity).
  apply (H _ _ _ 0%nat _ _ E eq_refl eq_refl).
  - discriminate.
  - reflexivity.
Qed.

(** ** C7: when the fallback arm runs *)

(** C7, as amended.  For every bar after the first eligible bar, the
    fallback arm runs exactly when the bar's close or the band it is compared
    with (the lower band after an [up] bar, the upper band after a [down]
    bar) is NaN.  When neither is NaN exactly one of the four conditions
    holds; when one is NaN none of them holds. *)
Theorem fallback_only_on_nan (ohlcData : list OHLCData) (config : SupertrendConfig)
    (results : list SupertrendResult) (trace : list Branch) :
  calculateSupertrendTraced ohlcData config = Return (results, trace) ->
  forall k, (S k < List.length results)%nat ->
    exists current previous r b,
      JS.index ohlcData (atrPeriod config - 1 + Z.of_nat (S k)) = Some current /\
      nth_error results k = Some previous /\
      nth_error results (S k) = Some r /\
      nth_error trace (S k) = Some b /\
      let incomparable :=
        is_nan (close current) || is_nan (comparedBand (direction previous) r) in
      let conditions :=
        fourCases (direction previous) (close current) (basicLowerBand r) (basicUpperBand r) in
      (incomparable = false -> b <> Fallback /\ holding conditions = 1%nat) /\
      (incomparable = true -> b = Fallback /\ holding conditions = 0%nat).
Proof.
  intros H k Hk. apply traced_view in H.
  destruct H as (_ & _ & _ & _ & atrValues & _ & _ & _ & _ & Hlater).
  destruct (Hlater k Hk) as (cur & pb & pr & r & b & Hr & Hb & Hpr & Hc & _ & V).
  exists cur, pr, r, b. repeat (split; [assumption |]). cbv zeta.
  destruct V as (Eb & _).
  pose proof (fallback_iff_nan pr r (close cur)) as F. rewrite <- Eb in F.
  rewrite holding_fourCases, <- Eb. split; intro N.
  - assert (b <> Fallback) by (intro E; apply F in E; congruence).
    split; [assumption |]. destruct b; congruence.
  - apply F in N. rewrite N. auto.
Qed.

Lemma fallback_only_on_nan_witness :
  exists results trace b,
    calculateSupertrendTraced Sample.quiet Sample.period1 = Return (results, trace) /\
    nth_error trace 1 = Some b /\ b <> Fallback.
Proof.
  eexists. eexists.
  assert (E : calculateSupertrendTraced Sample.quiet Sample.period1 = Return (_, _))
    by (vm_compute; reflexivity).
  destruct (fallback_only_on_nan Sample.quiet Sample.period1 _ _ E 0%nat)
    as (cur & pr & r & b & Hc & Hpr & Hr & Hb & Hok & _).
  - cbn [List.length]. lia.
  - exists b. split; [exact E |]. split; [exact Hb |].
    vm_compute in Hc, Hpr, Hr.
    injection Hc as <-. injection Hpr as <-. injection Hr as <-.
    apply Hok. vm_compute. reflexivity.
Defined.

(** The run on [Sample.withNaN] with period 1 and factor 1: both bars have
    ATR 2, [hl2 = 10] and bands 12 and 8; the first closes at 10, above 8:
    [up].  The second close is NaN, every comparison with it is false, and
    the fallback arm gives [down] (NaN is not above [hl2]) with [hold]. *)
Lemma withNaN_run :
  exists results,
    calculateSupertrendTraced Sample.withNaN Sample.period1
    = Return (results, [FirstBar; Fallback]) /\
    map direction results = [up; down] /\
    map signal results = [hold; hold] /\
    map basicUpperBand results = [12; 12]%float /\
    map basicLowerBand results = [8; 8]%float.
Proof. eexists. split; [vm_compute; reflexivity |]. repeat split. Qed.

(** C7 as stated fails when a close is not a number: none of the four
    conditions holds on the second bar of [Sample.withNaN], and the fallback
    arm produces its result. *)
Lemma fallback_counterexample :
  ~ (forall ohlcData config results trace,
       calculateSupertrendTraced ohlcData config = Return (results, trace) ->
       ~ In Fallback trace).
Proof.
  intro H.
  assert (E : calculateSupertrendTraced Sample.withNaN Sample.period1 = Return (_, _))
    by (vm_compute; reflexivity).
  apply (H _ _ _ _ E). right. left. reflexivity.
Qed.

(** The fallback arm is also reached from well-formed bars of finite prices,
    through overflow: in [Sample.huge] the first ATR value is infinite and
    so is [hl2], which makes the first lower band NaN. *)
Lemma fallback_on_finite_bars :
  validateOHLCData Sample.huge = true /\
  forallb (fun b => is_finite (low b) && is_finite (high b) && is_finite (close b))
    Sample.huge = true /\
  exists results,
    calculateSupertrendTraced Sample.huge Sample.period2
    = Return (results, [FirstBar; Fallback]) /\
    map direction results = [up; down] /\ map signal results = [hold; hold].
Proof.
  split; [vm_compute; reflexivity |]. split; [vm_compute; reflexivity |].
  eexists. split; [vm_compute; reflexivity |]. split; reflexivity.
Qed.

(** ** C8: invalid bars *)

(** C8, as amended.  [validateOHLCData] is false exactly on the sequences
    that contain a bar violating one of the six comparisons, but
    [calculateSupertrend] does not consult it: on a sequence that fails the
    validation it still returns [length - atrPeriod + 1] results whenever
    [atrPeriod] is at least 1 and there are at least [atrPeriod + 1] bars. *)
Theorem invalid_bars_are_not_rejected (ohlcData : list OHLCData) (config : SupertrendConfig) :
  (validateOHLCData ohlcData = false <->
   exists candle, In candle ohlcData /\
     ((high candle >= low candle)%js && (high candle >= open candle)%js &&
      (high candle >= close candle)%js && (low candle <= open candle)%js &&
      (low candle <= close candle)%js && (volume candle >= 0)%js) = false) /\
  (validateOHLCData ohlcData = false ->
   1 <= atrPeriod config -> atrPeriod config + 1 <= JS.length ohlcData ->
   exists results,
     calculateSupertrend ohlcData config = Return results /\
     JS.length results = JS.length ohlcData - atrPeriod config + 1).
Proof.
  split; [apply validateOHLCData_false |].
  intros _ Hp Hlen.
  now apply (proj1 (proj2 (calculateSupertrend_outcomes ohlcData config))).
Qed.

(** C8 as stated fails: the first bar of [Sample.inverted] has its high (5)
    below its low (20); it is not rejected, and the bands stored for it are
    computed from it (true range -15, upper band -2.5, lower band 27.5). *)
Lemma invalid_bar_counterexample :
  ~ (forall ohlcData config,
       validateOHLCData ohlcData = false ->
       forall results, calculateSupertrend ohlcData config <> Return results).
Proof.
  intro H.
  assert (E : calculateSupertrend Sample.inverted Sample.period1 = Return _)
    by (vm_compute; reflexivity).
  apply (H Sample.inverted Sample.period1 eq_refl _ E).
Qed.

Lemma invalid_bar_bands :
  exists r rest,
    calculateSupertrend Sample.inverted Sample.period1 = Return (r :: rest) /\
    atr r = (-15)%float /\
    basicUpperBand r = (-2.5)%float /\ basicLowerBand r = 27.5%float.
Proof. eexists. eexists. split; [vm_compute; reflexivity |]. repeat split. Qed.

(** ** C9: the latest signal *)

(** C9.  The period is an integer of at least 1.  A call of
    [getLatestSupertrendSignal] never throws: whatever the computation
    throws is caught, and the call returns a value.  With at least
    [atrPeriod + 1] bars the value is the last element of the result
    sequence of [calculateSupertrend], which is not empty, so it is not
    [null]; whenever the computation throws, in particular on fewer than
    [atrPeriod + 1] bars, the value is [null], and in no other case. *)
Theorem latest_signal_total (ohlcData : list OHLCData) (config : option SupertrendConfig) :
  1 <= atrPeriod (orDefault config) ->
  getLatestSupertrendSignalCall ohlcData config =
    Return (getLatestSupertrendSignal ohlcData config) /\
  (atrPeriod (orDefault config) + 1 <= JS.length ohlcData ->
   exists results r,
     calculateSupertrend ohlcData (orDefault config) = Return results /\
     results <> [] /\
     JS.index results (JS.length results - 1) = Some r /\
     getLatestSupertrendSignal ohlcData config = Some r) /\
  (forall e, calculateSupertrend ohlcData (orDefault config) = Throw e ->
             getLatestSupertrendSignal ohlcData config = None) /\
  (JS.length ohlcData < atrPeriod (orDefault config) + 1 ->
   getLatestSupertrendSignal ohlcData config = None) /\
  (getLatestSupertrendSignal ohlcData config = None <->
   exists e, calculateSupertrend ohlcData (orDefault config) = Throw e) /\
  (getLatestSupertrendSignal ohlcData config = None <->
   JS.length ohlcData < atrPeriod (orDefault config) + 1).
Proof.
  intro Hp.
  pose proof (getLatest_outcomes ohlcData config) as (Hthrow & Hshort & Hlong).
  pose proof (calculateSupertrend_outcomes ohlcData (orDefault config)) as (Cshort & _).
  assert (Hsome : atrPeriod (orDefault config) + 1 <= JS.length ohlcData ->
            getLatestSupertrendSignal ohlcData config <> None).
  { intros Hge N. destruct (Hlong Hge Hp) as (results & r & _ & _ & _ & S). congruence. }
  split; [| split; [| split; [exact Hthrow | split; [exact Hshort | split; split]]]].
  - unfold getLatestSupertrendSignalCall, getLatestSupertrendSignal, tryCatch.
    destruct (calculateSupertrend ohlcData (orDefault config)); reflexivity.
  - intro Hge. exact (Hlong Hge Hp).
  - intro N.
    destruct (Z.lt_ge_cases (JS.length ohlcData) (atrPeriod (orDefault config) + 1))
      as [Hlt | Hge]; [eexists; exact (Cshort Hlt) | destruct (Hsome Hge N)].
  - intros (e & E). exact (Hthrow e E).
  - intro N.
    destruct (Z.lt_ge_cases (JS.length ohlcData) (atrPeriod (orDefault config) + 1))
      as [Hlt | Hge]; [exact Hlt | destruct (Hsome Hge N)].
  - exact Hshort.
Qed.

(** With the default period of 10, the eleven bars of the first sample give
    a signal and a single bar gives [null]. *)
Lemma latest_signal_total_witness :
  getLatestSupertrendSignal (firstn 11 Sample.spike) None <> None /\
  getLatestSupertrendSignal Sample.single None = None.
Proof.
  split.
  - destruct (latest_signal_total (firstn 11 Sample.spike) None)
      as (_ & Hlong & _); [simpl; lia |].
    destruct Hlong as (results & r & _ & _ & _ & S); [vm_compute; discriminate |].
    rewrite S. discriminate.
  - destruct (latest_signal_total Sample.single None)
      as (_ & _ & _ & Hshort & _); [simpl; lia |].
    apply Hshort. vm_compute. reflexivity.
Defined.

(** The [catch] is what keeps a call from throwing when the period is not in
    range: with a period of 0 the computation throws a [TypeError] and the
    call returns [null]. *)
Lemma period_zero_is_caught :
  getLatestSupertrendSignalCall Sample.single (Some Sample.period0) = Return None.
Proof. vm_compute. reflexivity. Qed.

(** ** C10: converted prices are valid bars *)

(** C10.  For every list of non-negative prices, with or without dates,
    each bar produced by [convertPricesToOHLC] has [open = close = price],
    [high = price * 1.01], [low = price * 0.99] and volume 1000000, and the
    whole sequence passes [validateOHLCData].  The products are the rounded
    binary64 products; the proof follows the rounding of the multiplication. *)
Theorem converted_prices_validate (today : Z -> string) (prices : list float)
    (dates : option (list string)) :
  (forall price, In price prices -> (price >= 0)%js = true) ->
  map (fun b => (open b, high b, low b, close b, volume b))
    (convertPricesToOHLC today prices dates) =
  map (fun price => (price, (price * 1.01)%js, (price * 0.99)%js, price, 1000000%float))
    prices /\
  validateOHLCData (convertPricesToOHLC today prices dates) = true.
Proof.
  intro H. unfold convertPricesToOHLC. split.
  - apply convertFrom_fields.
  - now apply convertFrom_valid.
Qed.

Lemma converted_prices_validate_witness :
  validateOHLCData (convertPricesToOHLC (fun _ => EmptyString) Sample.prices None) = true.
Proof.
  refine (proj2 (converted_prices_validate (fun _ => EmptyString) Sample.prices None _)).
  intros price H. simpl in H.
  repeat (destruct H as [<- | H]; [vm_compute; reflexivity |]). contradiction.
Defined.

(** * Further properties of the engine *)

(** ** Every result is decided by one arm *)

(** In every arm the value is the band on the trend's side, and a signal
    agrees with the direction. *)
Lemma decide_outcome (b : Branch) (c h l u v : float) (d : Direction) (s : Signal) :
  decide b c h l u = (v, d, s) ->
  v = match d with up => l | down => u end /\
  (s = buy -> d = up) /\ (s = sell -> d = down).
Proof.
  destruct b; simpl.
  - destruct (c <= l)%js; simpl; intro E; injection E as <- <- <-;
      repeat split; congruence.
  - intro E; injection E as <- <- <-; repeat split; congruence.
  - intro E; injection E as <- <- <-; repeat split; congruence.
  - intro E; injection E as <- <- <-; repeat split; congruence.
  - intro E; injection E as <- <- <-; repeat split; congruence.
  - destruct (c > h)%js; simpl; intro E; injection E as <- <- <-;
      repeat split; congruence.
Qed.

Lemma result_decided (ohlcData : list OHLCData) (config : SupertrendConfig)
    (results : list SupertrendResult) (r : SupertrendResult) :
  calculateSupertrend ohlcData config = Return results ->
  In r results ->
  exists b c h,
    decide b c h (basicLowerBand r) (basicUpperBand r) = (value r, direction r, signal r).
Proof.
  intros H Hin. apply In_nth_error in Hin. destruct Hin as ([| k] & Hk).
  - destruct (results_first _ _ _ _ H Hk) as (cur & b & _ & (_ & _ & _ & V)).
    exists FirstBar, (close cur), (hl2Of cur). symmetry. exact V.
  - destruct (nth_error results k) as [previous |] eqn:Hp.
    + destruct (results_step _ _ _ _ _ _ H Hp Hk) as (cur & pb & b & _ & _ & (_ & _ & _ & V)).
      exists b, (close cur), (hl2Of cur). symmetry. exact V.
    + apply nth_error_None in Hp.
      assert (S k < List.length results)%nat by (apply nth_error_Some; congruence). lia.
Qed.

(** X1.  In every result returned by [calculateSupertrend], whichever arm of
    the direction decision produced it (the fallback arm included), the
    Supertrend value is the stored lower band when the direction is [up] and
    the stored upper band when it is [down]. *)
Theorem value_is_active_band (ohlcData : list OHLCData) (config : SupertrendConfig)
    (results : list SupertrendResult) (r : SupertrendResult) :
  calculateSupertrend ohlcData config = Return results ->
  In r results ->
  value r = match direction r with
            | up => basicLowerBand r
            | down => basicUpperBand r
            end.
Proof.
  intros H Hin. destruct (result_decided _ _ _ _ H Hin) as (b & c & h & D).
  exact (proj1 (decide_outcome _ _ _ _ _ _ _ _ D)).
Qed.

Lemma value_is_active_band_witness :
  exists results r,
    calculateSupertrend Sample.spike defaultConfig = Return results /\
    nth_error results 1 = Some r /\
    direction r = up /\ value r = basicLowerBand r.
Proof.
  eexists. eexists.
  assert (E : calculateSupertrend Sample.spike defaultConfig = Return _)
    by (vm_compute; reflexivity).
  split; [exact E |]. split; [reflexivity |]. split; [reflexivity |].
  refine (value_is_active_band _ _ _ _ E _). right. left. reflexivity.
Defined.

(** ** The direction, bar by bar *)

(** X2.  The direction follows the close.  The first eligible bar is
    [down] exactly when its close is at or below its lower band.  On a later
    bar whose close and compared band are not NaN, the direction after an
    [up] bar is [up] exactly when the close is above the stored lower band,
    and the direction after a [down] bar is [down] exactly when the close is
    below the stored upper band. *)
Theorem direction_follows_close (ohlcData : list OHLCData) (config : SupertrendConfig)
    (results : list SupertrendResult) :
  calculateSupertrend ohlcData config = Return results ->
  (forall r current,
      nth_error results 0 = Some r ->
      JS.index ohlcData (atrPeriod config - 1) = Some current ->
      (direction r = down <-> (close current <= basicLowerBand r)%js = true)) /\
  (forall k previous r current,
      nth_error results k = Some previous ->
      nth_error results (S k) = Some r ->
      JS.index ohlcData (atrPeriod config - 1 + Z.of_nat (S k)) = Some current ->
      is_nan (close current) || is_nan (comparedBand (direction previous) r) = false ->
      match direction previous with
      | up => direction r = up <-> (close current > basicLowerBand r)%js = true
      | down => direction r = down <-> (close current < basicUpperBand r)%js = true
      end).
Proof.
  intro H. split.
  - intros r current Hr Hc.
    destruct (results_first _ _ _ _ H Hr) as (cur & b & Hcur & (_ & _ & _ & V)).
    assert (cur = current) by congruence. subst cur. simpl in V.
    destruct (close current <= basicLowerBand r)%js; simpl in V;
      injection V as _ -> _; split; congruence.
  - intros k previous r current Hp Hr Hc N.
    destruct (results_step _ _ _ _ _ _ H Hp Hr) as (cur & pb & b & Hcur & _ & (Hb & _ & _ & V)).
    assert (cur = current) by congruence. subst cur.
    assert (F : b <> Fallback).
    { intro E. rewrite E in Hb. symmetry in Hb. apply fallback_iff_nan in Hb. congruence. }
    unfold directionBranch in Hb. unfold comparedBand in N.
    destruct (direction previous); simpl in Hb.
    + destruct (close current > basicLowerBand r)%js.
      * subst b. simpl in V. injection V as _ -> _. split; reflexivity.
      * destruct (close current <= basicLowerBand r)%js; [| congruence].
        subst b. simpl in V. injection V as _ -> _. split; discriminate.
    + destruct (close current < basicUpperBand r)%js.
      * subst b. simpl in V. injection V as _ -> _. split; reflexivity.
      * destruct (close current >= basicUpperBand r)%js; [| congruence].
        subst b. simpl in V. injection V as _ -> _. split; discriminate.
Qed.

Lemma direction_follows_close_witness :
  exists results previous r,
    calculateSupertrend Sample.spike defaultConfig = Return results /\
    nth_error results 0 = Some previous /\ nth_error results 1 = Some r /\
    direction previous = down /\ direction r = up /\
    (200 < basicUpperBand r)%js = false.
Proof.
  eexists. eexists. eexists.
  assert (E : calculateSupertrend Sample.spike defaultConfig = Return _)
    by (vm_compute; reflexivity).
  split; [exact E |]. split; [reflexivity |]. split; [reflexivity |].
  split; [reflexivity |]. split; [reflexivity |].
  pose proof (proj2 (direction_follows_close _ _ _ E) 0%nat _ _ (Sample.bar 200 1000 200)
                eq_refl eq_refl eq_refl eq_refl) as D.
  cbn [direction] in D.
  destruct (200 < 180)%js eqn:L; [| reflexivity].
  apply D in L. discriminate L.
Defined.

(** ** Appending bars

    Neither the ATR sequence nor the result sequence looks ahead: every loop
    reads bar [i], bar [i - 1] and what it has pushed so far, so a run on
    [ohlcData ++ more] repeats the run on [ohlcData] and then goes on. *)

Lemma index_app_prefix {A : Type} (l more : list A) (i : Z) :
  i < JS.length l -> JS.index (l ++ more) i = JS.index l i.
Proof.
  intro H. unfold JS.index. destruct (Z.ltb_spec i 0); [reflexivity |].
  apply nth_error_app1. unfold JS.length in H. lia.
Qed.

Lemma length_app_Z {A : Type} (l more : list A) :
  JS.length (l ++ more) = JS.length l + JS.length more.
Proof. unfold JS.length. rewrite length_app. lia. Qed.

Lemma trueRangesFrom_app (ohlcData more : list OHLCData) :
  forall previous,
    exists previous',
      trueRangesFrom previous (ohlcData ++ more) =
      trueRangesFrom previous ohlcData ++ trueRangesFrom previous' more.
Proof.
  induction ohlcData as [| c rest IH]; intro previous; simpl.
  - exists previous. reflexivity.
  - destruct (IH (Some c)) as (p & ->). exists p. reflexivity.
Qed.

Lemma sumLoop_app (trs more : list float) (n : nat) :
  forall (i : Z) (sum : float),
    i + Z.of_nat n <= JS.length trs ->
    sumLoop n i (trs ++ more) sum = sumLoop n i trs sum.
Proof.
  induction n as [| n IH]; intros i sum H; simpl; [reflexivity |].
  rewrite index_app_prefix by lia. apply IH. lia.
Qed.

Lemma smoothLoop_app (trs more : list float) (period : Z) (n : nat) :
  forall (i : Z) (previousATR : float),
    i + Z.of_nat n <= JS.length trs ->
    smoothLoop n i period (trs ++ more) previousATR = smoothLoop n i period trs previousATR.
Proof.
  induction n as [| n IH]; intros i previousATR H; simpl; [reflexivity |].
  rewrite index_app_prefix by lia. f_equal. apply IH. lia.
Qed.

Lemma smoothLoop_add (trs : list float) (period : Z) (n m : nat) :
  forall (i : Z) (previousATR : float),
    exists previousATR',
      smoothLoop (n + m) i period trs previousATR =
      smoothLoop n i period trs previousATR ++
      smoothLoop m (i + Z.of_nat n) period trs previousATR'.
Proof.
  induction n as [| n IH]; intros i previousATR.
  - exists previousATR. simpl. now rewrite Z.add_0_r.
  - simpl. destruct (IH (i + 1)
      (((previousATR * (JS.Z2F period - 1)) + JS.toNumber (JS.index trs i)) / JS.Z2F period)%js)
      as (p & E).
    exists p. cbn zeta. rewrite E.
    replace (i + 1 + Z.of_nat n) with (i + Z.pos (Pos.of_succ_nat n)) by lia.
    reflexivity.
Qed.

Lemma calculateATR_app (ohlcData more : list OHLCData) (period : Z) (atrValues : list float) :
  calculateATR ohlcData period = Return atrValues ->
  exists later,
    calculateATR (ohlcData ++ more) period = Return (atrValues ++ later) /\
    List.length later = List.length more.
Proof.
  unfold calculateATR.
  destruct (Z.ltb_spec (JS.length ohlcData) period) as [? | Hp]; [discriminate |].
  intro E. injection E as <-.
  rewrite length_app_Z.
  destruct (Z.ltb_spec (JS.length ohlcData + JS.length more) period) as [Hlt | _];
    [unfold JS.length in *; lia |].
  unfold trueRanges.
  destruct (trueRangesFrom_app ohlcData more None) as (p & ->).
  set (trs := trueRangesFrom None ohlcData).
  set (rest := trueRangesFrom p more).
  assert (Lt : JS.length trs = JS.length ohlcData)
    by (unfold JS.length, trs; now rewrite trueRangesFrom_length).
  assert (Lr : List.length rest = List.length more)
    by (unfold rest; now rewrite trueRangesFrom_length).
  rewrite sumLoop_app by (unfold JS.length in *; lia).
  rewrite length_app_Z.
  replace (Z.to_nat (JS.length trs + JS.length rest - period))
    with (Z.to_nat (JS.length trs - period) + List.length more)%nat
    by (unfold JS.length in *; lia).
  set (first := (sumLoop (Z.to_nat period) 0 trs 0 / JS.Z2F period)%js).
  destruct (smoothLoop_add (trs ++ rest) period (Z.to_nat (JS.length trs - period))
              (List.length more) period first) as (q & ->).
  rewrite (smoothLoop_app trs rest period (Z.to_nat (JS.length trs - period)) period first)
    by (unfold JS.length in *; lia).
  eexists. split; [rewrite app_comm_cons; reflexivity |].
  apply smoothLoop_length.
Qed.

Section Appending.

Variable ohlcData more : list OHLCData.
Variable atrValues later : list float.
Variable config : SupertrendConfig.

Lemma supertrendBar_app (i : Z) (results : list SupertrendResult) :
  i < JS.length ohlcData ->
  i - (atrPeriod config - 1) < JS.length atrValues ->
  supertrendBar (ohlcData ++ more) (atrValues ++ later) config i results =
  supertrendBar ohlcData atrValues config i results.
Proof.
  intros Hi Ha. unfold supertrendBar. cbv zeta.
  rewrite (index_app_prefix atrValues later) by lia.
  rewrite (index_app_prefix ohlcData more i) by lia.
  rewrite (index_app_prefix ohlcData more (i - 1)) by lia.
  reflexivity.
Qed.

Lemma supertrendLoop_app (n : nat) :
  forall (i : Z) (results : list SupertrendResult) (trace : list Branch),
    i + Z.of_nat n <= JS.length ohlcData ->
    i - (atrPeriod config - 1) + Z.of_nat n <= JS.length atrValues ->
    supertrendLoop n (ohlcData ++ more) (atrValues ++ later) config i results trace =
    supertrendLoop n ohlcData atrValues config i results trace.
Proof.
  induction n as [| n IH]; intros i results trace Hi Ha; simpl; [reflexivity |].
  rewrite supertrendBar_app by lia.
  destruct (supertrendBar ohlcData atrValues config i results) as [step | e];
    simpl; [| reflexivity].
  apply IH; lia.
Qed.

End Appending.

Lemma supertrendLoop_add (ohlcData : list OHLCData) (atrValues : list float)
    (config : SupertrendConfig) (n m : nat) :
  forall (i : Z) (results : list SupertrendResult) (trace : list Branch),
    supertrendLoop (n + m) ohlcData atrValues config i results trace =
    let* out := supertrendLoop n ohlcData atrValues config i results trace in
    supertrendLoop m ohlcData atrValues config (i + Z.of_nat n) (fst out) (snd out).
Proof.
  induction n as [| n IH]; intros i results trace.
  - simpl. now rewrite Z.add_0_r.
  - cbn [Nat.add supertrendLoop].
    destruct (supertrendBar ohlcData atrValues config i results) as [step | e];
      simpl; [| reflexivity].
    rewrite IH. replace (i + 1 + Z.of_nat n) with (i + Z.pos (Pos.of_succ_nat n)) by lia.
    reflexivity.
Qed.

(** A successful run on [ohlcData] is the beginning of the run on
    [ohlcData ++ more], which is successful too. *)
Lemma calculateSupertrendTraced_app (ohlcData more : list OHLCData)
    (config : SupertrendConfig) (results : list SupertrendResult) (trace : list Branch) :
  calculateSupertrendTraced ohlcData config = Return (results, trace) ->
  exists later laterTrace,
    calculateSupertrendTraced (ohlcData ++ more) config =
      Return (results ++ later, trace ++ laterTrace) /\
    List.length later = List.length more.
Proof.
  intro H. pose proof (traced_view _ _ _ _ H) as (Hp & Hlen & Hres & Htr & _).
  unfold calculateSupertrendTraced in *.
  destruct (Z.ltb_spec (JS.length ohlcData) (atrPeriod config + 1)) as [? | _]; [lia |].
  apply bind_Return in H. destruct H as (atrValues & Ha & L).
  pose proof (calculateATR_Return _ _ _ Ha) as [_ Hal].
  destruct (calculateATR_app _ more _ _ Ha) as (laterA & -> & HlA).
  rewrite length_app_Z.
  destruct (Z.ltb_spec (JS.length ohlcData + JS.length more) (atrPeriod config + 1));
    [unfold JS.length in *; lia |].
  cbn [bind].
  replace (Z.to_nat (JS.length ohlcData + JS.length more - (atrPeriod config - 1)))
    with (Z.to_nat (JS.length ohlcData - (atrPeriod config - 1)) + List.length more)%nat
    by (unfold JS.length in *; lia).
  rewrite supertrendLoop_add, supertrendLoop_app, L by lia.
  cbn [bind fst snd].
  destruct (supertrendLoop_total (ohlcData ++ more) (atrValues ++ laterA) config
              (List.length more)
              (atrPeriod config - 1 +
               Z.of_nat (Z.to_nat (JS.length ohlcData - (atrPeriod config - 1))))
              results trace) as ([out tr] & E).
  - lia.
  - rewrite length_app_Z. unfold JS.length in *. lia.
  - intros _ ->. unfold JS.length in *. cbn [List.length] in *. lia.
  - rewrite E. apply supertrendLoop_inv in E; [| exact Htr].
    destruct E as (Ho & Ht & Hf & Hg & _).
    exists (skipn (List.length results) out), (skipn (List.length trace) tr).
    split.
    + rewrite <- Hf at 1. rewrite <- Hg at 1. now rewrite !firstn_skipn.
    + rewrite length_skipn. lia.
Qed.

(** X3.  The ATR sequence does not look ahead: when [calculateATR] returns
    on a sequence of bars, it returns on that sequence followed by any
    further bars, and the values are the old ones followed by one new value
    per added bar.  No ATR value is revised by a later bar. *)
Theorem atr_no_lookahead (ohlcData more : list OHLCData) (period : Z)
    (atrValues : list float) :
  calculateATR ohlcData period = Return atrValues ->
  exists later,
    calculateATR (ohlcData ++ more) period = Return (atrValues ++ later) /\
    List.length later = List.length more.
Proof. apply calculateATR_app. Qed.

Lemma atr_no_lookahead_witness :
  exists atrValues later,
    calculateATR (firstn 2 Sample.quiet) 2 = Return atrValues /\
    calculateATR Sample.quiet 2 = Return (atrValues ++ later) /\
    List.length later = 1%nat.
Proof.
  eexists.
  assert (E : calculateATR (firstn 2 Sample.quiet) 2 = Return _)
    by (vm_compute; reflexivity).
  destruct (atr_no_lookahead (firstn 2 Sample.quiet) (skipn 2 Sample.quiet) 2 _ E)
    as (later & H & L).
  exists later. split; [exact E |]. split; [exact H | exact L].
Defined.

(** X4.  The Supertrend does not repaint: when [calculateSupertrend] returns
    on a sequence of bars, it returns on that sequence followed by any
    further bars, and the results are the old ones, unchanged, followed by
    one new result per added bar. *)
Theorem supertrend_no_lookahead (ohlcData more : list OHLCData)
    (config : SupertrendConfig) (results : list SupertrendResult) :
  calculateSupertrend ohlcData config = Return results ->
  exists later,
    calculateSupertrend (ohlcData ++ more) config = Return (results ++ later) /\
    List.length later = List.length more.
Proof.
  intro H. apply calculateSupertrend_Return in H. destruct H as (trace & H).
  destruct (calculateSupertrendTraced_app _ more _ _ _ H) as (later & laterTrace & E & L).
  exists later. split; [| exact L].
  apply calculateSupertrend_Return. eauto.
Qed.

Lemma supertrend_no_lookahead_witness :
  exists results later,
    calculateSupertrend (firstn 11 Sample.spike) defaultConfig = Return results /\
    calculateSupertrend Sample.spike defaultConfig = Return (results ++ later) /\
    List.length later = 1%nat.
Proof.
  eexists.
  assert (E : calculateSupertrend (firstn 11 Sample.spike) defaultConfig = Return _)
    by (vm_compute; reflexivity).
  destruct (supertrend_no_lookahead (firstn 11 Sample.spike) (skipn 11 Sample.spike)
              defaultConfig _ E) as (later & H & L).
  exists later. split; [exact E |]. split; [exact H | exact L].
Defined.

(** X5.  The latest signal is final: the result that
    [getLatestSupertrendSignal] reports for a sequence of bars is the result
    that [calculateSupertrend] keeps for the same bar, at index
    [length - atrPeriod], on every continuation of the sequence. *)
Theorem latest_signal_is_final (ohlcData more : list OHLCData)
    (config : SupertrendConfig) (r : SupertrendResult) :
  getLatestSupertrendSignal ohlcData (Some config) = Some r ->
  exists results,
    calculateSupertrend (ohlcData ++ more) config = Return results /\
    JS.index results (JS.length ohlcData - atrPeriod config) = Some r.
Proof.
  unfold getLatestSupertrendSignal. cbn [orDefault].
  destruct (calculateSupertrend ohlcData config) as [results | e] eqn:E; [| discriminate].
  destruct (Z.ltb_spec 0 (JS.length results)) as [Hpos | ?]; [| discriminate].
  intro Hr.
  apply calculateSupertrend_Return in E. destruct E as (trace & E).
  pose proof (traced_view _ _ _ _ E) as (_ & _ & Hres & _).
  destruct (calculateSupertrendTraced_app _ more _ _ _ E) as (later & laterTrace & A & _).
  exists (results ++ later). split.
  - apply calculateSupertrend_Return. eauto.
  - replace (JS.length ohlcData - atrPeriod config) with (JS.length results - 1) by lia.
    rewrite index_app_prefix by lia. exact Hr.
Qed.

Lemma latest_signal_is_final_witness :
  exists r results,
    getLatestSupertrendSignal (firstn 11 Sample.spike) None = Some r /\
    calculateSupertrend Sample.spike defaultConfig = Return results /\
    JS.index results 1 = Some r /\ signal r = buy.
Proof.
  eexists.
  assert (E : getLatestSupertrendSignal (firstn 11 Sample.spike) (Some defaultConfig)
              = Some _) by (vm_compute; reflexivity).
  destruct (latest_signal_is_final (firstn 11 Sample.spike) (skipn 11 Sample.spike)
              defaultConfig _ E) as (results & H & Hr).
  exists results. split; [exact E |]. split; [exact H |]. split; [exact Hr | reflexivity].
Defined.

(** ** The fields the engine reads *)

Section Fields.

(** A change of bars that keeps [high], [low] and [close]. *)
Variable f : OHLCData -> OHLCData.
Hypothesis f_keeps : forall bar,
  high (f bar) = high bar /\ low (f bar) = low bar /\ close (f bar) = close bar.

Lemma index_map {A B : Type} (g : A -> B) (l : list A) (i : Z) :
  JS.index (map g l) i = option_map g (JS.index l i).
Proof. unfold JS.index. destruct (i <? 0); [reflexivity | apply nth_error_map]. Qed.

Lemma length_map_Z {A B : Type} (g : A -> B) (l : list A) :
  JS.length (map g l) = JS.length l.
Proof. unfold JS.length. now rewrite length_map. Qed.

Lemma calculateTrueRange_map (current : OHLCData) (previous : option OHLCData) :
  calculateTrueRange (f current) (option_map f previous) =
  calculateTrueRange current previous.
Proof.
  destruct (f_keeps current) as (Hh & Hl & _).
  destruct previous as [p |]; simpl; rewrite Hh, Hl; [| reflexivity].
  destruct (f_keeps p) as (_ & _ & ->). reflexivity.
Qed.

Lemma trueRangesFrom_map (ohlcData : list OHLCData) :
  forall previous,
    trueRangesFrom (option_map f previous) (map f ohlcData) =
    trueRangesFrom previous ohlcData.
Proof.
  induction ohlcData as [| c rest IH]; intro previous; simpl; [reflexivity |].
  rewrite calculateTrueRange_map. f_equal. apply (IH (Some c)).
Qed.

Lemma calculateATR_map (ohlcData : list OHLCData) (period : Z) :
  calculateATR (map f ohlcData) period = calculateATR ohlcData period.
Proof.
  unfold calculateATR, trueRanges. rewrite length_map_Z.
  pose proof (trueRangesFrom_map ohlcData None) as E. simpl in E. now rewrite E.
Qed.

Lemma supertrendBar_map (ohlcData : list OHLCData) (atrValues : list float)
    (config : SupertrendConfig) (i : Z) (results : list SupertrendResult) :
  supertrendBar (map f ohlcData) atrValues config i results =
  supertrendBar ohlcData atrValues config i results.
Proof.
  unfold supertrendBar. cbv zeta. rewrite !index_map.
  destruct (JS.index ohlcData i) as [current |]; simpl; [| reflexivity].
  destruct (f_keeps current) as (-> & -> & ->).
  destruct (JS.index ohlcData (i - 1)) as [previousBar |]; simpl.
  - destruct (f_keeps previousBar) as (_ & _ & ->). reflexivity.
  - reflexivity.
Qed.

Lemma supertrendLoop_map (ohlcData : list OHLCData) (atrValues : list float)
    (config : SupertrendConfig) (n : nat) :
  forall (i : Z) (results : list SupertrendResult) (trace : list Branch),
    supertrendLoop n (map f ohlcData) atrValues config i results trace =
    supertrendLoop n ohlcData atrValues config i results trace.
Proof.
  induction n as [| n IH]; intros i results trace; simpl; [reflexivity |].
  rewrite supertrendBar_map.
  destruct (supertrendBar ohlcData atrValues config i results); simpl; auto.
Qed.

Lemma calculateSupertrend_map (ohlcData : list OHLCData) (config : SupertrendConfig) :
  calculateSupertrend (map f ohlcData) config = calculateSupertrend ohlcData config.
Proof.
  unfold calculateSupertrend, calculateSupertrendTraced.
  rewrite length_map_Z, calculateATR_map.
  destruct (_ <? _); [reflexivity |].
  destruct (calculateATR ohlcData (atrPeriod config)); simpl; [| reflexivity].
  now rewrite supertrendLoop_map.
Qed.

End Fields.

(** X6.  The engine reads only the high, the low and the close of a bar:
    two sequences of bars that agree on these three fields have the same ATR
    sequence and the same Supertrend results (or fail alike), whatever their
    opens, volumes and dates. *)
Theorem engine_reads_high_low_close (ohlcData ohlcData' : list OHLCData)
    (config : SupertrendConfig) :
  map (fun bar => (high bar, low bar, close bar)) ohlcData =
  map (fun bar => (high bar, low bar, close bar)) ohlcData' ->
  calculateATR ohlcData (atrPeriod config) = calculateATR ohlcData' (atrPeriod config) /\
  calculateSupertrend ohlcData config = calculateSupertrend ohlcData' config.
Proof.
  intro H.
  set (g := fun t : float * float * float =>
              {| open := 0; high := fst (fst t); low := snd (fst t); close := snd t;
                 volume := 0; time := EmptyString |}).
  set (f := fun bar => g (high bar, low bar, close bar)).
  assert (K : forall bar,
             high (f bar) = high bar /\ low (f bar) = low bar /\ close (f bar) = close bar)
    by (intro bar; repeat split).
  assert (E : map f ohlcData = map f ohlcData').
  { unfold f. rewrite <- (map_map (fun bar => (high bar, low bar, close bar)) g ohlcData).
    rewrite <- (map_map (fun bar => (high bar, low bar, close bar)) g ohlcData').
    now rewrite H. }
  split.
  - rewrite <- (calculateATR_map f K ohlcData), <- (calculateATR_map f K ohlcData').
    now rewrite E.
  - rewrite <- (calculateSupertrend_map f K ohlcData),
            <- (calculateSupertrend_map f K ohlcData').
    now rewrite E.
Qed.

Lemma engine_reads_high_low_close_witness :
  calculateSupertrend Sample.quiet Sample.period1 =
  calculateSupertrend
    (map (fun bar => {| open := nan; high := high bar; low := low bar; close := close bar;
                        volume := (-1)%float; time := "2024-01-01" |}) Sample.quiet)
    Sample.period1.
Proof.
  refine (proj2 (engine_reads_high_low_close Sample.quiet _ Sample.period1 _)).
  reflexivity.
Defined.

(** ** True ranges and validated bars *)

Lemma is_nan_spec (x : float) : is_nan x = true <-> Prim2SF x = S754_nan.
Proof.
  unfold is_nan. rewrite eqb_spec. unfold SFeqb.
  destruct (Prim2SF x) as [s | s | | s m e]; simpl.
  - split; discriminate.
  - destruct s; split; discriminate.
  - split; reflexivity.
  - rewrite Z.compare_refl, Pos.compare_cont_refl.
    destruct s; split; discriminate.
Qed.

Lemma leb_true_not_nan (a b : float) :
  (a <= b)%js = true -> is_nan a = false /\ is_nan b = false.
Proof.
  intro H. destruct (is_nan a || is_nan b) eqn:N.
  - destruct (nan_unordered _ _ N) as [_ L]. congruence.
  - now apply orb_false_iff in N.
Qed.

Lemma abs_not_negative (x : float) :
  is_nan x = false -> (0%float <= JS.Math_abs x)%js = true.
Proof.
  intro N. unfold JS.leb, JS.Math_abs. rewrite leb_spec, abs_spec.
  assert (H : Prim2SF x <> S754_nan) by (intro E; apply is_nan_spec in E; congruence).
  change (Prim2SF 0) with (S754_zero false).
  destruct (Prim2SF x) as [s | s | | s m e]; try reflexivity. congruence.
Qed.

Lemma abs_nan (x : float) : is_nan (JS.Math_abs x) = is_nan x.
Proof.
  apply eq_true_iff_eq. rewrite !is_nan_spec. unfold JS.Math_abs. rewrite abs_spec.
  destruct (Prim2SF x); simpl; split; congruence.
Qed.

(** [Math.max] of two numbers is NaN or an upper bound of both. *)
Lemma Math_max2_bound (a b : float) :
  is_nan (JS.Math_max2 a b) = false ->
  is_nan a = false /\ is_nan b = false /\
  (a <= JS.Math_max2 a b)%js = true /\ (b <= JS.Math_max2 a b)%js = true.
Proof.
  unfold JS.Math_max2.
  destruct (is_nan a || is_nan b) eqn:N; [discriminate |].
  intros _. pose proof N as N'. apply orb_false_iff in N'. destruct N' as [Na Nb].
  split; [assumption |]. split; [assumption |].
  destruct (PrimFloat.ltb a b) eqn:L.
  - split; [now apply ltb_leb | now apply leb_refl].
  - assert (Hba : (b <= a)%js = true).
    { pose proof (ltb_geb_total a b Na Nb) as T. unfold JS.ltb in T. rewrite L in T.
      unfold JS.geb in T. unfold JS.leb. now destruct (PrimFloat.leb b a). }
    destruct (PrimFloat.ltb b a) eqn:L'.
    + split; [now apply leb_refl | assumption].
    + assert (Hab : (a <= b)%js = true).
      { pose proof (ltb_geb_total b a Nb Na) as T. unfold JS.ltb in T. rewrite L' in T.
        unfold JS.geb in T. unfold JS.leb. now destruct (PrimFloat.leb a b). }
      destruct (get_sign a); split; auto using leb_refl.
Qed.

Lemma calculateTrueRange_bound (current previous : OHLCData) :
  is_nan (calculateTrueRange current (Some previous)) = false ->
  (0%float <= calculateTrueRange current (Some previous))%js = true /\
  (high current - low current <= calculateTrueRange current (Some previous))%js = true.
Proof.
  unfold calculateTrueRange, JS.Math_max3. intro N.
  destruct (Math_max2_bound _ _ N) as (N12 & N3 & H12 & H3).
  destruct (Math_max2_bound _ _ N12) as (_ & _ & H1 & _).
  split.
  - apply leb_trans with (2 := H3). apply abs_not_negative. now rewrite <- abs_nan.
  - exact (leb_trans _ _ _ H1 H12).
Qed.

(** X7.  From the second bar on, a true range is never negative: every
    entry of the true-range sequence other than the first is NaN or at least
    zero, and at least the bar's [high - low], whatever the bars are; only
    the first entry, which is [high - low] alone, can be negative. *)
Theorem true_range_not_negative (ohlcData : list OHLCData) (i : nat)
    (current : OHLCData) (tr : float) :
  nth_error (trueRanges ohlcData) (S i) = Some tr ->
  nth_error ohlcData (S i) = Some current ->
  is_nan tr = true \/
  ((0%float <= tr)%js = true /\ (high current - low current <= tr)%js = true).
Proof.
  rewrite trueRanges_spec. unfold specTrueRange. intros H Hc. rewrite Hc in H.
  destruct (nth_error ohlcData i) as [previous |]; [| discriminate].
  injection H as <-.
  change (JS.Math_max3 (high current - low current)%js
            (JS.Math_abs (high current - close previous)%js)
            (JS.Math_abs (low current - close previous)%js))
    with (calculateTrueRange current (Some previous)).
  destruct (is_nan (calculateTrueRange current (Some previous))) eqn:N; [now left | right].
  now apply calculateTrueRange_bound.
Qed.

Lemma true_range_not_negative_witness :
  nth_error (trueRanges (rev Sample.inverted)) 0 = Some 2%float /\
  nth_error (trueRanges (rev Sample.inverted)) 1 = Some 10%float /\
  nth_error (trueRanges Sample.inverted) 0 = Some (-15)%float /\
  (0%float <= 10%float)%js = true.
Proof.
  split; [reflexivity |]. split; [reflexivity |]. split; [reflexivity |].
  destruct (true_range_not_negative (rev Sample.inverted) 0 (Sample.bar 20 5 10) 10
              eq_refl eq_refl) as [N | [H _]].
  - discriminate N.
  - exact H.
Defined.

(** X8.  Validation excludes NaN: in a sequence accepted by
    [validateOHLCData] no open, high, low, close or volume is NaN. *)
Theorem validated_bars_have_no_nan (ohlcData : list OHLCData) (candle : OHLCData) :
  validateOHLCData ohlcData = true ->
  In candle ohlcData ->
  is_nan (open candle) = false /\ is_nan (high candle) = false /\
  is_nan (low candle) = false /\ is_nan (close candle) = false /\
  is_nan (volume candle) = false.
Proof.
  unfold validateOHLCData. intros H Hin.
  apply (proj1 (forallb_forall _ _) H) in Hin. unfold validCandle in Hin.
  repeat (apply andb_true_iff in Hin; destruct Hin as [Hin ?]).
  repeat match goal with
         | E : (_ >= _)%js = true |- _ => apply leb_true_not_nan in E; destruct E
         | E : (_ <= _)%js = true |- _ => apply leb_true_not_nan in E; destruct E
         end.
  auto.
Qed.

Lemma validated_bars_have_no_nan_witness :
  is_nan (close (Sample.bar 200 1000 200)) = false.
Proof.
  refine (proj1 (proj2 (proj2 (proj2
            (validated_bars_have_no_nan Sample.spike (Sample.bar 200 1000 200) _ _))))).
  - vm_compute. reflexivity.
  - do 10 right. left. reflexivity.
Defined.

(** ** The orchestrator, by the number of bars *)

Lemma entry_present (ohlcData : list OHLCData) (timeframe : Timeframe) :
  15 <= JS.length ohlcData ->
  (entry ohlcData timeframe None = None <->
   dataLength timeframe ohlcData < atrPeriod (configs timeframe) + 1).
Proof.
  intro H. unfold entry.
  destruct (slice_window timeframe ohlcData) as [-> W]; [lia |]. rewrite W.
  destruct (Z.geb_spec (dataLength timeframe ohlcData) (atrPeriod (configs timeframe) + 1))
    as [Hge | Hlt].
  - destruct (getLatest_outcomes (window timeframe ohlcData) (Some (configs timeframe)))
      as (_ & _ & G).
    destruct G as (results & r & _ & _ & _ & ->).
    + cbn [orDefault]. lia.
    + destruct timeframe; simpl; lia.
    + split; [discriminate | lia].
  - split; [lia | reflexivity].
Qed.

(** X9.  Which timeframes the orchestrator leaves without a result depends
    on the number of bars alone: all of them below 15 bars, the weekly one
    alone at exactly 15 bars, and none from 16 bars on, whatever the prices
    are. *)
Theorem timeframes_missing_by_length (ohlcData : list OHLCData) (timeframe : Timeframe) :
  calculateSupertrendForTimeframes ohlcData timeframe = None <->
  JS.length ohlcData < 15 \/ (timeframe = TF_1W /\ JS.length ohlcData = 15).
Proof.
  unfold calculateSupertrendForTimeframes.
  destruct (Z.ltb_spec (JS.length ohlcData) 15) as [Hlt | Hge].
  - split; [auto | reflexivity].
  - rewrite forEach_entry, entry_present by assumption.
    destruct timeframe; simpl; split; intro H;
      try lia; try (right; split; [reflexivity | lia]);
      try (destruct H as [H | [H _]]; [lia | discriminate]).
Qed.

Lemma window_of_longer (older ohlcData : list OHLCData) (timeframe : Timeframe) (w : Z) :
  windowLength timeframe = Some w ->
  0 <= w <= JS.length ohlcData ->
  window timeframe (older ++ ohlcData) = window timeframe ohlcData /\
  dataLength timeframe (older ++ ohlcData) = dataLength timeframe ohlcData.
Proof.
  intros Hw H. unfold window, lastBars. rewrite Hw, length_app_Z.
  assert (D : forall l, w <= JS.length l -> dataLength timeframe l = w).
  { intros l Hl. destruct timeframe; simpl in *; try discriminate;
      injection Hw as <-; lia. }
  split.
  - rewrite !Z.min_l by (unfold JS.length in *; lia).
    rewrite skipn_app.
    replace (Z.to_nat (JS.length older + JS.length ohlcData - w) - List.length older)%nat
      with (Z.to_nat (JS.length ohlcData - w)) by (unfold JS.length in *; lia).
    rewrite skipn_all2 by (unfold JS.length in *; lia). reflexivity.
  - rewrite !D; [reflexivity | lia | rewrite length_app_Z; unfold JS.length in *; lia].
Qed.

(** X10.  A timeframe with a window reads nothing but its window: once the
    master sequence has at least as many bars as the window of a timeframe,
    putting older bars in front of it does not change that timeframe's
    result. *)
Theorem timeframe_reads_its_window (older ohlcData : list OHLCData)
    (timeframe : Timeframe) (w : Z) :
  windowLength timeframe = Some w ->
  w <= JS.length ohlcData ->
  calculateSupertrendForTimeframes (older ++ ohlcData) timeframe =
  calculateSupertrendForTimeframes ohlcData timeframe.
Proof.
  intros Hw H.
  assert (W20 : 20 <= w) by (destruct timeframe; simpl in Hw; try discriminate;
                             injection Hw as <-; lia).
  unfold calculateSupertrendForTimeframes. rewrite length_app_Z.
  destruct (Z.ltb_spec (JS.length older + JS.length ohlcData) 15);
    [unfold JS.length in *; lia |].
  destruct (Z.ltb_spec (JS.length ohlcData) 15); [lia |].
  rewrite !forEach_entry. unfold entry.
  destruct (window_of_longer older ohlcData timeframe w Hw) as [E D]; [lia |].
  destruct (slice_window timeframe (older ++ ohlcData)) as [-> _];
    [rewrite length_app_Z; unfold JS.length in *; lia |].
  destruct (slice_window timeframe ohlcData) as [-> _]; [lia |].
  now rewrite E.
Qed.

Lemma timeframe_reads_its_window_witness :
  calculateSupertrendForTimeframes (Sample.spike ++ Sample.twenty) TF_45M =
  calculateSupertrendForTimeframes Sample.twenty TF_45M.
Proof.
  apply (timeframe_reads_its_window Sample.spike Sample.twenty TF_45M 20).
  - reflexivity.
  - vm_compute. discriminate.
Defined.

(** * The trend labels of the market-data route *)

(** ** Order, negation and absolute value *)

Lemma SFltb_trans (a b c : spec_float) :
  SFltb a b = true -> SFltb b c = true -> SFltb a c = true.
Proof.
  unfold SFltb.
  destruct a as [sa | sa | | sa ma ea], b as [sb | sb | | sb mb eb],
           c as [sc | sc | | sc mc ec];
    simpl; try discriminate; try reflexivity;
    try (destruct sa, sb, sc; simpl; try discriminate; reflexivity);
    try (destruct sa, sb; simpl; try discriminate; reflexivity);
    try (destruct sb, sc; simpl; try discriminate; reflexivity);
    try (destruct sa, sc; simpl; try discriminate; reflexivity).
  all: destruct sa, sb, sc; simpl; try discriminate; try reflexivity.
  all: change (Pos.compare_cont Eq ma mb) with (Pos.compare ma mb);
       change (Pos.compare_cont Eq mb mc) with (Pos.compare mb mc);
       change (Pos.compare_cont Eq ma mc) with (Pos.compare ma mc);
       destruct (Z.compare_spec ea eb), (Z.compare_spec eb ec), (Z.compare_spec ea ec);
       try discriminate; try reflexivity; try lia; subst;
       destruct (Pos.compare_spec ma mb), (Pos.compare_spec mb mc), (Pos.compare_spec ma mc);
       simpl; try discriminate; try reflexivity; try lia.
Qed.

Lemma ltb_trans (a b c : float) :
  (a < b)%js = true -> (b < c)%js = true -> (a < c)%js = true.
Proof. unfold JS.ltb. rewrite !ltb_spec. apply SFltb_trans. Qed.

Lemma SFcompare_opp (x y : spec_float) :
  SFcompare (SFopp x) (SFopp y) = SFcompare y x.
Proof.
  rewrite (SFcompare_swap x y).
  destruct x as [sx | sx | | sx mx ex], y as [sy | sy | | sy my ey];
    simpl; try reflexivity;
    try (destruct sx; reflexivity);
    try (destruct sy; reflexivity);
    try (destruct sx, sy; reflexivity).
  destruct sx, sy; simpl; try reflexivity.
  - destruct (ex ?= ey); simpl; try reflexivity.
    now rewrite CompOpp_involutive.
  - destruct (ex ?= ey); reflexivity.
Qed.

(** [-a < -b] is [b < a]. *)
Lemma opp_ltb (a b : float) : (- a < - b)%js = (b < a)%js.
Proof.
  unfold JS.ltb. rewrite !ltb_spec, !opp_spec. unfold SFltb.
  now rewrite SFcompare_opp.
Qed.

Lemma opp_involutive (a : float) : (- - a)%float = a.
Proof.
  apply Prim2SF_inj. rewrite !opp_spec.
  destruct (Prim2SF a) as [s | s | | s m e]; simpl; now rewrite ?negb_involutive.
Qed.

(** [a < -b] is [b < -a]. *)
Lemma ltb_opp_swap (a b : float) : (a < - b)%js = (b < - a)%js.
Proof. rewrite <- (opp_involutive a) at 1. apply opp_ltb. Qed.

(** The two zeros compare alike. *)
Lemma ltb_neg_zero (a : float) : (a < - 0)%js = (a < 0)%js.
Proof.
  unfold JS.ltb. rewrite !ltb_spec, opp_spec.
  change (Prim2SF 0) with (S754_zero false). unfold SFltb.
  destruct (Prim2SF a) as [s | s | | s m e]; reflexivity.
Qed.

(** By its sign bit, a number is its own absolute value and is not below
    zero, or is the opposite of its absolute value and is not above zero. *)
Lemma abs_cases (c : float) :
  (JS.Math_abs c = c /\ (c < 0)%js = false) \/
  (JS.Math_abs c = (- c)%float /\ (0 < c)%js = false).
Proof.
  unfold JS.Math_abs, JS.ltb.
  destruct (Prim2SF c) as [s | s | | s m e] eqn:E.
  1, 2, 4: destruct s; [right | left]; split;
    try (apply Prim2SF_inj; rewrite ?abs_spec, ?opp_spec, E; reflexivity);
    rewrite ltb_spec, E; reflexivity.
  left. split.
  - apply Prim2SF_inj. rewrite abs_spec, E. reflexivity.
  - rewrite ltb_spec, E. reflexivity.
Qed.

(** ** The chain of tests is one rule *)

Lemma gtb_ltb (a b : float) : (a > b)%js = (b < a)%js.
Proof. reflexivity. Qed.

Lemma nan_compares_false (a b : float) :
  is_nan b = true ->
  (a < b)%js = false /\ (b < a)%js = false /\ (a < - b)%js = false.
Proof.
  intro N.
  assert (N' : is_nan (- b)%float = true).
  { apply is_nan_spec. rewrite opp_spec. apply is_nan_spec in N. now rewrite N. }
  repeat split.
  - apply nan_unordered. rewrite N. apply orb_true_r.
  - apply nan_unordered. rewrite N. reflexivity.
  - apply nan_unordered. rewrite N'. apply orb_true_r.
Qed.

(** The three tests of both analyses, [p] and [q] standing for the extra
    conditions on the moving-average trend. *)
Lemma chain_is_classify (threshold : Threshold) (c : float) (p q : bool) :
  usable threshold ->
  (if (c > strong threshold)%js && p then uptrend
   else if (c < - strong threshold)%js && q then downtrend
   else if (JS.Math_abs c > weak threshold)%js
        then (if (c > 0)%js then uptrend else downtrend)
        else sideways) = classify c (weak threshold).
Proof.
  destruct threshold as [s w]. unfold usable, classify. cbn [strong weak].
  rewrite !gtb_ltb.
  intros [[Hw Hs] | [Nw Ns]].
  - assert (H0s : (0 < s)%js = true) by exact (ltb_trans _ _ _ Hw Hs).
    destruct (abs_cases c) as [[-> Hn] | [-> Hp]].
    + assert (Bw : (c < - w)%js = false).
      { destruct (c < - w)%js eqn:B; [| reflexivity].
        assert (X : (- w < - 0)%js = true) by (rewrite opp_ltb; exact Hw).
        pose proof (ltb_trans _ _ _ B X) as Y. rewrite ltb_neg_zero in Y. congruence. }
      assert (Bs : (c < - s)%js = false).
      { destruct (c < - s)%js eqn:B; [| reflexivity].
        assert (X : (- s < - 0)%js = true) by (rewrite opp_ltb; exact H0s).
        pose proof (ltb_trans _ _ _ B X) as Y. rewrite ltb_neg_zero in Y. congruence. }
      rewrite Bw, Bs. cbn [andb].
      destruct (s < c)%js eqn:S.
      * rewrite (ltb_trans _ _ _ Hs S), (ltb_trans _ _ _ H0s S).
        destruct p; reflexivity.
      * cbn [andb]. destruct (w < c)%js eqn:W; [| reflexivity].
        now rewrite (ltb_trans _ _ _ Hw W).
    + assert (Aw : (w < c)%js = false).
      { destruct (w < c)%js eqn:B; [| reflexivity].
        pose proof (ltb_trans _ _ _ Hw B). congruence. }
      assert (As : (s < c)%js = false).
      { destruct (s < c)%js eqn:B; [| reflexivity].
        pose proof (ltb_trans _ _ _ H0s B). congruence. }
      rewrite Aw, As, Hp. cbn [andb].
      rewrite (ltb_opp_swap w c).
      destruct (c < - s)%js eqn:S.
      * assert (X : (- s < - w)%js = true) by (rewrite opp_ltb; exact Hs).
        rewrite (ltb_trans _ _ _ S X). destruct q; reflexivity.
      * reflexivity.
  - destruct (nan_compares_false c s Ns) as (_ & -> & ->).
    destruct (nan_compares_false c w Nw) as (_ & -> & ->).
    destruct (nan_compares_false (JS.Math_abs c) w Nw) as (_ & -> & _).
    reflexivity.
Qed.

Lemma trendThreshold_usable (timeframe : string) : usable (trendThreshold timeframe).
Proof.
  unfold trendThreshold.
  repeat match goal with
         | |- context [if ?b then _ else _] => destruct b
         end;
    (left; split; vm_compute; reflexivity) || (right; split; vm_compute; reflexivity).
Qed.

Lemma percentageThreshold_usable (timeframe : string) :
  usable (percentageThreshold timeframe).
Proof.
  unfold percentageThreshold.
  repeat match goal with
         | |- context [if ?b then _ else _] => destruct b
         end;
    (left; split; vm_compute; reflexivity) || (right; split; vm_compute; reflexivity).
Qed.

(** X11.  The label given by [analyzeTrend] follows one rule: on fewer than
    three prices it is [sideways]; otherwise it is [uptrend] exactly when the
    change from the first to the last price, in percent, is above the weak
    threshold of the timeframe, [downtrend] exactly when it is below minus
    that threshold, and [sideways] in every other case, a change that is NaN
    included.  The strong threshold, the moving-average trend and the
    volatility never change the label (they change the confidence).  The
    threshold is the one [analyzeTrend] selects for the timeframe; of the six
    labels the route passes, only ["1D"] and ["1W"] are in the table, and
    the other four are read with the daily thresholds. *)
Theorem analyzeTrend_label (host : Host) (historicalData : list float) (timeframe : string) :
  trend (analyzeTrend host historicalData timeframe) =
  if JS.length historicalData <? 3 then sideways
  else classify (totalChangeOf historicalData) (weak (trendThreshold timeframe)).
Proof.
  unfold analyzeTrend. destruct (JS.length historicalData <? 3); [reflexivity |].
  cbv zeta.
  rewrite <- (chain_is_classify (trendThreshold timeframe) (totalChangeOf historicalData)
                (avgTrendOf historicalData > weak (trendThreshold timeframe))%js
                (avgTrendOf historicalData < - weak (trendThreshold timeframe))%js
                (trendThreshold_usable timeframe)).
  unfold primaryTrend.
  repeat match goal with
         | |- context [if ?b then _ else _] => destruct b; cbn [trend andb]
         end; reflexivity.
Qed.

(** The weak thresholds of the six calls of [analyzeTrend] in the route. *)
Lemma route_thresholds :
  map (fun timeframe => weak (trendThreshold timeframe))
    ["45M"; "2H"; "4H"; "1D"; "3D"; "1W"]%string =
  [0.8; 0.8; 0.8; 0.8; 0.8; 2]%float.
Proof. reflexivity. Qed.

(** X12.  The label given by [analyzeTrendFromPercentage] follows the same
    rule: [uptrend] exactly when the percentage change is above the weak
    threshold of the timeframe, [downtrend] exactly when it is below minus
    that threshold, [sideways] otherwise; the strong threshold only changes
    the confidence. *)
Theorem analyzeTrendFromPercentage_label (host : Host) (percentageChange : float)
    (timeframe : string) :
  trend (analyzeTrendFromPercentage host percentageChange timeframe) =
  classify percentageChange (weak (percentageThreshold timeframe)).
Proof.
  unfold analyzeTrendFromPercentage. cbv zeta.
  rewrite <- (chain_is_classify (percentageThreshold timeframe) percentageChange true true
                (percentageThreshold_usable timeframe)).
  rewrite !andb_true_r.
  repeat match goal with
         | |- context [if ?b then _ else _] => destruct b; cbn [trend]
         end; reflexivity.
Qed.

(** * Extraction of the daily series *)

(** ** The order of strings and the sort *)

Lemma ascii_compare_refl (a : Ascii.ascii) : Ascii.compare a a = Eq.
Proof. unfold Ascii.compare. apply N.compare_refl. Qed.

Lemma string_compare_refl (s : string) : String.compare s s = Eq.
Proof. induction s as [| a s IH]; simpl; [reflexivity |]. now rewrite ascii_compare_refl. Qed.

Lemma string_lt_trans (a : string) :
  forall b c,
    String.compare a b = Lt -> String.compare b c = Lt -> String.compare a c = Lt.
Proof.
  induction a as [| x a IH]; intros [| y b] [| z c]; simpl; try discriminate; auto.
  destruct (Ascii.compare x y) eqn:E1; try discriminate;
    destruct (Ascii.compare y z) eqn:E2; try discriminate; intros H1 H2.
  - apply Ascii.compare_eq_iff in E1, E2. subst. rewrite ascii_compare_refl. eauto.
  - apply Ascii.compare_eq_iff in E1. subst. now rewrite E2.
  - apply Ascii.compare_eq_iff in E2. subst. now rewrite E1.
  - assert (E : Ascii.compare x z = Lt).
    { unfold Ascii.compare in *. rewrite N.compare_lt_iff in *. lia. }
    now rewrite E.
Qed.

Lemma notAfter_trans (a b c : string) : notAfter a b -> notAfter b c -> notAfter a c.
Proof.
  unfold notAfter, String.leb.
  destruct (String.compare a b) eqn:E1; try discriminate;
    destruct (String.compare b c) eqn:E2; try discriminate; intros _ _.
  - apply String.compare_eq_iff in E1, E2. subst. now rewrite string_compare_refl.
  - apply String.compare_eq_iff in E1. subst. now rewrite E2.
  - apply String.compare_eq_iff in E2. subst. now rewrite E1.
  - now rewrite (string_lt_trans _ _ _ E1 E2).
Qed.

Lemma notAfter_before (a b : string) : notAfter a b -> a <> b -> before a b.
Proof.
  unfold notAfter, before, String.leb, String.ltb.
  destruct (String.compare a b) eqn:E; try discriminate; try reflexivity.
  apply String.compare_eq_iff in E. congruence.
Qed.

Lemma insert_perm (s : string) (l : list string) : Permutation (insert s l) (s :: l).
Proof.
  induction l as [| x l IH]; simpl; [reflexivity |].
  destruct (String.leb s x); [reflexivity |].
  transitivity (x :: s :: l); [now constructor | apply perm_swap].
Qed.

Lemma sort_perm (l : list string) : Permutation (sort l) l.
Proof.
  induction l as [| x l IH]; simpl; [constructor |].
  transitivity (x :: sort l); [apply insert_perm | now constructor].
Qed.

Lemma insert_sorted (s : string) (l : list string) :
  StronglySorted notAfter l -> StronglySorted notAfter (insert s l).
Proof.
  induction 1 as [| x l Hl IH Hx]; simpl.
  - repeat constructor.
  - destruct (String.leb s x) eqn:E.
    + constructor; [now constructor |]. constructor; [exact E |].
      eapply Forall_impl; [| exact Hx]. intros y Hy. exact (notAfter_trans _ _ _ E Hy).
    + constructor; [exact IH |].
      apply (Permutation_Forall (Permutation_sym (insert_perm s l))).
      constructor; [| exact Hx].
      destruct (String.leb_total s x) as [T | T]; [congruence | exact T].
Qed.

Lemma sort_sorted (l : list string) : StronglySorted notAfter (sort l).
Proof.
  induction l as [| x l IH]; simpl; [constructor | now apply insert_sorted].
Qed.

Lemma sorted_app {A : Type} (R : A -> A -> Prop) (l1 l2 : list A) :
  StronglySorted R (l1 ++ l2) ->
  StronglySorted R l2 /\ forall x y, In x l1 -> In y l2 -> R x y.
Proof.
  induction l1 as [| a l1 IH]; simpl; intro H.
  - split; [exact H | intros x y []].
  - apply StronglySorted_inv in H. destruct H as [H Ha].
    destruct (IH H) as [H2 Hxy]. split; [exact H2 |].
    intros x y [<- | Hx] Hy; [| now apply Hxy].
    rewrite Forall_forall in Ha. apply Ha. apply in_or_app. now right.
Qed.

Lemma sorted_strict (l : list string) :
  StronglySorted notAfter l -> NoDup l -> StronglySorted before l.
Proof.
  induction 1 as [| x l Hl IH Hx]; intro N; [constructor |].
  inversion N as [| ? ? Hnin N']. subst. constructor; [now apply IH |].
  rewrite Forall_forall in *. intros y Hy.
  apply notAfter_before; [now apply Hx | congruence].
Qed.

(** ** The two extractions *)

Lemma lookup_In {V : Type} (key : string) (o : list (string * V)) :
  In key (keys o) -> exists v, lookup key o = Some v.
Proof.
  induction o as [| [k v] o IH]; simpl; [tauto |].
  intros [<- | H].
  - rewrite String.eqb_refl. eauto.
  - destruct (String.eqb key k); eauto.
Qed.

Lemma skipn_cons_nth {A : Type} (l : list A) :
  forall (i : nat) (x : A), nth_error l i = Some x -> skipn i l = x :: skipn (S i) l.
Proof.
  induction l as [| y l IH]; intros [| i] x E; simpl in *; try discriminate.
  - congruence.
  - now apply IH.
Qed.

Section Extraction.

Variable host : Host.
Variable timeSeries : TimeSeries.

Lemma extractLoop_spec (dates : list string) (n : nat) :
  forall (i : nat) (ohlcData : list OHLCData),
    (i + n <= List.length dates)%nat ->
    (forall d, In d dates -> In d (keys timeSeries)) ->
    exists bars,
      extractLoop host n (Z.of_nat i) dates timeSeries ohlcData = Return (ohlcData ++ bars) /\
      Forall2 (barOf host timeSeries) (firstn n (skipn i dates)) bars.
Proof.
  induction n as [| n IH]; intros i ohlcData Hn Hk.
  - exists []. simpl. rewrite app_nil_r. split; constructor.
  - cbn [extractLoop]. cbv zeta. rewrite index_of_nat.
    destruct (nth_error dates i) as [d |] eqn:E; [| apply nth_error_None in E; lia].
    destruct (lookup_In d timeSeries) as (day & Hd);
      [apply Hk; eapply nth_error_In; eauto |].
    unfold dayAt. rewrite Hd. cbn [deref bind].
    replace (Z.of_nat i + 1) with (Z.of_nat (S i)) by lia.
    destruct (IH (S i) (ohlcData ++ [dayBar host d day])) as (bars & -> & F);
      [lia | assumption |].
    exists (dayBar host d day :: bars). split; [now rewrite <- app_assoc |].
    rewrite (skipn_cons_nth _ _ _ E). cbn [firstn]. constructor; [| exact F].
    exists day. auto.
Qed.

Lemma closesOf_spec (dates : list string) :
  (forall d, In d dates -> In d (keys timeSeries)) ->
  exists bars,
    Forall2 (barOf host timeSeries) dates bars /\
    closesOf host timeSeries dates = Return (map close bars).
Proof.
  induction dates as [| d dates IH]; intro Hk.
  - exists []. split; constructor.
  - destruct IH as (bars & F & E); [intros; apply Hk; now right |].
    destruct (lookup_In d timeSeries) as (day & Hd); [apply Hk; now left |].
    exists (dayBar host d day :: bars). split.
    + constructor; [exists day; auto | exact F].
    + cbn [closesOf]. unfold dayAt. rewrite Hd, E. reflexivity.
Qed.

Lemma barOf_functional (dates : list string) :
  forall bars bars',
    Forall2 (barOf host timeSeries) dates bars ->
    Forall2 (barOf host timeSeries) dates bars' -> bars = bars'.
Proof.
  induction dates as [| d dates IH]; intros bars bars' F F';
    inversion F; inversion F'; subst; [reflexivity |].
  f_equal; [| now apply IH].
  repeat match goal with
         | H : barOf _ _ _ _ |- _ => destruct H as (? & ? & ?)
         end.
  congruence.
Qed.

Lemma barOf_times (dates : list string) :
  forall bars, Forall2 (barOf host timeSeries) dates bars -> map time bars = dates.
Proof.
  induction 1 as [| d bar dates bars (day & _ & ->) _ IH]; simpl; [reflexivity |].
  now rewrite IH.
Qed.

End Extraction.

Lemma Forall2_firstn {A B : Type} (R : A -> B -> Prop) (n : nat) :
  forall l l', Forall2 R l l' -> Forall2 R (firstn n l) (firstn n l').
Proof.
  induction n as [| n IH]; intros l l' F; [constructor |].
  destruct F; simpl; constructor; auto.
Qed.

Lemma Forall2_rev {A B : Type} (R : A -> B -> Prop) :
  forall l l', Forall2 R l l' -> Forall2 R (rev l) (rev l').
Proof.
  induction 1; simpl; [constructor |].
  apply Forall2_app; [assumption | repeat constructor; assumption].
Qed.

Lemma rev_firstn {A : Type} (l : list A) (n : nat) :
  (n <= List.length l)%nat -> rev (firstn n l) = skipn (List.length l - n) (rev l).
Proof.
  intro H. rewrite skipn_rev. do 2 f_equal. lia.
Qed.

(** The dates the loop walks: the keys of the series, latest first. *)
Lemma dates_are_keys (timeSeries : TimeSeries) (d : string) :
  In d (rev (sort (keys timeSeries))) -> In d (keys timeSeries).
Proof.
  intro H. apply in_rev in H. exact (Permutation_in _ (sort_perm _) H).
Qed.

Lemma extractOHLCData_series (host : Host) (timeSeriesData : option Payload) (days : Z) :
  extractOHLCData host timeSeriesData days =
  extractOHLCData host (Some {| timeSeriesDaily := Some (seriesOf timeSeriesData) |}) days.
Proof.
  assert (E : Z.to_nat (Z.min days (JS.length (rev (sort (@keys DayData []))))) = 0%nat)
    by (cbn; lia).
  destruct timeSeriesData as [[[ts |]] |]; try reflexivity;
    cbn [extractOHLCData timeSeriesDaily seriesOf]; now rewrite E.
Qed.

Lemma extractHistoricalPrices_series (host : Host) (timeSeriesData : option Payload)
    (days : Z) :
  extractHistoricalPrices host timeSeriesData days =
  extractHistoricalPrices host
    (Some {| timeSeriesDaily := Some (seriesOf timeSeriesData) |}) days.
Proof.
  assert (E : slice2 (rev (sort (@keys DayData []))) 0 days = [])
    by (unfold slice2; cbn [keys map sort fold_right rev]; now rewrite skipn_nil, firstn_nil).
  destruct timeSeriesData as [[[ts |]] |]; try reflexivity;
    cbn [extractHistoricalPrices timeSeriesDaily seriesOf]; now rewrite E.
Qed.

(** What [extractOHLCData] returns, in terms of the sorted keys. *)
Lemma extractOHLCData_bars (host : Host) (timeSeriesData : option Payload) (days : Z) :
  let sorted := sort (keys (seriesOf timeSeriesData)) in
  let n := Z.to_nat (Z.min days (JS.length sorted)) in
  exists bars,
    extractOHLCData host timeSeriesData days = Return bars /\
    Forall2 (barOf host (seriesOf timeSeriesData))
      (skipn (List.length sorted - n) sorted) bars.
Proof.
  cbv zeta. rewrite extractOHLCData_series. cbn [extractOHLCData timeSeriesDaily].
  set (ts := seriesOf timeSeriesData). set (sorted := sort (keys ts)).
  assert (Lr : JS.length (rev sorted) = JS.length sorted)
    by (unfold JS.length; now rewrite length_rev).
  rewrite Lr.
  set (n := Z.to_nat (Z.min days (JS.length sorted))).
  destruct (extractLoop_spec host ts (rev sorted) n 0 []) as (bars & E & F).
  - rewrite length_rev. unfold n, JS.length. lia.
  - intros d Hd. now apply dates_are_keys.
  - change (Z.of_nat 0) with 0 in E. rewrite E. cbn [bind app].
    exists (rev bars). split; [reflexivity |].
    apply Forall2_rev in F. cbn [skipn] in F.
    rewrite rev_firstn, length_rev, rev_involutive in F;
      [exact F | rewrite length_rev; unfold n, JS.length; lia].
Qed.

(** X13.  [extractOHLCData] never fails on a series whose days are objects:
    it returns [min(days, number of dates)] bars (none for a negative [days]
    or a missing series), each built from the entry of its own date.  When
    the dates are ASCII strings, as the dates of the provider are, the bars
    are in strictly ascending order of date, and they are the latest dates
    of the series: every date left out is before every date returned. *)
Theorem extractOHLCData_latest_ascending (host : Host) (timeSeriesData : option Payload)
    (days : Z) :
  NoDup (keys (seriesOf timeSeriesData)) ->
  exists bars,
    extractOHLCData host timeSeriesData days = Return bars /\
    JS.length bars = Z.max 0 (Z.min days (JS.length (seriesOf timeSeriesData))) /\
    Forall (fun bar => barOf host (seriesOf timeSeriesData) (time bar) bar) bars /\
    (Forall (fun date => isASCII date = true) (keys (seriesOf timeSeriesData)) ->
     StronglySorted before (map time bars) /\
     (forall date bar,
         In date (keys (seriesOf timeSeriesData)) -> ~ In date (map time bars) ->
         In bar bars -> before date (time bar))).
Proof.
  intro N. destruct (extractOHLCData_bars host timeSeriesData days) as (bars & E & F).
  cbv zeta in F.
  set (ts := seriesOf timeSeriesData) in *. set (sorted := sort (keys ts)) in *.
  set (k := (List.length sorted - Z.to_nat (Z.min days (JS.length sorted)))%nat) in *.
  assert (Ls : List.length sorted = List.length ts).
  { unfold sorted. rewrite (Permutation_length (sort_perm _)). unfold keys.
    apply length_map. }
  assert (S : StronglySorted before sorted).
  { apply sorted_strict; [apply sort_sorted |].
    exact (Permutation_NoDup (Permutation_sym (sort_perm _)) N). }
  pose proof (barOf_times _ _ _ _ F) as T.
  rewrite <- (firstn_skipn k sorted) in S. apply sorted_app in S. destruct S as [S2 S12].
  exists bars. split; [exact E |]. split; [| split; [| intros _; split]].
  - apply Forall2_length in F. rewrite length_skipn in F.
    unfold JS.length in *. lia.
  - clear - F. induction F as [| d bar dates bars' (day & Hd & ->) _ IH];
      constructor; [exists day; auto | exact IH].
  - now rewrite T.
  - intros date bar Hk Hout Hin. apply S12.
    + rewrite T in Hout.
      assert (Hs : In date sorted)
        by exact (Permutation_in _ (Permutation_sym (sort_perm _)) Hk).
      rewrite <- (firstn_skipn k sorted) in Hs. apply in_app_or in Hs. tauto.
    + rewrite <- T. now apply in_map.
Qed.

Lemma extractOHLCData_latest_ascending_witness :
  exists bars,
    extractOHLCData Sample2.host Sample2.payload 2 = Return bars /\
    map time bars = ["2024-01-02"; "2024-01-03"]%string /\
    StronglySorted before (map time bars).
Proof.
  destruct (extractOHLCData_latest_ascending Sample2.host Sample2.payload 2)
    as (bars & E & _ & _ & S).
  - repeat constructor; simpl; intuition discriminate.
  - exists bars. split; [exact E |]. split.
    + vm_compute in E. injection E as <-. reflexivity.
    + apply S. repeat constructor.
Defined.

(** X14.  The historical prices are the closes of the bars: for
    [0 <= days <= days'], [extractHistoricalPrices] with [days] returns the
    closes of the last [min(days, length)] bars that [extractOHLCData]
    returns with [days'], in the same order.  In particular, with the same
    [days] the prices are the closes of all the bars, and the last price is
    the close of the last bar. *)
Theorem prices_are_closes_of_bars (host : Host) (timeSeriesData : option Payload)
    (days days' : Z) :
  0 <= days <= days' ->
  exists bars,
    extractOHLCData host timeSeriesData days' = Return bars /\
    extractHistoricalPrices host timeSeriesData days =
      Return (map close (lastBars (Z.min days (JS.length bars)) bars)).
Proof.
  intro H. destruct (extractOHLCData_bars host timeSeriesData days') as (bars & E & F).
  destruct (extractOHLCData_bars host timeSeriesData days) as (bars1 & _ & F1).
  cbv zeta in F, F1.
  exists bars. split; [exact E |].
  rewrite extractHistoricalPrices_series.
  cbn [extractHistoricalPrices timeSeriesDaily].
  set (ts := seriesOf timeSeriesData) in *. set (sorted := sort (keys ts)) in *.
  set (n := Z.to_nat (Z.min days (JS.length sorted))) in *.
  set (n' := Z.to_nat (Z.min days' (JS.length sorted))) in *.
  assert (Hn : (n <= n')%nat /\ (n' <= List.length sorted)%nat)
    by (unfold n, n', JS.length; lia).
  assert (Sl : slice2 (rev sorted) 0 days = firstn n (rev sorted)).
  { unfold slice2. cbn [Z.ltb Z.compare].
    destruct (Z.ltb_spec days 0); [lia |].
    assert (Lr : JS.length (rev sorted) = JS.length sorted)
      by (unfold JS.length; now rewrite length_rev).
    rewrite Lr. cbn [skipn Z.to_nat].
    rewrite (Z.min_l 0) by (unfold JS.length; lia). cbn [Z.to_nat skipn].
    rewrite Z.sub_0_r. reflexivity. }
  rewrite Sl.
  destruct (closesOf_spec host ts (firstn n (rev sorted))) as (rbars & Fr & ->).
  { intros d Hd. apply dates_are_keys. change (In d (rev sorted)).
    rewrite <- (firstn_skipn n (rev sorted)). apply in_or_app. now left. }
  cbn [bind]. f_equal. rewrite <- map_rev. f_equal.
  apply Forall2_rev in Fr.
  rewrite rev_firstn, length_rev, rev_involutive in Fr by (rewrite length_rev; lia).
  rewrite (barOf_functional _ _ _ _ _ Fr F1).
  pose proof (Forall2_length F) as Lb. rewrite length_skipn in Lb.
  unfold lastBars.
  replace (Z.to_nat (JS.length bars - Z.min days (JS.length bars)))
    with (n' - n)%nat by (unfold n, n', JS.length in *; lia).
  apply (barOf_functional host ts (skipn (List.length sorted - n) sorted)); [exact F1 |].
  replace (skipn (List.length sorted - n) sorted)
    with (skipn (n' - n) (skipn (List.length sorted - n') sorted)).
  - clear - F. revert F. generalize (skipn (List.length sorted - n') sorted).
    generalize (n' - n)%nat. intros m l. revert l bars.
    induction m as [| m IH]; intros l bars F; [exact F |].
    destruct F; simpl; [constructor | now apply IH].
  - rewrite skipn_skipn. f_equal. lia.
Qed.

Lemma prices_are_closes_of_bars_witness :
  exists bars,
    extractOHLCData Sample2.host Sample2.payload 60 = Return bars /\
    extractHistoricalPrices Sample2.host Sample2.payload 30 = Return (map close bars) /\
    map close bars = [9; 10; 11]%float.
Proof.
  destruct (prices_are_closes_of_bars Sample2.host Sample2.payload 30 60)
    as (bars & E & P); [lia |].
  exists bars. split; [exact E |].
  vm_compute in E. injection E as <-. split; [exact P | reflexivity].
Defined.

(** ** The order of the provider's entries *)

Lemma sorted_perm_eq (l : list string) :
  forall l',
    StronglySorted notAfter l -> StronglySorted notAfter l' -> Permutation l l' -> l = l'.
Proof.
  induction l as [| x l IH]; intros l' S S' P.
  - apply Permutation_nil in P. now subst.
  - destruct l' as [| y l']; [apply Permutation_sym, Permutation_nil in P; discriminate |].
    apply StronglySorted_inv in S. destruct S as [S Hx].
    apply StronglySorted_inv in S'. destruct S' as [S' Hy].
    rewrite Forall_forall in Hx, Hy.
    assert (E : x = y).
    { assert (Ix : In x (y :: l')) by (apply (Permutation_in _ P); now left).
      assert (Iy : In y (x :: l))
        by (apply (Permutation_in _ (Permutation_sym P)); now left).
      destruct Ix as [-> | Ix]; [reflexivity |].
      destruct Iy as [-> | Iy]; [reflexivity |].
      apply String.leb_antisym; [now apply Hx | now apply Hy]. }
    subst y. f_equal. apply IH; try assumption.
    exact (Permutation_cons_inv P).
Qed.

Lemma lookup_notin {V : Type} (key : string) (o : list (string * V)) :
  ~ In key (keys o) -> lookup key o = None.
Proof.
  induction o as [| [k v] o IH]; simpl; [reflexivity |].
  intro H. destruct (String.eqb_spec key k) as [-> | _]; [tauto |].
  apply IH. tauto.
Qed.

Lemma lookup_perm {V : Type} (o o' : list (string * V)) :
  Permutation o o' -> NoDup (keys o) -> forall key, lookup key o = lookup key o'.
Proof.
  induction 1 as [| [k v] o o' P IH | [k1 v1] [k2 v2] o | o o' o'' P IH P' IH'];
    intros N key.
  - reflexivity.
  - simpl. inversion N. subst. destruct (String.eqb key k); auto.
  - simpl. simpl in N. inversion N as [| ? ? Hn N']. subst.
    destruct (String.eqb_spec key k1) as [E1 | _], (String.eqb_spec key k2) as [E2 | _];
      try reflexivity.
    exfalso. apply Hn. left. congruence.
  - rewrite IH by assumption. apply IH'.
    unfold keys in *. exact (Permutation_NoDup (Permutation_map fst P) N).
Qed.

(** X15.  The extraction does not depend on the order in which the provider
    lists the dates: two series with the same entries in different orders
    give the same bars and the same historical prices. *)
Theorem extraction_ignores_order (host : Host) (timeSeries timeSeries' : TimeSeries)
    (days : Z) :
  Permutation timeSeries timeSeries' ->
  NoDup (keys timeSeries) ->
  extractOHLCData host (Some {| timeSeriesDaily := Some timeSeries |}) days =
  extractOHLCData host (Some {| timeSeriesDaily := Some timeSeries' |}) days /\
  extractHistoricalPrices host (Some {| timeSeriesDaily := Some timeSeries |}) days =
  extractHistoricalPrices host (Some {| timeSeriesDaily := Some timeSeries' |}) days.
Proof.
  intros P N.
  assert (S : sort (keys timeSeries) = sort (keys timeSeries')).
  { apply sorted_perm_eq; try apply sort_sorted.
    transitivity (keys timeSeries); [apply sort_perm |].
    transitivity (keys timeSeries'); [exact (Permutation_map fst P) |].
    apply Permutation_sym, sort_perm. }
  assert (L : forall key, lookup key timeSeries = lookup key timeSeries')
    by (apply lookup_perm; assumption).
  assert (D : forall date, dayAt timeSeries date = dayAt timeSeries' date)
    by (intro date; unfold dayAt; now rewrite L).
  assert (EL : forall n i dates acc,
             extractLoop host n i dates timeSeries acc =
             extractLoop host n i dates timeSeries' acc).
  { induction n as [| n IH]; intros i dates acc; [reflexivity |].
    cbn [extractLoop]. cbv zeta. rewrite D.
    destruct (dayAt timeSeries' (JS.index dates i)); simpl; [apply IH | reflexivity]. }
  assert (CL : forall dates,
             closesOf host timeSeries dates = closesOf host timeSeries' dates).
  { induction dates as [| d dates IH]; [reflexivity |].
    cbn [closesOf]. rewrite D, IH. reflexivity. }
  split.
  - cbn [extractOHLCData timeSeriesDaily]. now rewrite S, EL.
  - cbn [extractHistoricalPrices timeSeriesDaily]. now rewrite S, CL.
Qed.

Lemma extraction_ignores_order_witness :
  extractOHLCData Sample2.host (Some {| timeSeriesDaily := Some Sample2.series |}) 2 =
  extractOHLCData Sample2.host
    (Some {| timeSeriesDaily := Some (rev Sample2.series) |}) 2.
Proof.
  refine (proj1 (extraction_ignores_order Sample2.host Sample2.series
                   (rev Sample2.series) 2 _ _)).
  - apply Permutation_rev.
  - repeat constructor; simpl; intuition discriminate.
Defined.

(** * The route, end to end *)

(** X16.  In the route, the bars of a stock are extracted with [days = 60]
    and handed to the orchestrator.  The extraction returns, and whether a
    timeframe is left without a Supertrend result depends only on the number
    of dates in the stock's series: every timeframe below 15 dates, the
    weekly one alone at exactly 15, none from 16 dates on. *)
Theorem route_supertrend_availability (host : Host) (timeSeriesData : option Payload)
    (timeframe : Timeframe) :
  exists ohlcData,
    extractOHLCData host timeSeriesData 60 = Return ohlcData /\
    (calculateSupertrendForTimeframes ohlcData timeframe = None <->
     JS.length (seriesOf timeSeriesData) < 15 \/
     (timeframe = TF_1W /\ JS.length (seriesOf timeSeriesData) = 15)).
Proof.
  destruct (extractOHLCData_bars host timeSeriesData 60) as (bars & E & F).
  cbv zeta in F. exists bars. split; [exact E |].
  apply Forall2_length in F. rewrite length_skipn in F.
  assert (L : List.length (sort (keys (seriesOf timeSeriesData))) =
              List.length (seriesOf timeSeriesData)).
  { rewrite (Permutation_length (sort_perm _)). unfold keys. apply length_map. }
  assert (B : JS.length bars = Z.min 60 (JS.length (seriesOf timeSeriesData)))
    by (unfold JS.length in *; lia).
  unfold calculateSupertrendForTimeframes.
  destruct (Z.ltb_spec (JS.length bars) 15) as [Hlt | Hge].
  - split; [left; lia | reflexivity].
  - rewrite forEach_entry, entry_present by assumption.
    destruct timeframe; simpl; split; intro H;
      try lia; try (right; split; [reflexivity | lia]);
      try (destruct H as [H | [H _]]; [lia | discriminate]).
Qed.

(** * The dashboard *)

Lemma latest_is_a_result (ohlcData : list OHLCData) (config : option SupertrendConfig)
    (r : SupertrendResult) :
  getLatestSupertrendSignal ohlcData config = Some r ->
  exists results,
    calculateSupertrend ohlcData (orDefault config) = Return results /\ In r results.
Proof.
  unfold getLatestSupertrendSignal.
  destruct (calculateSupertrend ohlcData (orDefault config)) as [results | e];
    [| discriminate].
  destruct (0 <? JS.length results); [| discriminate].
  unfold JS.index. destruct (JS.length results - 1 <? 0); [discriminate |].
  intro H. exists results. split; [reflexivity |]. eapply nth_error_In. exact H.
Qed.

(** Every result the orchestrator records is a result of the engine on the
    window of its timeframe. *)
Lemma orchestrator_entry_is_result (ohlcData : list OHLCData) (timeframe : Timeframe)
    (r : SupertrendResult) :
  calculateSupertrendForTimeframes ohlcData timeframe = Some r ->
  exists results,
    calculateSupertrend (window timeframe ohlcData) (configs timeframe) = Return results /\
    In r results.
Proof.
  unfold calculateSupertrendForTimeframes.
  destruct (Z.ltb_spec (JS.length ohlcData) 15) as [? | Hge]; [discriminate |].
  rewrite forEach_entry. unfold entry.
  destruct (slice_window timeframe ohlcData) as [-> _]; [lia |].
  destruct (_ >=? _); [| discriminate].
  intro H. exact (latest_is_a_result _ _ _ H).
Qed.

(** X17.  What the dashboard shows for a timeframe agrees with the engine:
    a timeframe without a result is shown gray as ["No Data"]; a timeframe
    with a result is shown green when its direction is [up] and red when it
    is [down], never gray, and it is labelled ["BUY"] exactly on a [buy]
    signal and ["SELL"] exactly on a [sell] signal. *)
Theorem display_follows_direction (ohlcData : list OHLCData) (timeframe : Timeframe) :
  let shown := getSupertrendDisplay (calculateSupertrendForTimeframes ohlcData timeframe) in
  match calculateSupertrendForTimeframes ohlcData timeframe with
  | None => colorScheme shown = "gray"%string /\ label shown = "No Data"%string
  | Some r =>
      colorScheme shown = directionColour (direction r) /\
      (label shown = "BUY"%string <-> signal r = buy) /\
      (label shown = "SELL"%string <-> signal r = sell)
  end.
Proof.
  cbv zeta.
  destruct (calculateSupertrendForTimeframes ohlcData timeframe) as [r |] eqn:E;
    [| split; reflexivity].
  destruct (orchestrator_entry_is_result _ _ _ E) as (results & H & Hin).
  destruct (result_decided _ _ _ _ H Hin) as (b & c & h & D).
  destruct (decide_outcome _ _ _ _ _ _ _ _ D) as (_ & Hbuy & Hsell).
  unfold getSupertrendDisplay.
  destruct (signal r), (direction r); cbn [colorScheme label directionColour];
    repeat split; intros; try reflexivity; try discriminate;
    try (specialize (Hbuy eq_refl); discriminate);
    try (specialize (Hsell eq_refl); discriminate).
Qed.

(** * The confidence of the trend analyses

    The confidence is built from sums, differences and products of binary64
    numbers; its bounds follow from the rounding of these operations, which
    never moves a result across a number of the format. *)

(** ** Rounding to the format, from below and from above *)

Lemma bounded_shape (mx : positive) (ex : Z) :
  bounded prec emax mx ex = true ->
  fexp64 (Zpos (digits2_pos mx) + ex) = ex /\ -1074 <= ex <= 971 /\
  (-1074 < ex -> 4503599627370496 <= Zpos mx).
Proof.
  intro B. destruct (bounded_facts mx ex B) as [C E].
  split; [assumption |]. split; [unfold fexp64 in C; lia |].
  intro H. destruct (digits2_pos_bounds mx) as [L _].
  assert (D : Zpos (digits2_pos mx) = 53) by (unfold fexp64 in C; lia).
  rewrite D in L. exact L.
Qed.

Lemma shifted_nonneg (a e : Z) : 0 <= a -> 0 <= fst (shifted a e).
Proof.
  intro H. unfold shifted. cbn [fst].
  destruct (Z.ltb_spec 0 (fexp64 (Zdigits2 a + e) - e)); [| assumption].
  apply Z.div_pos; [assumption | apply Z.pow_pos_nonneg; lia].
Qed.

(** A mantissa that has passed the first shift has at most 53 bits. *)
Lemma shifted_below (a e : Z) : 0 <= a -> fst (shifted a e) < 9007199254740992.
Proof.
  intro H. unfold shifted. cbn [fst]. set (s := fexp64 (Zdigits2 a + e) - e).
  pose proof (Zdigits2_upper a H) as U.
  assert (D : 0 <= Zdigits2 a) by (destruct a; simpl; lia).
  destruct (Z.ltb_spec 0 s) as [Hs | Hs].
  - assert (Hd : Zdigits2 a <= s + 53) by (unfold s, fexp64; lia).
    apply Z.div_lt_upper_bound; [apply Z.pow_pos_nonneg; lia |].
    change 9007199254740992 with (2 ^ 53). rewrite <- Z.pow_add_r by lia.
    eapply Z.lt_le_trans; [exact U |]. apply Z.pow_le_mono_r; lia.
  - assert (Hd : Zdigits2 a <= 53) by (unfold s, fexp64 in Hs; lia).
    eapply Z.lt_le_trans; [exact U |].
    change 9007199254740992 with (2 ^ 53). apply Z.pow_le_mono_r; lia.
Qed.

(** Rounding a value that is at least a number of the format gives at least
    that number. *)
Lemma round_ge (mx : positive) (ex M e : Z) :
  bounded prec emax mx ex = true ->
  e <= ex -> Zpos mx * 2 ^ (ex - e) <= M ->
  SFleb (S754_finite false mx ex) (binary_round_aux prec emax false M e loc_Exact) = true.
Proof.
  intros B He HM. apply bounded_shape in B. destruct B as (C & Bex & _).
  assert (P : 0 < 2 ^ (ex - e)) by (apply Z.pow_pos_nonneg; lia).
  assert (Mpos : 0 < M) by nia.
  destruct (binary_round_aux_spec false M e) as (r & Hr & ->); [lia |].
  set (d := Zpos (digits2_pos mx)) in *.
  destruct (digits2_pos_bounds mx) as [Dlo _]. fold d in Dlo.
  assert (HD : d - 1 + (ex - e) < Zdigits2 M).
  { apply Zdigits2_gt; [lia |]. rewrite Z.pow_add_r by lia. nia. }
  unfold shifted in Hr at 1 2. cbn [fst snd] in Hr.
  remember (shifted M e) as sh eqn:Esh. unfold shifted in Esh.
  set (s1 := fexp64 (Zdigits2 M + e) - e) in *.
  assert (Hs1 : ex - e <= s1) by (unfold s1, fexp64 in *; lia).
  subst sh. cbn [fst snd].
  set (m1 := if 0 <? s1 then M / 2 ^ s1 else M) in *.
  set (e1 := e + Z.max s1 0) in *.
  assert (He1 : ex <= e1 /\ -1074 <= e1) by (unfold e1; lia).
  assert (Hm1 : 0 < m1 /\ (e1 = ex -> Zpos mx <= m1)).
  { unfold m1. destruct (Z.ltb_spec 0 s1) as [Hs | Hs].
    - assert (P1 : 0 < 2 ^ s1) by (apply Z.pow_pos_nonneg; lia).
      destruct (Z.eq_dec s1 (ex - e)) as [E | N].
      + rewrite E. assert (Q : Zpos mx <= M / 2 ^ (ex - e))
          by (apply Z.div_le_lower_bound; lia).
        split; [lia | intros _; exact Q].
      + assert (E : s1 = Zdigits2 M - 53) by (unfold s1, fexp64 in *; lia).
        pose proof (Zdigits2_lower M Mpos) as L.
        assert (Q : 2 ^ s1 * 2 ^ 52 <= M).
        { rewrite <- Z.pow_add_r by lia.
          replace (s1 + 52) with (Zdigits2 M - 1) by lia. exact L. }
        pose proof (Z.div_le_lower_bound M (2 ^ s1) (2 ^ 52) P1 Q) as R.
        change (2 ^ 52) with 4503599627370496 in R.
        split; [lia | unfold e1; lia].
    - assert (E : ex - e = 0) by lia. rewrite E in HM. change (2 ^ 0) with 1 in HM.
      split; [lia | intros _; lia]. }
  destruct Hm1 as [Hpos Hsame].
  assert (Hrpos : 0 < r) by lia.
  pose proof (shifted_positive r e1 Hrpos (proj2 He1)) as H2.
  apply finite_leb_rounded; [assumption |].
  unfold shifted in *. cbn [fst snd] in *.
  set (s2 := fexp64 (Zdigits2 r + e1) - e1) in *.
  destruct (Z.ltb_spec 0 s2) as [Hs2 | Hs2].
  - left. lia.
  - rewrite Z.max_r by lia.
    destruct (Z.eq_dec e1 ex) as [E | N]; [right | left; lia].
    split; [lia |]. specialize (Hsame E). lia.
Qed.

(** Rounding a value that is below a number of the format gives at most
    that number. *)
Lemma round_le (mx : positive) (ex M e : Z) :
  bounded prec emax mx ex = true ->
  e <= ex -> 0 <= M < Zpos mx * 2 ^ (ex - e) ->
  SFleb (binary_round_aux prec emax false M e loc_Exact) (S754_finite false mx ex) = true.
Proof.
  intros B He HM. apply bounded_shape in B. destruct B as (C & Bex & Bnorm).
  assert (P : 0 < 2 ^ (ex - e)) by (apply Z.pow_pos_nonneg; lia).
  destruct (binary_round_aux_spec false M e) as (r & Hr & ->); [lia |].
  set (d := Zpos (digits2_pos mx)) in *.
  destruct (digits2_pos_bounds mx) as [_ Dhi]. fold d in Dhi.
  assert (HD : Zdigits2 M <= d + (ex - e)).
  { apply Zdigits2_le; [lia |]. rewrite Z.pow_add_r by lia. nia. }
  pose proof (shifted_below M e (proj1 HM)) as Hb.
  pose proof (shifted_nonneg M e (proj1 HM)) as Hn.
  unfold shifted in Hr at 1 2. cbn [fst snd] in Hr.
  remember (shifted M e) as sh eqn:Esh. unfold shifted in Esh.
  set (s1 := fexp64 (Zdigits2 M + e) - e) in *.
  assert (Hs1 : s1 <= ex - e /\ -1074 <= e + s1) by (unfold s1, fexp64 in *; lia).
  subst sh. cbn [fst snd] in *.
  set (m1 := if 0 <? s1 then M / 2 ^ s1 else M) in *.
  set (e1 := e + Z.max s1 0) in *.
  assert (He1 : e1 <= ex /\ -1074 <= e1) by (unfold e1; lia).
  assert (F : 0 <= fst (shifted r e1) /\
              (snd (shifted r e1) < ex \/
               (snd (shifted r e1) = ex /\ fst (shifted r e1) <= Zpos mx))).
  { unfold shifted. cbn [fst snd].
    set (s2 := fexp64 (Zdigits2 r + e1) - e1).
    destruct (Z.eq_dec e1 ex) as [E | N].
    - (* same exponent: the mantissa is below [mx] before rounding *)
      assert (Hlt : m1 < Zpos mx).
      { unfold m1. destruct (Z.ltb_spec 0 s1) as [Hs | Hs].
        - assert (E1 : s1 = ex - e) by (unfold e1 in E; lia).
          rewrite E1. apply Z.div_lt_upper_bound; lia.
        - assert (E1 : ex - e = 0) by (unfold e1 in E; lia).
          rewrite E1 in HM. change (2 ^ 0) with 1 in HM. lia. }
      assert (Hd : Zdigits2 r <= d) by (apply Zdigits2_le; lia).
      assert (Hs2 : s2 <= 0) by (unfold s2, fexp64 in *; lia).
      destruct (Z.ltb_spec 0 s2); [lia |].
      rewrite Z.max_r by lia. lia.
    - (* a lower exponent, unless rounding carried into the next binade *)
      assert (Hx : 4503599627370496 <= Zpos mx) by (apply Bnorm; lia).
      destruct (Z.eq_dec r 9007199254740992) as [Er | Nr].
      + subst r. unfold s2. change (Zdigits2 9007199254740992) with 54.
        unfold fexp64 in *.
        replace (Z.max (54 + e1 - 53) (-1074) - e1) with 1 by lia.
        change (0 <? 1) with true. cbv iota.
        change (9007199254740992 / 2 ^ 1) with 4503599627370496. lia.
      + assert (Hd : Zdigits2 r <= 53).
        { apply Zdigits2_le; [lia |]. change (2 ^ 53) with 9007199254740992. lia. }
        assert (Hs2 : s2 <= 0) by (unfold s2, fexp64 in *; lia).
        destruct (Z.ltb_spec 0 s2); [lia |].
        rewrite Z.max_r by lia. lia. }
  destruct F as [F0 F1].
  apply rounded_leb_finite; [assumption | | assumption].
  change (emax - prec) with 971. lia.
Qed.

Lemma iter_xO (mx d : positive) : Zpos (Pos.iter xO mx d) = Zpos mx * 2 ^ Zpos d.
Proof.
  induction d as [| d IH] using Pos.peano_ind.
  - simpl. lia.
  - rewrite Pos.iter_succ, Pos2Z.inj_xO, IH, Pos2Z.inj_succ, Z.pow_succ_r by lia. lia.
Qed.

(** [shl_align] lowers the exponent and keeps the value. *)
Lemma shl_align_spec (mx : positive) (ex ex' : Z) :
  snd (shl_align mx ex ex') <= ex /\
  (ex' <= ex -> snd (shl_align mx ex ex') = ex') /\
  Zpos (fst (shl_align mx ex ex')) = Zpos mx * 2 ^ (ex - snd (shl_align mx ex ex')).
Proof.
  unfold shl_align. destruct (ex' - ex) as [| d | d] eqn:E; cbn [fst snd].
  - rewrite Z.sub_diag. split; [lia |]. split; lia.
  - rewrite Z.sub_diag. split; [lia |]. split; lia.
  - rewrite iter_xO. replace (ex - ex') with (Zpos d) by lia. split; [lia |]. split; lia.
Qed.

Lemma binary_round_ge (mx M : positive) (ex e : Z) :
  bounded prec emax mx ex = true ->
  e <= ex -> Zpos mx * 2 ^ (ex - e) <= Zpos M ->
  SFleb (S754_finite false mx ex) (binary_round prec emax false M e) = true.
Proof.
  intros B He HM. unfold binary_round.
  destruct (shl_align_spec M e (fexp prec emax (Zpos (digits2_pos M) + e))) as (H1 & _ & H2).
  destruct (shl_align M e (fexp prec emax (Zpos (digits2_pos M) + e))) as [mz ez].
  cbn [fst snd] in H1, H2.
  apply round_ge; [assumption | lia |].
  rewrite H2. replace (ex - ez) with ((ex - e) + (e - ez)) by lia.
  rewrite Z.pow_add_r by lia.
  assert (0 < 2 ^ (e - ez)) by (apply Z.pow_pos_nonneg; lia). nia.
Qed.

Lemma binary_round_le (mx M : positive) (ex e : Z) :
  bounded prec emax mx ex = true ->
  e <= ex -> Zpos M < Zpos mx * 2 ^ (ex - e) ->
  SFleb (binary_round prec emax false M e) (S754_finite false mx ex) = true.
Proof.
  intros B He HM. unfold binary_round.
  destruct (shl_align_spec M e (fexp prec emax (Zpos (digits2_pos M) + e))) as (H1 & _ & H2).
  destruct (shl_align M e (fexp prec emax (Zpos (digits2_pos M) + e))) as [mz ez].
  cbn [fst snd] in H1, H2.
  apply round_le; [assumption | lia |].
  rewrite H2. replace (ex - ez) with ((ex - e) + (e - ez)) by lia.
  rewrite Z.pow_add_r by lia.
  assert (0 < 2 ^ (e - ez)) by (apply Z.pow_pos_nonneg; lia). nia.
Qed.

(** The sign of a rounded value is the sign given. *)
Lemma binary_round_aux_sign (sx : bool) (M e : Z) :
  0 <= M ->
  (exists s', binary_round_aux prec emax sx M e loc_Exact = S754_zero s' /\ s' = sx) \/
  binary_round_aux prec emax sx M e loc_Exact = S754_infinity sx \/
  exists m' e', binary_round_aux prec emax sx M e loc_Exact = S754_finite sx m' e'.
Proof.
  intro H. destruct (binary_round_aux_spec sx M e H) as (r & Hr & ->).
  pose proof (shifted_nonneg M e H) as H1.
  pose proof (shifted_nonneg r (snd (shifted M e))) as H2.
  unfold rounded. destruct (fst (shifted r (snd (shifted M e)))) as [| p | p].
  - left. eauto.
  - destruct (_ <=? _); [right; right; eauto | right; left; reflexivity].
  - lia.
Qed.

Lemma binary_round_sign (sx : bool) (M : positive) (e : Z) :
  (exists s', binary_round prec emax sx M e = S754_zero s' /\ s' = sx) \/
  binary_round prec emax sx M e = S754_infinity sx \/
  exists m' e', binary_round prec emax sx M e = S754_finite sx m' e'.
Proof.
  unfold binary_round.
  destruct (shl_align M e (fexp prec emax (Zpos (digits2_pos M) + e))) as [mz ez].
  apply binary_round_aux_sign. lia.
Qed.

(** ** Sums, differences and products *)

Lemma SFleb_refl_finite (s : bool) (m : positive) (e : Z) :
  SFleb (S754_finite s m e) (S754_finite s m e) = true.
Proof.
  unfold SFleb, SFcompare. rewrite Z.compare_refl, Pos.compare_cont_refl.
  destruct s; reflexivity.
Qed.

(** Adding a number that is not negative does not decrease a number that is
    not negative. *)
Lemma add_ge (x y : float) :
  (0 <= x)%js = true -> (0 <= y)%js = true -> (x <= x + y)%js = true.
Proof.
  intros Hx Hy. unfold JS.leb. rewrite leb_spec, add_spec. unfold SF64add.
  destruct (nonnegative_cases x Hx) as [(sx & ->) | [-> | (mx & ex & -> & Bx)]];
    destruct (nonnegative_cases y Hy) as [(sy & ->) | [-> | (my & ey & -> & By)]];
    try reflexivity;
    try (destruct sx; reflexivity);
    try (destruct sx, sy; reflexivity).
  - cbn [SFadd]. apply SFleb_refl_finite.
  - cbn [SFadd cond_Zopp].
    destruct (shl_align_spec mx ex (Z.min ex ey)) as (_ & E1 & V1).
    destruct (shl_align_spec my ey (Z.min ex ey)) as (_ & E2 & V2).
    rewrite E1 in V1 by lia. rewrite E2 in V2 by lia.
    change (Zpos (fst (shl_align mx ex (Z.min ex ey))) +
            Zpos (fst (shl_align my ey (Z.min ex ey))))
      with (Zpos (fst (shl_align mx ex (Z.min ex ey)) +
                  fst (shl_align my ey (Z.min ex ey)))).
    cbn [binary_normalize].
    apply binary_round_ge; [assumption | lia |].
    rewrite Pos2Z.inj_add, V1. lia.
Qed.

(** The finite positive numbers. *)
Lemma positive_finite (x : float) :
  (0 < x)%js = true -> (x < infinity)%js = true ->
  exists m e, Prim2SF x = S754_finite false m e /\ bounded prec emax m e = true.
Proof.
  unfold JS.ltb. rewrite !ltb_spec. pose proof (Prim2SF_valid x) as V.
  change (Prim2SF 0) with (S754_zero false).
  change (Prim2SF infinity) with (S754_infinity false).
  destruct (Prim2SF x) as [s | s | | s m e]; unfold SFltb; simpl; intros H H'.
  - discriminate.
  - destruct s; discriminate.
  - discriminate.
  - destruct s; [discriminate |]. exists m, e. auto.
Qed.

(** Subtracting a number that is not negative does not increase a finite
    positive number. *)
Lemma sub_le (x y : float) :
  (0 < x)%js = true -> (x < infinity)%js = true -> (0 <= y)%js = true ->
  (x - y <= x)%js = true.
Proof.
  intros Hx Hx' Hy. unfold JS.leb. rewrite leb_spec, sub_spec. unfold SF64sub.
  destruct (positive_finite x Hx Hx') as (mx & ex & -> & Bx).
  destruct (nonnegative_cases y Hy) as [(sy & ->) | [-> | (my & ey & -> & By)]].
  - cbn [SFsub]. apply SFleb_refl_finite.
  - reflexivity.
  - cbn [SFsub cond_Zopp].
    destruct (shl_align_spec mx ex (Z.min ex ey)) as (_ & E1 & V1).
    destruct (shl_align_spec my ey (Z.min ex ey)) as (_ & E2 & V2).
    rewrite E1 in V1 by lia. rewrite E2 in V2 by lia.
    destruct (Zpos (fst (shl_align mx ex (Z.min ex ey))) -
              Zpos (fst (shl_align my ey (Z.min ex ey)))) as [| p | p] eqn:D;
      cbn [binary_normalize].
    + reflexivity.
    + apply binary_round_le; [assumption | lia |]. lia.
    + destruct (binary_round_sign true p (Z.min ex ey))
        as [(s' & -> & ->) | [-> | (m' & e' & ->)]]; reflexivity.
Qed.

(** The product of a number that is not negative and a finite positive
    number is not negative. *)
Lemma mul_not_negative (x k : float) :
  (0 <= x)%js = true -> (0 < k)%js = true -> (k < infinity)%js = true ->
  (0 <= x * k)%js = true.
Proof.
  intros Hx Hk Hk'. unfold JS.leb. rewrite leb_spec, mul_spec. unfold SF64mul.
  change (Prim2SF 0) with (S754_zero false).
  destruct (positive_finite k Hk Hk') as (mk & ek & -> & _).
  destruct (nonnegative_cases x Hx) as [(sx & ->) | [-> | (mx & ex & -> & _)]].
  - destruct sx; reflexivity.
  - reflexivity.
  - cbn [SFmul xorb].
    destruct (binary_round_aux_sign false (Zpos (mx * mk)) (ex + ek))
      as [(s' & -> & ->) | [-> | (m' & e' & ->)]]; [lia | reflexivity ..].
Qed.

(** ** Rounding to an integer *)

(** The order of two positive numbers of the format is the order of their
    values. *)
Lemma SFleb_value (m1 m2 : positive) (e1 e2 k : Z) :
  bounded prec emax m1 e1 = true -> bounded prec emax m2 e2 = true ->
  SFleb (S754_finite false m1 e1) (S754_finite false m2 e2) = true ->
  k <= e1 -> k <= e2 ->
  Zpos m1 * 2 ^ (e1 - k) <= Zpos m2 * 2 ^ (e2 - k).
Proof.
  intros B1 B2 H K1 K2.
  apply bounded_shape in B2. destruct B2 as (_ & R2 & N2).
  destruct (bounded_facts m1 e1 B1) as [C1 _].
  apply bounded_shape in B1. destruct B1 as (_ & R1 & _).
  assert (A : 0 < 2 ^ (e1 - k)) by (apply Z.pow_pos_nonneg; lia).
  unfold SFleb, SFcompare in H.
  destruct (Z.compare_spec e1 e2) as [E | E | E].
  - subst e2. change (Pos.compare_cont Eq m1 m2) with (Pos.compare m1 m2) in H.
    destruct (Pos.compare_spec m1 m2); try discriminate; nia.
  - destruct (digits2_pos_bounds m1) as [_ U].
    assert (D : Zpos (digits2_pos m1) <= 53) by (unfold fexp64 in C1; lia).
    assert (U' : Zpos m1 < 9007199254740992).
    { eapply Z.lt_le_trans; [exact U |]. change 9007199254740992 with (2 ^ 53).
      apply Z.pow_le_mono_r; lia. }
    assert (L2 : 4503599627370496 <= Zpos m2) by (apply N2; lia).
    replace (e2 - k) with ((e1 - k) + (e2 - e1)) by lia.
    rewrite Z.pow_add_r by lia.
    assert (G : 2 <= 2 ^ (e2 - e1)).
    { change 2 with (2 ^ 1) at 1. apply Z.pow_le_mono_r; lia. }
    set (g := 2 ^ (e2 - e1)) in *. set (a := 2 ^ (e1 - k)) in *.
    assert (X : 9007199254740992 <= Zpos m2 * g) by nia.
    apply Z.le_trans with (9007199254740992 * a); [nia |].
    rewrite (Z.mul_comm a g), Z.mul_assoc. apply Z.mul_le_mono_nonneg_r; lia.
  - discriminate.
Qed.

(** [Math.round] keeps a number between two positive integers between
    them.  The integers are given with their binary64 representations. *)
Lemma Math_round_between (lo hi x : float) (L H : Z) (ml mh : positive) (el eh : Z) :
  Prim2SF lo = S754_finite false ml el -> el <= 0 -> Zpos ml = L * 2 ^ (- el) ->
  Prim2SF hi = S754_finite false mh eh -> eh <= 0 -> Zpos mh = H * 2 ^ (- eh) ->
  (forall q, L <= q <= H ->
     (lo <= JS.Z2F q)%js = true /\ (JS.Z2F q <= hi)%js = true) ->
  0 < L ->
  (lo <= x)%js = true -> (x <= hi)%js = true ->
  (lo <= Math_round x)%js = true /\ (Math_round x <= hi)%js = true.
Proof.
  intros El Hel Vl Eh Heh Vh Hq HL Hlo Hhi.
  pose proof (Prim2SF_valid lo) as Bl. rewrite El in Bl. cbn [valid_binary] in Bl.
  pose proof (Prim2SF_valid hi) as Bh. rewrite Eh in Bh. cbn [valid_binary] in Bh.
  pose proof (Prim2SF_valid x) as Bx.
  pose proof Hlo as Hlo'. pose proof Hhi as Hhi'.
  unfold JS.leb in Hlo', Hhi'. rewrite leb_spec in Hlo', Hhi'.
  rewrite El in Hlo'. rewrite Eh in Hhi'.
  unfold Math_round.
  destruct (Prim2SF x) as [s | s | | s m e] eqn:Ex;
    try (now simpl in Hlo'); try (destruct s; now simpl in Hlo', Hhi').
  destruct s; [now simpl in Hlo' |]. cbn [valid_binary] in Bx.
  {
    destruct (Z.leb_spec 0 e) as [He | He]; [split; assumption |].
    set (a := 2 ^ (- e)).
    assert (Ha : 0 < a) by (apply Z.pow_pos_nonneg; lia).
    assert (Lo : L * a <= Zpos m).
    { pose proof (SFleb_value ml m el e (Z.min el e) Bl Bx Hlo') as V.
      rewrite Vl in V. specialize (V ltac:(lia) ltac:(lia)).
      assert (P : 0 < 2 ^ (e - Z.min el e)) by (apply Z.pow_pos_nonneg; lia).
      assert (Q : 2 ^ (- el) * 2 ^ (el - Z.min el e) = a * 2 ^ (e - Z.min el e)).
      { unfold a. rewrite <- !Z.pow_add_r by lia. f_equal. lia. }
      nia. }
    assert (Hi : Zpos m <= H * a).
    { pose proof (SFleb_value m mh e eh (Z.min e eh) Bx Bh Hhi') as V.
      rewrite Vh in V. specialize (V ltac:(lia) ltac:(lia)).
      assert (P : 0 < 2 ^ (e - Z.min e eh)) by (apply Z.pow_pos_nonneg; lia).
      assert (Q : 2 ^ (- eh) * 2 ^ (eh - Z.min e eh) = a * 2 ^ (e - Z.min e eh)).
      { unfold a. rewrite <- !Z.pow_add_r by lia. f_equal. lia. }
      nia. }
    assert (T : 2 ^ (1 - e) = 2 * a).
    { unfold a. replace (1 - e) with (1 + - e) by lia.
      rewrite Z.pow_add_r by lia. reflexivity. }
    rewrite T.
    assert (Q : L <= (2 * Zpos m + a) / (2 * a) <= H).
    { split.
      - apply Z.div_le_lower_bound; nia.
      - assert ((2 * Zpos m + a) / (2 * a) < H + 1); [| lia].
        apply Z.div_lt_upper_bound; nia. }
    destruct (Z.eqb_spec ((2 * Zpos m + a) / (2 * a)) 0) as [Z0 | _]; [lia |].
    apply Hq. exact Q. }
Qed.

(** The integers of a range, one by one. *)
Lemma integers_between (lo hi : float) (L H : Z) :
  0 <= L ->
  forallb (fun q => (lo <= JS.Z2F q)%js && (JS.Z2F q <= hi)%js)
    (map Z.of_nat (seq (Z.to_nat L) (Z.to_nat (H - L + 1)))) = true ->
  forall q, L <= q <= H ->
    (lo <= JS.Z2F q)%js = true /\ (JS.Z2F q <= hi)%js = true.
Proof.
  intros HL F q Hq. rewrite forallb_forall in F.
  apply andb_true_iff. apply F. apply in_map_iff.
  exists (Z.to_nat q). split; [lia |]. apply in_seq. lia.
Qed.

Lemma Math_round_40_95 (x : float) :
  (40 <= x)%js = true -> (x <= 95)%js = true ->
  (40 <= Math_round x)%js = true /\ (Math_round x <= 95)%js = true.
Proof.
  apply (Math_round_between 40 95 x 40 95 5629499534213120 6685030696878080 (-47) (-46));
    try reflexivity; try lia.
  apply integers_between; [lia | vm_compute; reflexivity].
Qed.

Lemma Math_round_55_95 (x : float) :
  (55 <= x)%js = true -> (x <= 95)%js = true ->
  (55 <= Math_round x)%js = true /\ (Math_round x <= 95)%js = true.
Proof.
  apply (Math_round_between 55 95 x 55 95 7740561859543040 6685030696878080 (-47) (-46));
    try reflexivity; try lia.
  apply integers_between; [lia | vm_compute; reflexivity].
Qed.

(** ** More of the order *)

Lemma SFltb_leb_trans (a b c : spec_float) :
  SFltb a b = true -> SFleb b c = true -> SFltb a c = true.
Proof.
  unfold SFltb, SFleb.
  destruct a as [sa | sa | | sa ma ea], b as [sb | sb | | sb mb eb],
           c as [sc | sc | | sc mc ec];
    simpl; try discriminate; try reflexivity;
    try (destruct sa, sb, sc; simpl; try discriminate; reflexivity);
    try (destruct sa, sb; simpl; try discriminate; reflexivity);
    try (destruct sb, sc; simpl; try discriminate; reflexivity);
    try (destruct sa, sc; simpl; try discriminate; reflexivity).
  all: destruct sa, sb, sc; simpl; try discriminate; try reflexivity.
  all: change (Pos.compare_cont Eq ma mb) with (Pos.compare ma mb);
       change (Pos.compare_cont Eq mb mc) with (Pos.compare mb mc);
       change (Pos.compare_cont Eq ma mc) with (Pos.compare ma mc);
       destruct (Z.compare_spec ea eb), (Z.compare_spec eb ec), (Z.compare_spec ea ec);
       try discriminate; try reflexivity; try lia; subst;
       destruct (Pos.compare_spec ma mb), (Pos.compare_spec mb mc), (Pos.compare_spec ma mc);
       simpl; try discriminate; try reflexivity; try lia.
Qed.

Lemma SFleb_ltb_trans (a b c : spec_float) :
  SFleb a b = true -> SFltb b c = true -> SFltb a c = true.
Proof.
  unfold SFltb, SFleb.
  destruct a as [sa | sa | | sa ma ea], b as [sb | sb | | sb mb eb],
           c as [sc | sc | | sc mc ec];
    simpl; try discriminate; try reflexivity;
    try (destruct sa, sb, sc; simpl; try discriminate; reflexivity);
    try (destruct sa, sb; simpl; try discriminate; reflexivity);
    try (destruct sb, sc; simpl; try discriminate; reflexivity);
    try (destruct sa, sc; simpl; try discriminate; reflexivity).
  all: destruct sa, sb, sc; simpl; try discriminate; try reflexivity.
  all: change (Pos.compare_cont Eq ma mb) with (Pos.compare ma mb);
       change (Pos.compare_cont Eq mb mc) with (Pos.compare mb mc);
       change (Pos.compare_cont Eq ma mc) with (Pos.compare ma mc);
       destruct (Z.compare_spec ea eb), (Z.compare_spec eb ec), (Z.compare_spec ea ec);
       try discriminate; try reflexivity; try lia; subst;
       destruct (Pos.compare_spec ma mb), (Pos.compare_spec mb mc), (Pos.compare_spec ma mc);
       simpl; try discriminate; try reflexivity; try lia.
Qed.

Lemma ltb_leb_trans (a b c : float) :
  (a < b)%js = true -> (b <= c)%js = true -> (a < c)%js = true.
Proof. unfold JS.ltb, JS.leb. rewrite !ltb_spec, leb_spec. apply SFltb_leb_trans. Qed.

Lemma leb_ltb_trans (a b c : float) :
  (a <= b)%js = true -> (b < c)%js = true -> (a < c)%js = true.
Proof. unfold JS.ltb, JS.leb. rewrite !ltb_spec, leb_spec. apply SFleb_ltb_trans. Qed.

(** ** Minimum and maximum *)

Lemma ltb_true_not_nan (a b : float) :
  (a < b)%js = true -> is_nan a = false /\ is_nan b = false.
Proof. intro H. apply leb_true_not_nan. now apply ltb_leb. Qed.

Lemma not_ltb_leb (a b : float) :
  is_nan a = false -> is_nan b = false -> (a < b)%js = false -> (b <= a)%js = true.
Proof.
  intros Na Nb L. pose proof (ltb_geb_total a b Na Nb) as T. rewrite L in T.
  unfold JS.geb in T. unfold JS.leb. now destruct (PrimFloat.leb b a).
Qed.

(** [Math.min] of two numbers is one of them and is at most both. *)
Lemma Math_min2_bound (a b : float) :
  is_nan a = false -> is_nan b = false ->
  (Math_min2 a b = a \/ Math_min2 a b = b) /\
  (Math_min2 a b <= a)%js = true /\ (Math_min2 a b <= b)%js = true.
Proof.
  intros Na Nb. unfold Math_min2. rewrite Na, Nb. cbn [orb].
  destruct (PrimFloat.ltb a b) eqn:L.
  - split; [now left |]. split; [now apply leb_refl | now apply ltb_leb].
  - pose proof (not_ltb_leb a b Na Nb L) as Hba.
    destruct (PrimFloat.ltb b a) eqn:L'.
    + split; [now right |]. split; [assumption | now apply leb_refl].
    + pose proof (not_ltb_leb b a Nb Na L') as Hab.
      destruct (get_sign a); (split; [auto |]); split; auto using leb_refl.
Qed.

Lemma Math_max2_cases (a b : float) :
  is_nan a = false -> is_nan b = false ->
  JS.Math_max2 a b = a \/ JS.Math_max2 a b = b.
Proof.
  intros Na Nb. unfold JS.Math_max2. rewrite Na, Nb. cbn [orb].
  destruct (PrimFloat.ltb a b); [now right |].
  destruct (PrimFloat.ltb b a); [now left |].
  destruct (get_sign a); auto.
Qed.

(** A cap at [hi] on a number that is at least [lo]. *)
Lemma capped (lo hi z : float) :
  (lo <= hi)%js = true -> (lo <= z)%js = true ->
  (lo <= Math_min2 hi z)%js = true /\ (Math_min2 hi z <= hi)%js = true.
Proof.
  intros H Hz.
  destruct (leb_true_not_nan _ _ H) as [_ Nh].
  destruct (leb_true_not_nan _ _ Hz) as [_ Nz].
  destruct (Math_min2_bound hi z Nh Nz) as ([-> | ->] & U & _); auto.
Qed.

(** A floor at [lo] under a number that is at most [hi]. *)
Lemma floored (lo hi z : float) :
  (lo <= hi)%js = true -> (z <= hi)%js = true ->
  (lo <= JS.Math_max2 lo z)%js = true /\ (JS.Math_max2 lo z <= hi)%js = true.
Proof.
  intros H Hz.
  destruct (leb_true_not_nan _ _ H) as [Nl _].
  destruct (leb_true_not_nan _ _ Hz) as [Nz _].
  destruct (Math_max2_cases lo z Nl Nz) as [E | E].
  - rewrite E. split; [now apply leb_refl | assumption].
  - assert (N : is_nan (JS.Math_max2 lo z) = false) by now rewrite E.
    destruct (Math_max2_bound lo z N) as (_ & _ & U & _).
    split; [assumption | rewrite E; assumption].
Qed.

(** ** The confidence *)

(** A base confidence raised by a multiple of the size of a change. *)
Lemma raised (base change k : float) :
  (0 <= base)%js = true -> is_nan change = false ->
  (0 < k)%js = true -> (k < infinity)%js = true ->
  (base <= base + JS.Math_abs change * k)%js = true.
Proof.
  intros Hb N Hk Hk'. apply add_ge; [assumption |].
  apply mul_not_negative; try assumption. now apply abs_not_negative.
Qed.

Lemma primaryTrend_confidence (threshold : Threshold) (totalChange avgTrend : float) :
  (50 <= snd (primaryTrend threshold totalChange avgTrend))%js = true /\
  (snd (primaryTrend threshold totalChange avgTrend) <= 95)%js = true.
Proof.
  assert (Up : forall t : float, (0 <= t)%js = true -> is_nan totalChange = false ->
             (60 <= 60 + JS.Math_abs totalChange * 2 + t)%js = true).
  { intros t Ht N.
    pose proof (raised 60 totalChange 2 eq_refl N eq_refl eq_refl) as R.
    apply (leb_trans _ _ _ R). apply add_ge; [| assumption].
    exact (leb_trans 0 60 _ eq_refl R). }
  unfold primaryTrend.
  destruct ((totalChange > strong threshold)%js && (avgTrend > weak threshold)%js) eqn:C1.
  - apply andb_true_iff in C1. destruct C1 as [C1 _].
    apply ltb_true_not_nan in C1. destruct C1 as [_ N]. cbn [snd].
    assert (T : (0 <= (if (avgTrend > 0)%js then 10 else 0))%js = true)
      by (destruct (avgTrend > 0)%js; reflexivity).
    destruct (capped 60 95 _ eq_refl (Up _ T N)) as [Lo Hi].
    split; [exact (leb_trans 50 60 _ eq_refl Lo) | exact Hi].
  - destruct ((totalChange < - strong threshold)%js && (avgTrend < - weak threshold)%js)
      eqn:C2.
    + apply andb_true_iff in C2. destruct C2 as [C2 _].
      apply ltb_true_not_nan in C2. destruct C2 as [N _]. cbn [snd].
      assert (T : (0 <= (if (avgTrend < 0)%js then 10 else 0))%js = true)
        by (destruct (avgTrend < 0)%js; reflexivity).
      destruct (capped 60 95 _ eq_refl (Up _ T N)) as [Lo Hi].
      split; [exact (leb_trans 50 60 _ eq_refl Lo) | exact Hi].
    + destruct (JS.Math_abs totalChange > weak threshold)%js eqn:C3.
      * apply ltb_true_not_nan in C3. destruct C3 as [_ N]. rewrite abs_nan in N.
        cbn [snd].
        pose proof (raised 50 totalChange 1.5 eq_refl N eq_refl eq_refl) as R.
        destruct (capped 50 85 _ eq_refl R) as [Lo Hi].
        split; [exact Lo | exact (leb_trans _ 85 95 Hi eq_refl)].
      * cbn [snd]. split; reflexivity.
Qed.

Lemma adjustConfidence_bounds (volatility confidence : float) :
  (50 <= confidence)%js = true -> (confidence <= 95)%js = true ->
  (40 <= adjustConfidence volatility confidence)%js = true /\
  (adjustConfidence volatility confidence <= 95)%js = true.
Proof.
  intros Lo Hi. unfold adjustConfidence.
  destruct (volatility > 5)%js.
  - apply floored; [reflexivity |].
    apply leb_trans with (2 := Hi). apply sub_le; [| | reflexivity].
    + exact (ltb_leb_trans 0 50 _ eq_refl Lo).
    + exact (leb_ltb_trans _ 95 infinity Hi eq_refl).
  - destruct (volatility < 1)%js.
    + apply capped; [reflexivity |].
      apply (leb_trans 40 50 _ eq_refl). apply (leb_trans _ _ _ Lo).
      apply add_ge; [exact (leb_trans 0 50 _ eq_refl Lo) | reflexivity].
    + split; [exact (leb_trans 40 50 _ eq_refl Lo) | exact Hi].
Qed.

(** X18.  The confidence given by [analyzeTrend] is always a number between
    40 and 95: for every list of prices (NaN and infinite prices included),
    every timeframe, and whatever [Math.pow] returns, the confidence is not
    NaN, is at least 40 and is at most 95. *)
Theorem analyzeTrend_confidence (host : Host) (historicalData : list float)
    (timeframe : string) :
  (40 <= confidence (analyzeTrend host historicalData timeframe))%js = true /\
  (confidence (analyzeTrend host historicalData timeframe) <= 95)%js = true.
Proof.
  unfold analyzeTrend. destruct (JS.length historicalData <? 3); [split; reflexivity |].
  cbv zeta.
  pose proof (primaryTrend_confidence (trendThreshold timeframe)
                (totalChangeOf historicalData) (avgTrendOf historicalData)) as [Lo Hi].
  destruct (primaryTrend _ _ _) as [found primary]. cbn [snd confidence] in *.
  destruct (adjustConfidence_bounds (volatilityOf host historicalData) primary Lo Hi)
    as [Lo' Hi'].
  now apply Math_round_40_95.
Qed.

Lemma nan_propagates (change k c : float) :
  is_nan change = true -> is_nan (c - JS.Math_abs change * k)%float = true.
Proof.
  intro N. apply is_nan_spec. rewrite sub_spec, mul_spec.
  assert (E : Prim2SF (JS.Math_abs change) = S754_nan)
    by (apply is_nan_spec; now rewrite abs_nan).
  rewrite E. cbn. now destruct (Prim2SF c).
Qed.

(** X19.  The confidence given by [analyzeTrendFromPercentage] is NaN when
    the percentage change is NaN, and otherwise a number between 55 and 95,
    for every timeframe. *)
Theorem analyzeTrendFromPercentage_confidence (host : Host) (percentageChange : float)
    (timeframe : string) :
  if is_nan percentageChange
  then is_nan (confidence (analyzeTrendFromPercentage host percentageChange timeframe))
       = true
  else
    (55 <= confidence (analyzeTrendFromPercentage host percentageChange timeframe))%js
    = true /\
    (confidence (analyzeTrendFromPercentage host percentageChange timeframe) <= 95)%js
    = true.
Proof.
  unfold analyzeTrendFromPercentage. cbv zeta.
  set (threshold := percentageThreshold timeframe).
  destruct (is_nan percentageChange) eqn:N.
  - assert (C1 : (percentageChange > strong threshold)%js = false)
      by (apply nan_unordered_gt; now rewrite N).
    assert (C2 : (percentageChange < - strong threshold)%js = false)
      by (apply nan_unordered; now rewrite N).
    assert (C3 : (JS.Math_abs percentageChange > weak threshold)%js = false)
      by (apply nan_unordered_gt; now rewrite abs_nan, N).
    rewrite C1, C2, C3. cbn [confidence].
    unfold JS.Math_max2. rewrite (nan_propagates percentageChange 5 75 N).
    rewrite orb_true_r. reflexivity.
  - assert (B : forall found primary,
               (55 <= primary)%js = true -> (primary <= 95)%js = true ->
               (55 <= confidence {| trend := found; confidence := Math_round primary;
                                    startDate := dateDaysAgo host (randomDaysBack host) |})%js
               = true /\
               (confidence {| trend := found; confidence := Math_round primary;
                              startDate := dateDaysAgo host (randomDaysBack host) |} <= 95)%js
               = true)
      by (intros; cbn [confidence]; now apply Math_round_55_95).
    pose proof (raised 70 percentageChange 1.5 eq_refl N eq_refl eq_refl) as R70.
    destruct (capped 70 95 _ eq_refl R70) as [Lo70 Hi70].
    destruct (percentageChange > strong threshold)%js;
      [apply B; [exact (leb_trans 55 70 _ eq_refl Lo70) | exact Hi70] |].
    destruct (percentageChange < - strong threshold)%js;
      [apply B; [exact (leb_trans 55 70 _ eq_refl Lo70) | exact Hi70] |].
    destruct (JS.Math_abs percentageChange > weak threshold)%js.
    + pose proof (raised 55 percentageChange 2 eq_refl N eq_refl eq_refl) as R55.
      destruct (capped 55 80 _ eq_refl R55) as [Lo Hi].
      apply B; [exact Lo | exact (leb_trans _ 80 95 Hi eq_refl)].
    + assert (Y : (0 <= JS.Math_abs percentageChange * 5)%js = true).
      { apply mul_not_negative; try reflexivity. now apply abs_not_negative. }
      pose proof (sub_le 75 _ eq_refl eq_refl Y) as S.
      destruct (floored 60 75 _ eq_refl S) as [Lo Hi].
      apply B; [exact (leb_trans 55 60 _ eq_refl Lo) | exact (leb_trans _ 75 95 Hi eq_refl)].
Qed.

(** * The sign of the ATR

    On bars accepted by the validation no ATR value is negative: the true
    ranges are not, and the mean and Wilder's smoothing keep that. *)

(** ** The binary64 value of a positive integer *)

Lemma Zdigits2_mono (a b : Z) : 0 < a -> a <= b -> Zdigits2 a <= Zdigits2 b.
Proof.
  intros Ha Hab. pose proof (Zdigits2_lower a Ha) as L.
  assert (D : 0 < Zdigits2 a) by (destruct a; simpl; lia).
  assert (Zdigits2 a - 1 < Zdigits2 b); [| lia].
  apply Zdigits2_gt; lia.
Qed.

Lemma Zdigits2_shiftr (r s : Z) :
  0 < r -> 0 <= s < Zdigits2 r -> Zdigits2 (r / 2 ^ s) = Zdigits2 r - s.
Proof.
  intros Hr Hs. pose proof (Zdigits2_lower r Hr) as L.
  pose proof (Zdigits2_upper r (Z.lt_le_incl _ _ Hr)) as U.
  assert (P : 0 < 2 ^ s) by (apply Z.pow_pos_nonneg; lia).
  assert (Lo : 2 ^ (Zdigits2 r - 1 - s) <= r / 2 ^ s).
  { apply Z.div_le_lower_bound; [assumption |].
    rewrite <- Z.pow_add_r by lia.
    replace (s + (Zdigits2 r - 1 - s)) with (Zdigits2 r - 1) by lia. exact L. }
  assert (Hi : r / 2 ^ s < 2 ^ (Zdigits2 r - s)).
  { apply Z.div_lt_upper_bound; [assumption |].
    rewrite <- Z.pow_add_r by lia.
    replace (s + (Zdigits2 r - s)) with (Zdigits2 r) by lia. exact U. }
  assert (Zdigits2 r - 1 - s < Zdigits2 (r / 2 ^ s)) by (apply Zdigits2_gt; lia).
  assert (Zdigits2 (r / 2 ^ s) <= Zdigits2 r - s).
  { apply Zdigits2_le; [lia |]. split; [| exact Hi].
    apply Z.div_pos; lia. }
  lia.
Qed.

Lemma Zdigits2_shiftl (m d : Z) :
  0 < m -> 0 <= d -> Zdigits2 (m * 2 ^ d) = Zdigits2 m + d.
Proof.
  intros Hm Hd. pose proof (Zdigits2_lower m Hm) as L.
  pose proof (Zdigits2_upper m (Z.lt_le_incl _ _ Hm)) as U.
  assert (D : 0 < Zdigits2 m) by (destruct m; simpl; lia).
  assert (P : 0 < 2 ^ d) by (apply Z.pow_pos_nonneg; lia).
  assert (Zdigits2 m - 1 + d < Zdigits2 (m * 2 ^ d)).
  { apply Zdigits2_gt; [lia |]. rewrite Z.pow_add_r by lia. nia. }
  assert (Zdigits2 (m * 2 ^ d) <= Zdigits2 m + d).
  { apply Zdigits2_le; [lia |]. rewrite Z.pow_add_r by lia. nia. }
  lia.
Qed.

(** A mantissa brought to the exponent of the format is canonical. *)
Lemma shifted_canonical (r e : Z) :
  0 < r -> -1074 <= e -> 0 <= fexp64 (Zdigits2 r + e) - e ->
  0 < fst (shifted r e) /\
  fexp64 (Zdigits2 (fst (shifted r e)) + snd (shifted r e)) = snd (shifted r e) /\
  e <= snd (shifted r e).
Proof.
  intros Hr He Hs. pose proof (shifted_positive r e Hr He) as Hp.
  split; [exact Hp |]. unfold shifted in *. cbn [fst snd] in *.
  set (s := fexp64 (Zdigits2 r + e) - e) in *.
  assert (D : 0 < Zdigits2 r) by (destruct r; simpl; lia).
  destruct (Z.ltb_spec 0 s) as [Hpos | Hle].
  - assert (Hlt : s < Zdigits2 r) by (unfold s, fexp64; lia).
    rewrite Zdigits2_shiftr by lia. rewrite Z.max_l by lia.
    split; [| lia].
    replace (Zdigits2 r - s + (e + s)) with (Zdigits2 r + e) by lia.
    unfold s. lia.
  - rewrite Z.max_r by lia. split; [| lia].
    replace (e + 0) with e by lia. unfold s in *. lia.
Qed.

Lemma rounded_valid (sx : bool) (m e : Z) :
  fexp64 (Zdigits2 m + e) = e -> valid_binary (rounded sx m e) = true.
Proof.
  intro C. unfold rounded. destruct m as [| p | p]; try reflexivity.
  destruct (Z.leb_spec e (emax - prec)) as [H | H]; [| reflexivity].
  cbn [valid_binary]. unfold bounded, canonical_mantissa.
  rewrite fexp64_eq. cbn [Zdigits2] in C. rewrite C, Z.eqb_refl.
  apply Z.leb_le in H. now rewrite H.
Qed.

Lemma binary_round_aux_valid (sx : bool) (M e : Z) :
  0 < M -> -1074 <= e -> 0 <= fexp64 (Zdigits2 M + e) - e ->
  valid_binary (binary_round_aux prec emax sx M e loc_Exact) = true.
Proof.
  intros HM He Hs.
  destruct (binary_round_aux_spec sx M e) as (r & Hr & ->); [lia |].
  destruct (shifted_canonical M e HM He Hs) as (P1 & C1 & E1).
  set (m1 := fst (shifted M e)) in *. set (e1 := snd (shifted M e)) in *.
  assert (Hs2 : 0 <= fexp64 (Zdigits2 r + e1) - e1).
  { pose proof (Zdigits2_mono m1 r P1 (proj1 Hr)) as Dm. unfold fexp64 in *. lia. }
  destruct (shifted_canonical r e1) as (_ & C2 & _); [lia | lia | assumption |].
  now apply rounded_valid.
Qed.

Lemma binary_round_valid (sx : bool) (M : positive) (e : Z) :
  -1074 <= e -> valid_binary (binary_round prec emax sx M e) = true.
Proof.
  intro He. unfold binary_round. rewrite fexp64_eq.
  set (t := fexp64 (Zpos (digits2_pos M) + e)).
  destruct (shl_align_spec M e t) as (H1 & H2 & H3).
  assert (Ht : -1074 <= t) by (unfold t, fexp64; lia).
  destruct (shl_align M e t) as [mz ez] eqn:E. cbn [fst snd] in *.
  assert (Q : -1074 <= ez /\ 0 <= fexp64 (Zdigits2 (Zpos mz) + ez) - ez).
  { unfold shl_align in E. destruct (t - e) as [| d | d] eqn:Ed; injection E as <- <-.
    - split; [lia |]. change (Zdigits2 (Zpos M)) with (Zpos (digits2_pos M)). fold t. lia.
    - split; [lia |]. change (Zdigits2 (Zpos M)) with (Zpos (digits2_pos M)). fold t. lia.
    - split; [lia |]. rewrite iter_xO, Zdigits2_shiftl by lia.
      change (Zdigits2 (Zpos M)) with (Zpos (digits2_pos M)).
      replace (Zpos (digits2_pos M) + Zpos d + t) with (Zpos (digits2_pos M) + e) by lia.
      fold t. lia. }
  apply binary_round_aux_valid; [lia | apply Q | apply Q].
Qed.

(** The binary64 value of a positive integer is what the rounding gives. *)
Lemma Z2F_spec (p : positive) :
  Prim2SF (JS.Z2F (Zpos p)) = binary_round prec emax false p 0.
Proof.
  unfold JS.Z2F. cbn [binary_normalize].
  apply Prim2SF_SF2Prim. apply binary_round_valid. lia.
Qed.

(** Rounding a positive value at an exponent above that of a number of the
    format gives more than that number. *)
Lemma round_ge_above (mx : positive) (ex M e : Z) :
  bounded prec emax mx ex = true -> ex < e -> 0 < M ->
  SFleb (S754_finite false mx ex) (binary_round_aux prec emax false M e loc_Exact) = true.
Proof.
  intros B He HM. apply bounded_shape in B. destruct B as (_ & Bex & _).
  destruct (binary_round_aux_spec false M e) as (r & Hr & ->); [lia |].
  pose proof (shifted_positive M e HM ltac:(lia)) as P1.
  assert (E1 : e <= snd (shifted M e)) by (unfold shifted; cbn [snd]; lia).
  pose proof (shifted_positive r (snd (shifted M e)) ltac:(lia) ltac:(lia)) as P2.
  apply finite_leb_rounded; [assumption |]. left.
  unfold shifted at 1. cbn [snd]. lia.
Qed.

Lemma one_leb_Z2F (p : positive) : (1 <= JS.Z2F (Zpos p))%js = true.
Proof.
  unfold JS.leb. rewrite leb_spec, Z2F_spec.
  change (Prim2SF 1) with (S754_finite false 4503599627370496 (-52)).
  unfold binary_round.
  destruct (shl_align_spec p 0 (fexp prec emax (Zpos (digits2_pos p) + 0))) as (H1 & _ & H3).
  destruct (shl_align p 0 (fexp prec emax (Zpos (digits2_pos p) + 0))) as [mz ez].
  cbn [fst snd] in *.
  destruct (Z.le_gt_cases ez (-52)) as [Hle | Hgt].
  - apply round_ge; [reflexivity | assumption |].
    rewrite H3. change 4503599627370496 with (2 ^ 52).
    rewrite <- Z.pow_add_r by lia. replace (52 + (-52 - ez)) with (0 - ez) by lia.
    assert (0 < 2 ^ (0 - ez)) by (apply Z.pow_pos_nonneg; lia). nia.
  - apply round_ge_above; [reflexivity | lia | lia].
Qed.

(** ** Operations on numbers that are not negative *)

Lemma notNegative_spec (x : float) :
  notNegative x <-> SFnotNegative (Prim2SF x) = true.
Proof.
  unfold notNegative, JS.leb. rewrite is_nan_spec, leb_spec.
  change (Prim2SF 0) with (S754_zero false).
  destruct (Prim2SF x) as [s | s | | s m e]; unfold SFleb; simpl.
  - tauto.
  - destruct s; simpl; split; try tauto; intros [H | H]; discriminate.
  - tauto.
  - destruct s; simpl; split; try tauto; intros [H | H]; discriminate.
Qed.

Lemma binary_round_aux_sign_loc (sx : bool) (M e : Z) (l : location) :
  0 <= M ->
  binary_round_aux prec emax sx M e l = S754_zero sx \/
  binary_round_aux prec emax sx M e l = S754_infinity sx \/
  exists m' e', binary_round_aux prec emax sx M e l = S754_finite sx m' e'.
Proof.
  intro H. unfold binary_round_aux.
  destruct (shr_fexp_m M e l H) as [Hm _].
  destruct (shr_fexp prec emax M e l) as [mrs1 e1]. cbn [fst snd] in Hm.
  set (r := round_nearest_even (shr_m mrs1) (loc_of_shr_record mrs1)).
  assert (Hr : shr_m mrs1 <= r) by apply round_nearest_even_bounds.
  assert (H1 : 0 <= shr_m mrs1).
  { rewrite Hm. destruct (Z.ltb_spec 0 (fexp64 (Zdigits2 M + e) - e)); [| assumption].
    apply Z.div_pos; [assumption |]. apply Z.pow_pos_nonneg; lia. }
  destruct (shr_fexp_m r e1 loc_Exact) as [Hm2 _]; [lia |].
  destruct (shr_fexp prec emax r e1 loc_Exact) as [mrs2 e2]. cbn [fst snd] in Hm2.
  assert (H2 : 0 <= shr_m mrs2).
  { rewrite Hm2. destruct (Z.ltb_spec 0 (fexp64 (Zdigits2 r + e1) - e1)); [| lia].
    apply Z.div_pos; [lia |]. apply Z.pow_pos_nonneg; lia. }
  destruct (shr_m mrs2) as [| p | p].
  - now left.
  - destruct (_ <=? _); [right; right; eauto | right; left; reflexivity].
  - lia.
Qed.

Lemma SFadd_notNegative (a b : spec_float) :
  SFnotNegative a = true -> SFnotNegative b = true ->
  SFnotNegative (SFadd prec emax a b) = true.
Proof.
  destruct a as [sa | sa | | sa ma ea], b as [sb | sb | | sb mb eb];
    simpl; intros Ha Hb; try reflexivity; try discriminate;
    try (destruct sa; try discriminate; reflexivity);
    try (destruct sb; try discriminate; reflexivity);
    try (destruct sa, sb; try discriminate; reflexivity).
  destruct sa, sb; try discriminate. cbn [cond_Zopp].
  change (Zpos (fst (shl_align ma ea (Z.min ea eb))) +
          Zpos (fst (shl_align mb eb (Z.min ea eb))))
    with (Zpos (fst (shl_align ma ea (Z.min ea eb)) +
                fst (shl_align mb eb (Z.min ea eb)))).
  cbn [binary_normalize].
  destruct (binary_round_sign false
              (fst (shl_align ma ea (Z.min ea eb)) + fst (shl_align mb eb (Z.min ea eb)))
              (Z.min ea eb)) as [(s' & -> & ->) | [-> | (m' & e' & ->)]]; reflexivity.
Qed.

Lemma SFmul_notNegative (a b : spec_float) :
  SFnotNegative a = true -> SFnotNegative b = true ->
  SFnotNegative (SFmul prec emax a b) = true.
Proof.
  destruct a as [sa | sa | | sa ma ea], b as [sb | sb | | sb mb eb];
    simpl; intros Ha Hb; try reflexivity; try discriminate;
    try (destruct sa; try discriminate; reflexivity);
    try (destruct sb; try discriminate; reflexivity);
    try (destruct sa, sb; try discriminate; reflexivity).
  destruct sa, sb; try discriminate. cbn [xorb].
  destruct (binary_round_aux_sign_loc false (Zpos (ma * mb)) (ea + eb) loc_Exact)
    as [-> | [-> | (m' & e' & ->)]]; [lia | reflexivity ..].
Qed.

Lemma SFdiv_notNegative (a b : spec_float) :
  SFnotNegative a = true -> SFleb (Prim2SF 1) b = true ->
  SFnotNegative (SFdiv prec emax a b) = true.
Proof.
  change (Prim2SF 1) with (S754_finite false 4503599627370496 (-52)).
  destruct b as [sb | sb | | sb mb eb]; try discriminate;
    (destruct sb; [discriminate |]); intros Ha _;
    destruct a as [sa | sa | | sa ma ea]; try reflexivity;
    (destruct sa; [discriminate |]); try reflexivity.
  cbn [SFdiv xorb]. unfold SFdiv_core_binary.
  set (s := ea - eb - Z.min _ _).
  set (m' := match s with Z0 => Zpos ma | Zpos _ => Z.shiftl (Zpos ma) s | Zneg _ => 0 end).
  assert (Hm : 0 <= m').
  { unfold m'. destruct s; try lia. apply Z.shiftl_nonneg. lia. }
  pose proof (Z.div_pos m' (Zpos mb) Hm ltac:(lia)) as Q. unfold Z.div in Q.
  destruct (Z.div_eucl m' (Zpos mb)) as [q r]. cbn [fst] in Q.
  destruct (binary_round_aux_sign_loc false q (Z.min (fexp prec emax
              (Zdigits2 (Zpos ma) + ea - (Zdigits2 (Zpos mb) + eb))) (ea - eb))
              (new_location (Zpos mb) r) Q)
    as [-> | [-> | (m'' & e'' & ->)]]; reflexivity.
Qed.

Lemma add_notNegative (a b : float) :
  notNegative a -> notNegative b -> notNegative (a + b)%float.
Proof.
  rewrite !notNegative_spec, add_spec. apply SFadd_notNegative.
Qed.

Lemma mul_notNegative (a b : float) :
  notNegative a -> notNegative b -> notNegative (a * b)%float.
Proof.
  rewrite !notNegative_spec, mul_spec. apply SFmul_notNegative.
Qed.

Lemma div_notNegative (a b : float) :
  notNegative a -> (1 <= b)%js = true -> notNegative (a / b)%float.
Proof.
  unfold JS.leb. rewrite !notNegative_spec, div_spec, leb_spec.
  apply SFdiv_notNegative.
Qed.

(** The difference of two ordered numbers, the larger first, is not
    negative. *)
Lemma SFsub_notNegative (h l : spec_float) :
  valid_binary h = true -> valid_binary l = true ->
  SFleb l h = true -> SFnotNegative (SFsub prec emax h l) = true.
Proof.
  intros Vh Vl.
  destruct h as [sh | sh | | sh mh eh], l as [sl | sl | | sl ml el];
    try discriminate;
    try (destruct sh, sl; try discriminate; reflexivity);
    try (destruct sh; try discriminate; reflexivity);
    try (destruct sl; try discriminate; reflexivity).
  cbn [valid_binary] in Vh, Vl. intro H. cbn [SFsub].
  destruct (shl_align_spec mh eh (Z.min eh el)) as (_ & E1 & V1).
  destruct (shl_align_spec ml el (Z.min eh el)) as (_ & E2 & V2).
  rewrite E1 in V1 by lia. rewrite E2 in V2 by lia.
  assert (M : 0 <= cond_Zopp sh (Zpos (fst (shl_align mh eh (Z.min eh el)))) -
                   cond_Zopp sl (Zpos (fst (shl_align ml el (Z.min eh el))))).
  { destruct sh, sl; cbn [cond_Zopp].
    - pose proof (SFcompare_opp (S754_finite false ml el) (S754_finite false mh eh)) as O.
      cbn [SFopp negb] in O. unfold SFleb in H. rewrite O in H.
      pose proof (SFleb_value mh ml eh el (Z.min eh el) Vh Vl H ltac:(lia) ltac:(lia)).
      lia.
    - discriminate.
    - lia.
    - pose proof (SFleb_value ml mh el eh (Z.min eh el) Vl Vh H ltac:(lia) ltac:(lia)).
      lia. }
  destruct (cond_Zopp sh (Zpos (fst (shl_align mh eh (Z.min eh el)))) -
            cond_Zopp sl (Zpos (fst (shl_align ml el (Z.min eh el))))) as [| p | p];
    cbn [binary_normalize]; [reflexivity | | lia].
  destruct (binary_round_sign false p (Z.min eh el))
    as [(s' & -> & ->) | [-> | (m' & e' & ->)]]; reflexivity.
Qed.

Lemma sub_notNegative (l h : float) :
  (l <= h)%js = true -> notNegative (h - l)%float.
Proof.
  unfold JS.leb. rewrite notNegative_spec, sub_spec, leb_spec.
  apply SFsub_notNegative; apply Prim2SF_valid.
Qed.

(** ** The true ranges, their mean and the smoothing *)

Lemma toNumber_notNegative (l : list float) (i : Z) :
  Forall notNegative l -> notNegative (JS.toNumber (JS.index l i)).
Proof.
  intro F. destruct (JS.index l i) as [x |] eqn:E; simpl.
  - rewrite Forall_forall in F. apply F.
    unfold JS.index in E. destruct (i <? 0); [discriminate |].
    eapply nth_error_In. exact E.
  - left. reflexivity.
Qed.

Lemma trueRangesFrom_notNegative (ohlcData : list OHLCData) :
  forall previous, Forall notNegative (trueRangesFrom (Some previous) ohlcData).
Proof.
  induction ohlcData as [| c rest IH]; intro previous; simpl; constructor; [| apply IH].
  destruct (is_nan (calculateTrueRange c (Some previous))) eqn:N; [now left | right].
  now apply calculateTrueRange_bound.
Qed.

Lemma trueRanges_notNegative (ohlcData : list OHLCData) :
  validateOHLCData ohlcData = true -> Forall notNegative (trueRanges ohlcData).
Proof.
  unfold trueRanges, validateOHLCData. destruct ohlcData as [| c rest]; simpl; intro V.
  - constructor.
  - constructor; [| apply trueRangesFrom_notNegative].
    apply andb_true_iff in V. destruct V as [V _]. unfold validCandle in V.
    repeat (apply andb_true_iff in V; destruct V as [V ?]).
    now apply sub_notNegative.
Qed.

Section Smoothing.

Variable trs : list float.
Hypothesis trs_notNegative : Forall notNegative trs.

Lemma sumLoop_notNegative (n : nat) :
  forall (i : Z) (sum : float), notNegative sum -> notNegative (sumLoop n i trs sum).
Proof.
  induction n as [| n IH]; intros i sum H; simpl; [assumption |].
  apply IH. apply add_notNegative; [assumption |]. now apply toNumber_notNegative.
Qed.

Lemma smoothLoop_notNegative (period : positive) (n : nat) :
  forall (i : Z) (previousATR : float),
    notNegative previousATR ->
    Forall notNegative (smoothLoop n i (Zpos period) trs previousATR).
Proof.
  induction n as [| n IH]; intros i previousATR H; simpl; constructor.
  - apply div_notNegative; [| apply one_leb_Z2F].
    apply add_notNegative; [| now apply toNumber_notNegative].
    apply mul_notNegative; [assumption |].
    apply sub_notNegative. apply one_leb_Z2F.
  - apply IH. apply div_notNegative; [| apply one_leb_Z2F].
    apply add_notNegative; [| now apply toNumber_notNegative].
    apply mul_notNegative; [assumption |].
    apply sub_notNegative. apply one_leb_Z2F.
Qed.

End Smoothing.

Lemma calculateATR_notNegative (ohlcData : list OHLCData) (period : Z)
    (atrValues : list float) :
  validateOHLCData ohlcData = true ->
  1 <= period ->
  calculateATR ohlcData period = Return atrValues ->
  Forall notNegative atrValues.
Proof.
  intros V Hp. unfold calculateATR.
  destruct (JS.length ohlcData <? period); [discriminate |].
  intro E. injection E as <-.
  pose proof (trueRanges_notNegative ohlcData V) as T.
  destruct period as [| p | p]; try lia.
  assert (F : notNegative
                (sumLoop (Z.to_nat (Zpos p)) 0 (trueRanges ohlcData) 0 / JS.Z2F (Zpos p))%js).
  { apply div_notNegative; [| apply one_leb_Z2F].
    apply sumLoop_notNegative; [assumption |]. right. reflexivity. }
  constructor; [exact F |]. now apply smoothLoop_notNegative.
Qed.

(** X20.  On bars accepted by [validateOHLCData] no ATR value is negative:
    for every period of at least 1, every value returned by [calculateATR]
    is NaN or at least zero, and so is the ATR stored in every result of
    [calculateSupertrend].  (On bars that fail the validation an ATR value
    can be negative.) *)
Theorem atr_not_negative (ohlcData : list OHLCData) :
  validateOHLCData ohlcData = true ->
  (forall period atrValues,
      1 <= period -> calculateATR ohlcData period = Return atrValues ->
      Forall notNegative atrValues) /\
  (forall config results,
      calculateSupertrend ohlcData config = Return results ->
      Forall (fun r => notNegative (atr r)) results).
Proof.
  intro V. split.
  - intros period atrValues Hp E. exact (calculateATR_notNegative _ _ _ V Hp E).
  - intros config results E.
    apply calculateSupertrend_Return in E. destruct E as (trace & E).
    apply traced_view in E.
    destruct E as (Hp & _ & _ & _ & atrValues & Ha & _ & Hatr & _).
    pose proof (calculateATR_notNegative _ _ _ V Hp Ha) as F.
    rewrite Forall_forall in *. intros r Hr.
    apply In_nth_error in Hr. destruct Hr as (k & Hk).
    apply F. eapply nth_error_In. exact (Hatr _ _ Hk).
Qed.

Lemma atr_not_negative_witness :
  exists atrValues,
    calculateATR Sample.spike 10 = Return atrValues /\
    Forall notNegative atrValues /\
    calculateATR Sample.inverted 1 = Return [(-15)%float; 2%float].
Proof.
  eexists.
  assert (E : calculateATR Sample.spike 10 = Return _) by (vm_compute; reflexivity).
  split; [exact E |]. split; [| vm_compute; reflexivity].
  refine (proj1 (atr_not_negative Sample.spike _) 10 _ _ E); [vm_compute; reflexivity | lia].
Defined.
